(** * A shallow embedding of the genetic-algorithm construction scheduler
    ([src/scheduler.py], class [GeneticAlgorithmScheduler]) and of the
    earliest-start planner of [src/resource_optimizer.py]
    ([ResourceOptimizer.optimize_schedule]).

    Modelling conventions.
    - Python ints are [Z].  Python floats (the mode factors 1.1, 0.9, ...,
      the costs, the 1.5 penalty) are rationals [Q]: the claims settled here
      are about the structure of the computation, not about rounding.
    - A Python dict whose iteration order matters is an association list
      kept with Python's insertion semantics ([pydict]); the day-indexed
      ledger, whose order does not matter to any value computed from it
      (all sums are exact in [Q]), is a stdpp [gmap].
    - An exception raised by the code is [None] in an [option] result.
    - Python's module-level [random] generator is a stream of draws
      [nat -> Z] read through a counter: each [random.randint] and each
      [random.random] call consumes one draw. *)

From Stdlib Require Import ZArith QArith Qround List Bool Ascii String Lia Lqa Sorted Permutation.
From stdpp Require Import base gmap strings list.
Import ListNotations.

Open Scope Z_scope.

(* ------------------------------------------------------------------ *)
(** ** Python helpers *)

Module Py.

(** [str.lower] on ASCII characters. *)
Definition lower_ascii (c : ascii) : ascii :=
  let n := nat_of_ascii c in
  if andb (Nat.leb 65 n) (Nat.leb n 90) then ascii_of_nat (n + 32) else c.

Fixpoint lower (s : string) : string :=
  match s with
  | EmptyString => EmptyString
  | String c s' => String (lower_ascii c) (lower s')
  end.

Fixpoint is_prefix (p s : string) : bool :=
  match p, s with
  | EmptyString, _ => true
  | String _ _, EmptyString => false
  | String c p', String d s' => Ascii.eqb c d && is_prefix p' s'
  end.

(** [needle in hay] for strings: a substring test. *)
Fixpoint contains (needle hay : string) : bool :=
  is_prefix needle hay ||
  match hay with
  | EmptyString => false
  | String _ hay' => contains needle hay'
  end.

(** [range(a, b)] over ints. *)
Definition zrange (a b : Z) : list Z :=
  map (fun i => a + Z.of_nat i) (seq 0 (Z.to_nat (b - a))).

(** [max(xs)] of a non-empty list; [None] stands for the [ValueError] of
    an empty one. *)
Definition max_list (xs : list Z) : option Z :=
  match xs with
  | [] => None
  | x :: xs' => Some (fold_left Z.max xs' x)
  end.

(** [int(q)] of a float: truncation toward zero. *)
Definition int_of_Q (q : Q) : Z :=
  if Qle_bool 0 q then Qfloor q else - Qfloor (- q).

(** Python dicts with insertion order: setting an existing key keeps its
    position, a new key goes last. *)
Definition pydict (V : Type) := list (string * V).

Fixpoint dict_get {V} (k : string) (d : pydict V) : option V :=
  match d with
  | [] => None
  | (k', v) :: d' => if String.eqb k k' then Some v else dict_get k d'
  end.

Fixpoint dict_set {V} (k : string) (v : V) (d : pydict V) : pydict V :=
  match d with
  | [] => [(k, v)]
  | (k', v') :: d' =>
      if String.eqb k k' then (k', v) :: d' else (k', v') :: dict_set k v d'
  end.

(** [lst.index(x)]; [None] is the [ValueError] of a missing element. *)
Fixpoint index_of (x : string) (l : list string) : option nat :=
  match l with
  | [] => None
  | y :: l' =>
      if String.eqb x y then Some 0%nat
      else option_map S (index_of x l')
  end.

(** Stable sort by an integer key ([list.sort(key=...)]): an element is
    inserted before the equal keys that follow it in the input. *)
Fixpoint insert_by {A} (key : A -> Z) (x : A) (l : list A) : list A :=
  match l with
  | [] => [x]
  | y :: l' => if key x <=? key y then x :: y :: l' else y :: insert_by key x l'
  end.

Fixpoint sort_by {A} (key : A -> Z) (l : list A) : list A :=
  match l with
  | [] => []
  | x :: l' => insert_by key x (sort_by key l')
  end.

End Py.

Import Py.

(* ------------------------------------------------------------------ *)
(** ** Modes, tasks and the schedule dictionary *)

Inductive mode := eco | standard | performance.

Record factors := { f_duration : Q; f_cost : Q; f_carbon : Q }.

(** [self.adjustment_factors[self.mode]]. *)
Definition adjustment_factors (m : mode) : factors :=
  match m with
  | eco => {| f_duration := 11 # 10; f_cost := 9 # 10; f_carbon := 7 # 10 |}
  | standard => {| f_duration := 1; f_cost := 1; f_carbon := 1 |}
  | performance => {| f_duration := 4 # 5; f_cost := 6 # 5; f_carbon := 3 # 2 |}
  end.

(** A task dict: ['id'], ['duration'] (already an int), ['resources']
    (absent = empty) and ['dependencies'] as a list of ids (absent or empty
    = none). *)
Record task := {
  t_id : string;
  t_duration : Z;
  t_resources : list (string * Z);
  t_deps : list string
}.

(** [max(1, int(int(task['duration']) * factor["duration"]))]. *)
Definition adjusted_duration (fa : factors) (d : Z) : Z :=
  Z.max 1 (int_of_Q (inject_Z d * f_duration fa)).

(** One entry of the dict built by [_create_schedule_dict]. *)
Record sched_info := {
  si_start : Z;
  si_resources : list (string * Z);
  si_duration : Z
}.

Definition schedule := pydict sched_info.

(** [_create_schedule_dict]: [individual[i]] raises when the individual is
    shorter than the task list. *)
Fixpoint create_schedule_aux (fa : factors) (tasks : list task) (ind : list Z)
    (acc : schedule) : option schedule :=
  match tasks with
  | [] => Some acc
  | t :: ts =>
      match ind with
      | [] => None
      | s :: ind' =>
          create_schedule_aux fa ts ind'
            (dict_set (t_id t)
               {| si_start := s; si_resources := t_resources t;
                  si_duration := adjusted_duration fa (t_duration t) |} acc)
      end
  end.

Definition create_schedule_dict (m : mode) (tasks : list task) (ind : list Z)
    : option schedule :=
  create_schedule_aux (adjustment_factors m) tasks ind [].

(** [_extract_resource_types]: the distinct resource names of all tasks
    (Python builds a set; its iteration order is not modelled). *)
Definition add_unique (acc : list string) (r : string) : list string :=
  if existsb (String.eqb r) acc then acc else acc ++ [r].

Definition extract_resource_types (tasks : list task) : list string :=
  fold_left (fun acc t => fold_left add_unique (map fst (t_resources t)) acc)
    tasks [].

(* ------------------------------------------------------------------ *)
(** ** The daily resource ledger ([_calculate_daily_resource_usage]) *)

Record day_entry := {
  de_resources : gmap string Z;
  de_cost : gmap string Q;
  de_carbon : gmap string Q
}.

Abbreviation ledger := (gmap Z day_entry) (only parsing).

(** [{rt: 0 for rt in self.resource_types}]. *)
Fixpoint zeros {A} (z : A) (rts : list string) : gmap string A :=
  match rts with
  | [] => ∅
  | rt :: rts' => <[rt := z]> (zeros z rts')
  end.

Definition empty_entry (rts : list string) : day_entry :=
  {| de_resources := zeros 0 rts; de_cost := zeros 0%Q rts;
     de_carbon := zeros 0%Q rts |}.

(** The rate class of a resource name, by case-insensitive substring. *)
Definition base_rates (res_type : string) : Z * Z :=
  let l := lower res_type in
  if contains "crane" l then (1000, 50)
  else if contains "worker" l || contains "team" l || contains "labor" l
  then (100, 5)
  else (200, 10).

(** [d[k] += v] on an inner dict whose key is known to be present. *)
Definition bump {A} (plus : A -> A -> A) (k : string) (v : A)
    (m : gmap string A) : gmap string A :=
  match m !! k with
  | Some x => <[k := plus x v]> m
  | None => m
  end.

(** The body of the innermost loop, for one [(res_type, quantity)]. *)
Definition add_resource (rts : list string) (fa : factors) (day : Z)
    (L : ledger) (rq : string * Z) : ledger :=
  let '(rt, q) := rq in
  if existsb (String.eqb rt) rts then
    match L !! day with
    | Some e =>
        let '(bc, bcb) := base_rates rt in
        <[day := {| de_resources := bump Z.add rt q (de_resources e);
                    de_cost := bump Qplus rt (inject_Z (q * bc) * f_cost fa)%Q
                                 (de_cost e);
                    de_carbon := bump Qplus rt (inject_Z (q * bcb) * f_carbon fa)%Q
                                   (de_carbon e) |}]> L
    | None => L
    end
  else L.

(** [if day not in daily_usage: daily_usage[day] = {...}]. *)
Definition touch_day (rts : list string) (day : Z) (L : ledger) : ledger :=
  match L !! day with
  | Some _ => L
  | None => <[day := empty_entry rts]> L
  end.

Definition process_day (rts : list string) (fa : factors)
    (res : list (string * Z)) (L : ledger) (day : Z) : ledger :=
  fold_left (add_resource rts fa day) res (touch_day rts day L).

Definition process_task (rts : list string) (fa : factors) (L : ledger)
    (it : string * sched_info) : ledger :=
  let info := snd it in
  fold_left (process_day rts fa (si_resources info))
    (zrange (si_start info) (si_start info + si_duration info)) L.

Definition calculate_daily_resource_usage (rts : list string)
    (sch : schedule) (fa : factors) : ledger :=
  fold_left (process_task rts fa) sch ∅.

(** [sum(c for day in daily.values() for c in day['cost'].values())]. *)
Definition sum_gmap_Q (m : gmap string Q) : Q :=
  map_fold (fun _ c acc => acc + c)%Q 0%Q m.

Definition ledger_total_cost (L : ledger) : Q :=
  map_fold (fun _ e acc => acc + sum_gmap_Q (de_cost e))%Q 0%Q L.

Definition ledger_total_carbon (L : ledger) : Q :=
  map_fold (fun _ e acc => acc + sum_gmap_Q (de_carbon e))%Q 0%Q L.

(* ------------------------------------------------------------------ *)
(** ** The fitness evaluator ([_evaluate_schedule]) *)

(** The constructor arguments of [GeneticAlgorithmScheduler]. *)
Record ga_config := {
  cfg_tasks : list task;
  population_size : Z;
  generations : Z;
  mutation_rate : Q;
  max_cost : option Q;
  cfg_mode : mode
}.

Definition resource_types (cfg : ga_config) : list string :=
  extract_resource_types (cfg_tasks cfg).

(** [end_times] and [max(end_times) if end_times else 0] of the
    evaluator: each task's start looked up by id, plus its adjusted
    duration. *)
Definition schedule_makespan (fa : factors) (tasks : list task)
    (sch : schedule) : option Z :=
  end_times ← mapM (fun t =>
      info ← dict_get (t_id t) sch;
      Some (si_start info + adjusted_duration fa (t_duration t))) tasks;
  match end_times with
  | [] => Some 0
  | _ => max_list end_times
  end.

(** The cost-ceiling rule of the evaluator, applied to the unpenalised
    (duration, cost, carbon). *)
Definition apply_cost_limit (mc : option Q) (m : mode) (duration cost carbon : Q)
    : Q * Q * Q :=
  match mc with
  | Some limit =>
      if negb (Qle_bool cost limit) then
        match m with
        | performance => (duration, cost, carbon)
        | _ => ((3 # 2) * duration, (3 # 2) * cost, carbon)%Q
        end
      else (duration, cost, carbon)
  | None => (duration, cost, carbon)
  end.

Definition evaluate_schedule (cfg : ga_config) (ind : list Z)
    : option (Q * Q * Q) :=
  sch ← create_schedule_dict (cfg_mode cfg) (cfg_tasks cfg) ind;
  let fa := adjustment_factors (cfg_mode cfg) in
  duration ← schedule_makespan fa (cfg_tasks cfg) sch;
  let L := calculate_daily_resource_usage (resource_types cfg) sch fa in
  Some (apply_cost_limit (max_cost cfg) (cfg_mode cfg) (inject_Z duration)
          (ledger_total_cost L) (ledger_total_carbon L)).

(* ------------------------------------------------------------------ *)
(** ** Sample inputs *)

Module Sample.

(** A crane task and a crane-and-workers task that depends on it. *)
Definition tA : task :=
  {| t_id := "A"; t_duration := 2; t_resources := [("Crane", 1)]; t_deps := [] |}.
Definition tB : task :=
  {| t_id := "B"; t_duration := 3;
     t_resources := [("Crane", 1); ("Workers", 2)]; t_deps := ["A"] |}.

Definition cfg_eco : ga_config :=
  {| cfg_tasks := [tA; tB]; population_size := 10; generations := 5;
     mutation_rate := 1 # 10; max_cost := Some 100%Q; cfg_mode := eco |}.

Definition ind01 : list Z := [0; 1].

Definition sch01 : schedule :=
  match create_schedule_dict eco [tA; tB] ind01 with Some s => s | None => [] end.

End Sample.

(* ------------------------------------------------------------------ *)
(** ** Reading the ledger: sums and day blocks *)

Fixpoint zsum {A} (f : A -> Z) (l : list A) : Z :=
  match l with [] => 0 | x :: l' => f x + zsum f l' end.

Fixpoint qsum {A} (f : A -> Q) (l : list A) : Q :=
  match l with [] => 0%Q | x :: l' => (f x + qsum f l')%Q end.

(** A task of the schedule is active on [d] when
    [start <= d < start + duration]. *)
Definition task_active (info : sched_info) (d : Z) : bool :=
  (si_start info <=? d) && (d <? si_start info + si_duration info).

(** The rate table as the specification states it: a case-insensitive
    match on "crane" first, then on "worker", "team" or "labor". *)
Definition claimed_rates (res_type : string) : Z * Z :=
  if contains "crane" (lower res_type) then (1000, 50)
  else if contains "worker" (lower res_type) || contains "team" (lower res_type)
          || contains "labor" (lower res_type) then (100, 5)
  else (200, 10).

(** What the specification says a ledger cell holds: for resource type [r]
    on day [d], over every task active on [d] and every requirement
    [(r, q)] of it, the raw quantity, and [q] times the base rate times the
    mode multiplier. *)
Definition claimed_day_qty (sch : schedule) (d : Z) (r : string) : Z :=
  zsum (fun it => if task_active (snd it) d then
           zsum (fun rq => if String.eqb (fst rq) r then snd rq else 0)
             (si_resources (snd it))
         else 0) sch.

Definition claimed_day_cost (fa : factors) (sch : schedule) (d : Z) (r : string) : Q :=
  qsum (fun it => if task_active (snd it) d then
           qsum (fun rq => if String.eqb (fst rq) r then
                   inject_Z (snd rq) * (inject_Z (fst (claimed_rates r)) * f_cost fa)
                 else 0)%Q
             (si_resources (snd it))
         else 0%Q) sch.

Definition claimed_day_carbon (fa : factors) (sch : schedule) (d : Z) (r : string) : Q :=
  qsum (fun it => if task_active (snd it) d then
           qsum (fun rq => if String.eqb (fst rq) r then
                   inject_Z (snd rq) * (inject_Z (snd (claimed_rates r)) * f_carbon fa)
                 else 0)%Q
             (si_resources (snd it))
         else 0%Q) sch.

(** The ledger's loops flattened: one block per (task, active day), holding
    that day and the task's resource requirements, in loop order. *)
Definition day_blocks (sch : schedule) : list (Z * list (string * Z)) :=
  flat_map (fun it =>
      map (fun d => (d, si_resources (snd it)))
        (zrange (si_start (snd it)) (si_start (snd it) + si_duration (snd it))))
    sch.

Definition block_step (rts : list string) (fa : factors) (L : ledger)
    (b : Z * list (string * Z)) : ledger :=
  process_day rts fa (snd b) L (fst b).

(** Per-block contributions to one cell. *)
Definition res_qty (r : string) (res : list (string * Z)) : Z :=
  zsum (fun rq => if String.eqb (fst rq) r then snd rq else 0) res.

Definition res_cost (fa : factors) (r : string) (res : list (string * Z)) : Q :=
  qsum (fun rq => if String.eqb (fst rq) r then
          inject_Z (snd rq * fst (base_rates (fst rq))) * f_cost fa else 0)%Q res.

Definition res_carbon (fa : factors) (r : string) (res : list (string * Z)) : Q :=
  qsum (fun rq => if String.eqb (fst rq) r then
          inject_Z (snd rq * snd (base_rates (fst rq))) * f_carbon fa else 0)%Q res.

(* ------------------------------------------------------------------ *)
(** ** Random draws: a state-and-error monad over a stream of draws *)

Definition M (A : Type) : Type := (nat -> Z) -> nat -> option (A * nat).

Definition ret {A} (x : A) : M A := fun _ n => Some (x, n).

Definition bindM {A B} (m : M A) (k : A -> M B) : M B :=
  fun s n => match m s n with Some (x, n') => k x s n' | None => None end.

(** An exception. *)
Definition raise {A} : M A := fun _ _ => None.

Definition lift {A} (o : option A) : M A :=
  match o with Some x => ret x | None => raise end.

Notation "x <-- m ;; k" := (bindM m (fun x => k))
  (at level 100, m at next level, right associativity).

(** One value of the generator. *)
Definition draw : M Z := fun s n => Some (s n, S n).

(** [random.randint(a, b)]: raises [ValueError] on an empty range. *)
Definition randint (a b : Z) : M Z :=
  if b <? a then raise else (z <-- draw ;; ret (a + z mod (b - a + 1))).

(** The [random.random()] reading of a draw: a multiple of 2^-53 in [0, 1). *)
Definition unit_of (z : Z) : Q := Qmake (z mod 2 ^ 53) (2 ^ 53)%positive.

(** [random.random()]. *)
Definition random_unit : M Q :=
  z <-- draw ;; ret (unit_of z).

(** [x < y] on floats. *)
Definition Qltb (x y : Q) : bool := negb (Qle_bool y x).

Fixpoint foldM {A B} (f : A -> B -> M A) (l : list B) (a : A) : M A :=
  match l with
  | [] => ret a
  | x :: l' => bindM (f a x) (foldM f l')
  end.

Fixpoint repeatM {A} (n : nat) (m : M A) : M (list A) :=
  match n with
  | O => ret []
  | S n' => x <-- m ;; xs <-- repeatM n' m ;; ret (x :: xs)
  end.

Fixpoint mapMM {A B} (f : A -> M B) (l : list A) : M (list B) :=
  match l with
  | [] => ret []
  | x :: l' => y <-- f x ;; ys <-- mapMM f l' ;; ret (y :: ys)
  end.

(* ------------------------------------------------------------------ *)
(** ** The genetic operators *)

Definition task_ids (cfg : ga_config) : list string := map t_id (cfg_tasks cfg).

(** [individual[self.task_ids.index(dep)] + int(self.tasks[...]['duration'])]. *)
Definition dep_end (cfg : ga_config) (ind : list Z) (dep : string) : option Z :=
  j ← index_of dep (task_ids cfg);
  g ← ind !! j;
  t ← cfg_tasks cfg !! j;
  Some (g + t_duration t).

(** [min_start] of [_mutate_individual]. *)
Definition min_start_of (cfg : ga_config) (ind : list Z) (t : task) : option Z :=
  match t_deps t with
  | [] => Some 0
  | deps => ends ← mapM (dep_end cfg ind) deps; max_list ends
  end.

(** One iteration of the loop of [_mutate_individual], on index [i]. *)
Definition mutate_gene (cfg : ga_config) (indpb : Q) (ind : list Z) (i : nat)
    : M (list Z) :=
  r <-- random_unit ;;
  if Qltb r indpb then
    t <-- lift (cfg_tasks cfg !! i) ;;
    lo <-- lift (min_start_of cfg ind t) ;;
    v <-- randint lo (lo + t_duration t * 2) ;;
    ret (<[i := v]> ind)
  else ret ind.

Definition mutate_individual (cfg : ga_config) (indpb : Q) (ind : list Z)
    : M (list Z) :=
  foldM (mutate_gene cfg indpb) (seq 0 (length ind)) ind.

(** [ind[a:b]]. *)
Definition slice (l : list Z) (a b : nat) : list Z := firstn (b - a) (skipn a l).

(** DEAP's [tools.cxTwoPoint], registered as the [mate] operator. *)
Definition cx_two_point (ind1 ind2 : list Z) : M (list Z * list Z) :=
  let size := Z.of_nat (Nat.min (length ind1) (length ind2)) in
  c1 <-- randint 1 size ;;
  c2 <-- randint 1 (size - 1) ;;
  let '(p1, p2) := if c1 <=? c2 then (c1, c2 + 1) else (c2, c1) in
  let a := Z.to_nat p1 in
  let b := Z.to_nat p2 in
  ret (firstn a ind1 ++ slice ind2 a b ++ skipn b ind1,
       firstn a ind2 ++ slice ind1 a b ++ skipn b ind2).

(* ------------------------------------------------------------------ *)
(** ** The evolutionary loop (DEAP's [eaSimple] with this toolbox) *)

(** An individual: its genes (start days) and its fitness values, absent
    while invalid. *)
Record individual := { genes : list Z; fitness : option (Q * Q * Q) }.

Definition fresh (g : list Z) : individual := {| genes := g; fitness := None |}.

(** The crossover pass of [varAnd] over consecutive pairs, with [cxpb]. *)
Fixpoint cx_pairs (cxpb : Q) (offs : list individual) : M (list individual) :=
  match offs with
  | a :: b :: rest =>
      r <-- random_unit ;;
      if Qltb r cxpb then
        p <-- cx_two_point (genes a) (genes b) ;;
        rest' <-- cx_pairs cxpb rest ;;
        ret (fresh (fst p) :: fresh (snd p) :: rest')
      else
        rest' <-- cx_pairs cxpb rest ;;
        ret (a :: b :: rest')
  | _ => ret offs
  end.

(** The mutation pass of [varAnd], with [mutpb]; the operator is
    [_mutate_individual] with [indpb = mutation_rate]. *)
Fixpoint mut_all (cfg : ga_config) (mutpb : Q) (offs : list individual)
    : M (list individual) :=
  match offs with
  | [] => ret []
  | x :: rest =>
      r <-- random_unit ;;
      x' <-- (if Qltb r mutpb then
                g <-- mutate_individual cfg (mutation_rate cfg) (genes x) ;;
                ret (fresh g)
              else ret x) ;;
      rest' <-- mut_all cfg mutpb rest ;;
      ret (x' :: rest')
  end.

(** [varAnd(offspring, toolbox, cxpb=0.7, mutpb=self.mutation_rate)]. *)
Definition var_and (cfg : ga_config) (offs : list individual) : M (list individual) :=
  o <-- cx_pairs (7 # 10) offs ;;
  mut_all cfg (mutation_rate cfg) o.

(** Evaluate the individuals whose fitness is invalid. *)
Definition evaluate_invalid (cfg : ga_config) (pop : list individual)
    : M (list individual) :=
  mapMM (fun x =>
      match fitness x with
      | Some _ => ret x
      | None => f <-- lift (evaluate_schedule cfg (genes x)) ;;
                ret {| genes := genes x; fitness := Some f |}
      end) pop.

(** [stats.compile(population)]: [np.min] of an empty population raises. *)
Definition stats_compile (pop : list individual) : M unit :=
  match pop with [] => raise | _ => ret tt end.

(** The selection operator, [tools.selNSGA2], is DEAP's and is kept
    abstract: a function of the population and the number to select. *)
Definition selector := list individual -> nat -> list individual.

(** The generation loop of [eaSimple]: [for gen in range(1, ngen + 1)]. *)
Fixpoint generations_loop (cfg : ga_config) (select : selector) (k : nat)
    (pop : list individual) : M (list individual) :=
  match k with
  | O => ret pop
  | S k' =>
      offs <-- var_and cfg (select pop (length pop)) ;;
      offs' <-- evaluate_invalid cfg offs ;;
      _ <-- stats_compile offs' ;;
      generations_loop cfg select k' offs'
  end.

Definition ea_simple (cfg : ga_config) (select : selector) (pop : list individual)
    : M (list individual) :=
  pop' <-- evaluate_invalid cfg pop ;;
  _ <-- stats_compile pop' ;;
  generations_loop cfg select (Z.to_nat (generations cfg)) pop'.

(** [max_duration] and the [population] initialiser of the toolbox. *)
Definition max_duration (cfg : ga_config) : Z := zsum t_duration (cfg_tasks cfg).

Definition init_population (cfg : ga_config) : M (list individual) :=
  repeatM (Z.to_nat (population_size cfg))
    (g <-- repeatM (length (cfg_tasks cfg)) (randint 0 (max_duration cfg)) ;;
     ret (fresh g)).

(** [FitnessMulti] weights of the mode. *)
Definition weights (m : mode) : Q * Q * Q :=
  match m with
  | eco => (- (1 # 2), -1, -1)%Q
  | performance => (-1, - (1 # 2), - (1 # 2))%Q
  | standard => (-1, -1, -1)%Q
  end.

(** [fitness.wvalues]: empty while the fitness is invalid. *)
Definition wvalues (m : mode) (x : individual) : list Q :=
  match fitness x with
  | Some (a, b, c) =>
      let '(wa, wb, wc) := weights m in [(a * wa)%Q; (b * wb)%Q; (c * wc)%Q]
  | None => []
  end.

(** Lexicographic [<] on tuples of floats. *)
Fixpoint lex_lt (xs ys : list Q) : bool :=
  match xs, ys with
  | [], [] => false
  | [], _ :: _ => true
  | _ :: _, [] => false
  | x :: xs', y :: ys' =>
      if Qltb x y then true else if Qltb y x then false else lex_lt xs' ys'
  end.

(** [tools.selBest(pop, k=1)[0]]: the first individual of greatest fitness
    (a stable sort in decreasing order); [IndexError] on an empty list. *)
Definition sel_best (m : mode) (pop : list individual) : option individual :=
  match pop with
  | [] => None
  | x :: rest =>
      Some (fold_left (fun best y => if lex_lt (wvalues m best) (wvalues m y)
                                     then y else best) rest x)
  end.

(* ------------------------------------------------------------------ *)
(** ** The result of [optimize] *)

Record sched_item := {
  item_task : string;
  item_start : Z;
  item_end : Z;
  item_duration : Z;
  item_resources : list string;
  item_cost : Q;
  item_carbon : Q
}.

Record opt_result := {
  res_schedule : list sched_item;
  total_cost : Q;
  total_duration : Z;
  carbon_footprint : Q;
  resource_utilization : list (string * Q);
  res_mode : mode
}.

(** [daily_resources.get(day, {}).get('cost', {}).get(res_type, 0)]. *)
Definition cell_cost (L : ledger) (day : Z) (rt : string) : Q :=
  match L !! day with
  | Some e => match de_cost e !! rt with Some c => c | None => 0%Q end
  | None => 0%Q
  end.

Definition cell_carbon (L : ledger) (day : Z) (rt : string) : Q :=
  match L !! day with
  | Some e => match de_carbon e !! rt with Some c => c | None => 0%Q end
  | None => 0%Q
  end.

(** [max(daily_resources.keys()) if daily_resources else 0]. *)
Definition ledger_max_day (L : ledger) : Z :=
  match map_fold (fun k _ acc => match acc with
                                 | None => Some k
                                 | Some m => Some (Z.max m k)
                                 end) None L with
  | Some m => m
  | None => 0
  end.

(** [daily_resources[day]['resources'][res_type] > 0] for a day present. *)
Definition day_uses (L : ledger) (rt : string) (day : Z) : bool :=
  match L !! day with
  | Some e => match de_resources e !! rt with Some q => 0 <? q | None => false end
  | None => false
  end.

(** The utilization of one resource type. *)
Definition utilization (L : ledger) (rt : string) : Q :=
  let max_day := ledger_max_day L in
  let active_days := Z.of_nat (length (List.filter (day_uses L rt)
                                          (zrange 0 (max_day + 1)))) in
  if 0 <? max_day then (inject_Z active_days / inject_Z (max_day + 1) * 100)%Q
  else 0%Q.

(** One entry of [schedule_items]. *)
Definition schedule_item (L : ledger) (t : task) (info : sched_info) : sched_item :=
  let days := zrange (si_start info) (si_start info + si_duration info) in
  let rts := map fst (t_resources t) in
  {| item_task := t_id t;
     item_start := si_start info;
     item_end := si_start info + si_duration info;
     item_duration := si_duration info;
     item_resources := rts;
     item_cost := qsum (fun rt => qsum (fun day => cell_cost L day rt) days) rts;
     item_carbon := qsum (fun rt => qsum (fun day => cell_carbon L day rt) days) rts |}.

(** The part of [optimize] after [best_individual] has been chosen. *)
Definition final_result (cfg : ga_config) (best : list Z) : option opt_result :=
  let fa := adjustment_factors (cfg_mode cfg) in
  best_schedule ← create_schedule_dict (cfg_mode cfg) (cfg_tasks cfg) best;
  end_times ← mapM (fun t => info ← dict_get (t_id t) best_schedule;
                             Some (si_start info + si_duration info)) (cfg_tasks cfg);
  total_duration ← (match end_times with [] => Some 0 | _ => max_list end_times end);
  let L := calculate_daily_resource_usage (resource_types cfg) best_schedule fa in
  items ← mapM (fun t => info ← dict_get (t_id t) best_schedule;
                         Some (schedule_item L t info)) (cfg_tasks cfg);
  Some {| res_schedule := sort_by item_start items;
          total_cost := ledger_total_cost L;
          total_duration := total_duration;
          carbon_footprint := ledger_total_carbon L;
          resource_utilization :=
            map (fun rt => (rt, utilization L rt)) (resource_types cfg);
          res_mode := cfg_mode cfg |}.

(** [GeneticAlgorithmScheduler.optimize]. *)
Definition optimize (cfg : ga_config) (select : selector) : M opt_result :=
  pop <-- init_population cfg ;;
  pop' <-- ea_simple cfg select pop ;;
  best <-- lift (sel_best (cfg_mode cfg) pop') ;;
  lift (final_result cfg (genes best)).

(** What DEAP's [selNSGA2(pop, len(pop))], as [eaSimple] calls it, is
    assumed to satisfy: it returns [len(pop)] individuals, each taken from
    the population. *)
Definition selects_from (select : selector) : Prop :=
  forall pop, length (select pop (length pop)) = length pop /\
              (forall x, In x (select pop (length pop)) -> In x pop).

Module Scenario.

(** The task set of the specification's scenario: A (2 days), B (3 days,
    after A), C (1 day, after A and B), in standard mode. *)
Definition tA : task :=
  {| t_id := "A"; t_duration := 2; t_resources := []; t_deps := [] |}.
Definition tB : task :=
  {| t_id := "B"; t_duration := 3; t_resources := []; t_deps := ["A"] |}.
Definition tC : task :=
  {| t_id := "C"; t_duration := 1; t_resources := []; t_deps := ["A"; "B"] |}.

Definition cfg_abc : ga_config :=
  {| cfg_tasks := [tA; tB; tC]; population_size := 10; generations := 5;
     mutation_rate := 1 # 10; max_cost := None; cfg_mode := standard |}.

(** The same run configured with [generations = 0]. *)
Definition cfg_abc_gen0 : ga_config :=
  {| cfg_tasks := [tA; tB; tC]; population_size := 10; generations := 0;
     mutation_rate := 1 # 10; max_cost := None; cfg_mode := standard |}.

(** A generator value [z0] with [z0 mod 7 = 0] whose [random()] reading,
    [z0 mod 2^53 / 2^53], is above 0.99: every gene [randint(0, 6)] of the
    initial population is 0 and no crossover or mutation fires.  [z0 - 6]
    reads the same way but gives genes 1. *)
Definition z0 : Z := 7 * ((2 ^ 53 - 1) / 7).

Definition all_zero_draws : nat -> Z := fun _ => z0.
Definition all_one_draws : nat -> Z := fun _ => z0 - 6.

(** A selection operator that keeps the population as it is. *)
Definition keep_select : selector := fun pop k => firstn k pop.

End Scenario.

(* ------------------------------------------------------------------ *)
(** ** Runs that read the same draws *)

(** A random computation whose outcome depends only on the draws it
    consumes: a run that returns after reading positions [n .. n'-1]
    returns the same on any stream that agrees with this one there, and
    its counter never moves backwards. *)
Definition reads_only_consumed {A} (m : M A) : Prop :=
  forall s1 s2 n x n',
    m s1 n = Some (x, n') ->
    (n <= n')%nat /\
    ((forall i, (n <= i < n')%nat -> s1 i = s2 i) -> m s2 n = Some (x, n')).

(* ------------------------------------------------------------------ *)
(** ** [resource_optimizer.ResourceOptimizer.optimize_schedule] *)

Module RO.

(** A task as [parse_txt_input] stores it: [name], [duration] and
    [required_resources]. *)
Record ro_task := {
  ro_name : string;
  ro_duration : Z;
  ro_required : list string
}.

(** The optimizer's state after parsing: [self.tasks], [self.resources],
    [self.dependencies], [self.resource_costs], [self.resource_carbon] and
    [self.mode]. *)
Record optimizer := {
  ro_tasks : list ro_task;
  ro_resources : list string;
  ro_dependencies : pydict (list string);
  ro_resource_costs : pydict Q;
  ro_resource_carbon : pydict Q;
  ro_mode : mode
}.

(** [self.dependencies.get(task_name, [])]. *)
Definition deps_of (o : optimizer) (name : string) : list string :=
  match dict_get name (ro_dependencies o) with Some l => l | None => [] end.

(** The sets [visited], [temp_visited] and the list [order] of the
    depth-first search. *)
Record dfs_state := {
  visited : list string;
  temp_visited : list string;
  order : list string
}.

Definition mem (x : string) (l : list string) : bool := existsb (String.eqb x) l.

(** [visit(task_name)]; the circular-dependency [ValueError] is [None].  The
    recursion is bounded by [fuel], which [topological_order] sets above
    the number of names the search can meet. *)
Fixpoint visit (o : optimizer) (fuel : nat) (name : string) (st : dfs_state)
    : option dfs_state :=
  match fuel with
  | O => None
  | S fuel' =>
      if mem name (temp_visited st) then None
      else if mem name (visited st) then Some st
      else
        st1 ← fold_left (fun acc d => acc ≫= visit o fuel' d) (deps_of o name)
                (Some {| visited := visited st;
                         temp_visited := name :: temp_visited st;
                         order := order st |});
        Some {| visited := name :: visited st1;
                temp_visited := remove string_dec name (temp_visited st1);
                order := order st1 ++ [name] |}
  end.

Definition search_fuel (o : optimizer) : nat :=
  S (length (ro_tasks o) +
     fold_right (fun kv acc => length (snd kv) + acc)%nat 0%nat (ro_dependencies o)).

(** The loop over [self.tasks] and [order.reverse()]. *)
Definition topological_order (o : optimizer) : option (list string) :=
  st ← fold_left (fun acc t =>
          acc ≫= fun st =>
            if mem (ro_name t) (visited st) then Some st
            else visit o (search_fuel o) (ro_name t) st)
         (ro_tasks o) (Some {| visited := []; temp_visited := []; order := [] |});
  Some (rev (order st)).

(** [task_dict = {task["name"]: task for task in self.tasks}]. *)
Definition task_dict (o : optimizer) : pydict ro_task :=
  fold_left (fun d t => dict_set (ro_name t) t d) (ro_tasks o) [].

(** A left fold that stops at the first exception. *)
Fixpoint fold_opt {A B} (f : A -> B -> option A) (l : list B) (a : A) : option A :=
  match l with
  | [] => Some a
  | x :: l' => a' ← f a x; fold_opt f l' a'
  end.

(** One update [earliest_start[task_name] = max(earliest_start[task_name],
    earliest_start[dep] + task_dict[dep]["duration"])]. *)
Definition es_update (o : optimizer) (name : string) (es : pydict Z) (dep : string)
    : option (pydict Z) :=
  cur ← dict_get name es;
  e ← dict_get dep es;
  t ← dict_get dep (task_dict o);
  Some (dict_set name (Z.max cur (e + ro_duration t)) es).

(** The [earliest_start] dict computed over [order]. *)
Definition ro_earliest_start (o : optimizer) (ord : list string) : option (pydict Z) :=
  let es0 := fold_left (fun d n => dict_set n 0 d) ord [] in
  fold_opt (fun es name => fold_opt (es_update o name) (deps_of o name) es) ord es0.

(** [earliest_start] as [optimize_schedule] computes it. *)
Definition start_times (o : optimizer) : option (pydict Z) :=
  ord ← topological_order o;
  ro_earliest_start o ord.

(** [timeline[t] += 1] under the guard [t < len(timeline)], with Python's
    reading of a negative index. *)
Definition incr_at (tl : list Z) (t : Z) : option (list Z) :=
  let len := Z.of_nat (length tl) in
  if t <? len then
    if 0 <=? t then Some (alter (Z.add 1) (Z.to_nat t) tl)
    else if - len <=? t then Some (alter (Z.add 1) (Z.to_nat (len + t)) tl)
    else None
  else Some tl.

Record ro_item := {
  ri_task : string;
  ri_start : Z;
  ri_end : Z;
  ri_duration : Z;
  ri_resources : list string;
  ri_cost : Q;
  ri_carbon : Q
}.

Record ro_result := {
  ro_schedule : list ro_item;
  ro_total_cost : Q;
  ro_total_duration : Z;
  ro_carbon_footprint : Q;
  ro_resource_utilization : pydict Q;
  ro_result_mode : mode
}.

(** The loop state of the scheduling pass: the timelines, the schedule and
    the running totals. *)
Record pass_state := {
  ps_timeline : pydict (list Z);
  ps_schedule : list ro_item;
  ps_cost : Q;
  ps_carbon : Q
}.

Definition sum_opt (f : string -> option Q) (l : list string) : option Q :=
  fold_opt (fun acc r => v ← f r; Some (acc + v)%Q) l 0%Q.

(** One iteration of [for task_name in order]. *)
Definition schedule_task (o : optimizer) (es : pydict Z) (ps : pass_state)
    (name : string) : option pass_state :=
  let fa := adjustment_factors (ro_mode o) in
  task ← dict_get name (task_dict o);
  start_time ← dict_get name es;
  let adj := adjusted_duration fa (ro_duration task) in
  let end_time := start_time + adj in
  task_cost ← sum_opt (fun r => c ← dict_get r (ro_resource_costs o);
                                 Some (c * f_cost fa * inject_Z adj)%Q)
                (ro_required task);
  task_carbon ← sum_opt (fun r => c ← dict_get r (ro_resource_carbon o);
                                   Some (c * f_carbon fa * inject_Z adj)%Q)
                  (ro_required task);
  tl ← fold_opt (fun tl r =>
          line ← dict_get r tl;
          line' ← fold_opt incr_at (zrange start_time end_time) line;
          Some (dict_set r line' tl)) (ro_required task) (ps_timeline ps);
  Some {| ps_timeline := tl;
          ps_schedule := ps_schedule ps ++
            [{| ri_task := name; ri_start := start_time; ri_end := end_time;
                ri_duration := adj; ri_resources := ro_required task;
                ri_cost := task_cost; ri_carbon := task_carbon |}];
          ps_cost := (ps_cost ps + task_cost)%Q;
          ps_carbon := (ps_carbon ps + task_carbon)%Q |}.

(** [optimize_schedule]. *)
Definition optimize_schedule (o : optimizer) : option ro_result :=
  ord ← topological_order o;
  es ← ro_earliest_start o ord;
  ends ← mapM (fun n => s ← dict_get n es; t ← dict_get n (task_dict o);
                        Some (s + ro_duration t)) ord;
  max_end_time ← max_list ends;
  let timeline0 := fold_left (fun d r => dict_set r (repeat 0 (Z.to_nat (max_end_time + 1))) d)
                     (ro_resources o) [] in
  ps ← fold_opt (schedule_task o es)
         ord {| ps_timeline := timeline0; ps_schedule := []; ps_cost := 0; ps_carbon := 0 |};
  util ← fold_opt (fun u r =>
            line ← dict_get r (ps_timeline ps);
            let active := Z.of_nat (length (List.filter (fun x => 0 <? x) line)) in
            let v := if 0 <? max_end_time
                     then (inject_Z active / inject_Z max_end_time * 100)%Q
                     else 0%Q in
            Some (dict_set r v u)) (ro_resources o) [];
  let sched := sort_by ri_start (ps_schedule ps) in
  total_duration ← (match sched with
                    | [] => Some 0
                    | _ => max_list (map ri_end sched)
                    end);
  Some {| ro_schedule := sched;
          ro_total_cost := ps_cost ps;
          ro_total_duration := total_duration;
          ro_carbon_footprint := ps_carbon ps;
          ro_resource_utilization := util;
          ro_result_mode := ro_mode o |}.

(** Sample inputs. *)
Definition frame : ro_task :=
  {| ro_name := "Frame"; ro_duration := 10; ro_required := ["Crane"] |}.

Definition eco_frame : optimizer :=
  {| ro_tasks := [frame]; ro_resources := ["Crane"]; ro_dependencies := [];
     ro_resource_costs := [("Crane", 1000%Q)]; ro_resource_carbon := [("Crane", 50%Q)];
     ro_mode := eco |}.

Definition abc : optimizer :=
  {| ro_tasks := [{| ro_name := "A"; ro_duration := 2; ro_required := [] |};
                  {| ro_name := "B"; ro_duration := 3; ro_required := [] |};
                  {| ro_name := "C"; ro_duration := 1; ro_required := [] |}];
     ro_resources := []; ro_dependencies := [("B", ["A"]); ("C", ["A"; "B"])];
     ro_resource_costs := []; ro_resource_carbon := []; ro_mode := standard |}.

End RO.

Module Overlap.

(** Two tasks that both need one crane on days 0 and 1. *)
Definition tP : task :=
  {| t_id := "P"; t_duration := 2; t_resources := [("Crane", 1)]; t_deps := [] |}.
Definition tQ : task :=
  {| t_id := "Q"; t_duration := 2; t_resources := [("Crane", 1)]; t_deps := [] |}.

Definition cfg_pq : ga_config :=
  {| cfg_tasks := [tP; tQ]; population_size := 10; generations := 5;
     mutation_rate := 1 # 10; max_cost := None; cfg_mode := standard |}.

Definition both_at_0 : list Z := [0; 0].

End Overlap.

Module Mutation.

(** Eco mode: [Pour] (10 days) before [Cure] (1 day). *)
Definition tPour : task :=
  {| t_id := "Pour"; t_duration := 10; t_resources := []; t_deps := [] |}.
Definition tCure : task :=
  {| t_id := "Cure"; t_duration := 1; t_resources := []; t_deps := ["Pour"] |}.

Definition cfg_pour : ga_config :=
  {| cfg_tasks := [tPour; tCure]; population_size := 10; generations := 5;
     mutation_rate := 1 # 10; max_cost := None; cfg_mode := eco |}.

(** Draw 0: [random()] above 0.1 (gene 0 kept); draw 1: [random()] = 0
    (gene 1 resampled); draw 2: a multiple of 3, the lowest value of
    [randint(lo, lo + 2)]. *)
Definition draws : nat -> Z :=
  fun i => match i with 0%nat => 2 ^ 52 | 1%nat => 0 | _ => 3 end.

End Mutation.

(* ------------------------------------------------------------------ *)
(** ** Auxiliary definitions for the further properties *)

(** The Python [sum(...)] of a value over every entry of a map, in the
    map's own order: [sum(f(v) for v in d.values())]. *)
Definition gsum {K} `{Countable K} {A} (f : A -> Q) (m : gmap K A) : Q :=
  map_fold (fun _ x acc => acc + f x)%Q 0%Q m.

(** What one day of a task adds to the ledger's ['cost'] cells:
    [quantity_int * base_cost * factor["cost"]] for each listed resource
    type that is in [self.resource_types]. *)
Definition day_cost (rts : list string) (fa : factors) (res : list (string * Z)) : Q :=
  qsum (fun rq => if existsb (String.eqb (fst rq)) rts
                  then inject_Z (snd rq * fst (base_rates (fst rq))) * f_cost fa
                  else 0)%Q res.

(** The same for the ['carbon'] cells. *)
Definition day_carbon (rts : list string) (fa : factors) (res : list (string * Z)) : Q :=
  qsum (fun rq => if existsb (String.eqb (fst rq)) rts
                  then inject_Z (snd rq * snd (base_rates (fst rq))) * f_carbon fa
                  else 0)%Q res.

(** Every day entry of the ledger has a cost and a carbon cell for each
    resource type, as [{rt: 0 for rt in self.resource_types}] creates them. *)
Definition ledger_ok (rts : list string) (L : gmap Z day_entry) : Prop :=
  forall d e, L !! d = Some e -> forall r, In r rts ->
    is_Some (de_cost e !! r) /\ is_Some (de_carbon e !! r).

(** The cost a task adds per active day when all its resources are
    counted. *)
Definition task_day_cost (fa : factors) (t : task) : Q :=
  qsum (fun rq => inject_Z (snd rq * fst (base_rates (fst rq))) * f_cost fa)%Q
    (t_resources t).

(** The carbon a task adds per active day. *)
Definition task_day_carbon (fa : factors) (t : task) : Q :=
  qsum (fun rq => inject_Z (snd rq * snd (base_rates (fst rq))) * f_carbon fa)%Q
    (t_resources t).

(** The entry [task['id']: {'start': individual[i], 'resources': ...,
    'duration': ...}] of [_create_schedule_dict] for one task and its gene. *)
Definition sched_entry (fa : factors) (p : task * Z) : string * sched_info :=
  (t_id (fst p), {| si_start := snd p; si_resources := t_resources (fst p);
                    si_duration := adjusted_duration fa (t_duration (fst p)) |}).

(** Invariant of the depth-first search of [_topological_sort]: every
    visited task has been appended to [order]. *)
Definition dfs_ok (st : RO.dfs_state) : Prop :=
  forall x, In x (RO.visited st) -> In x (RO.order st).

(** The critical-path heuristic of [utils.generate_report]: an item is
    listed unless some later item of the schedule starts after it ends. *)
Fixpoint util_critical_path (sched : list sched_item) : list string :=
  match sched with
  | [] => []
  | task :: rest =>
      if forallb (fun next => negb (item_end task <? item_start next)) rest
      then item_task task :: util_critical_path rest
      else util_critical_path rest
  end.

(** The critical-path heuristic of [ResourceOptimizer.generate_report]: a
    later item only counts when it depends on the item, and then it must not
    start after the item ends. *)
Fixpoint ro_critical_path (o : RO.optimizer) (sched : list RO.ro_item) : list string :=
  match sched with
  | [] => []
  | task :: rest =>
      if forallb (fun next =>
            if forallb (fun dep => negb (String.eqb dep (RO.ri_task task)))
                 (RO.deps_of o (RO.ri_task next))
            then true
            else negb (RO.ri_start next >? RO.ri_end task)) rest
      then RO.ri_task task :: ro_critical_path o rest
      else ro_critical_path o rest
  end.

(** [utils.calculate_carbon_footprint(schedule, resource_carbon)]: the sum of
    the ["carbon"] fields of [schedule["schedule"]], accumulated from [0.0];
    [resource_carbon] is not read.  [carbon] reads an item's field. *)
Definition calculate_carbon_footprint {A} (carbon : A -> Q) (schedule : list A)
    (resource_carbon : pydict Q) : Q :=
  fold_left (fun total_co2 task_info => (total_co2 + carbon task_info)%Q) schedule 0%Q.

(** The same constructor arguments with another [mutation_rate]. *)
Definition with_mutation_rate (cfg : ga_config) (r : Q) : ga_config :=
  {| cfg_tasks := cfg_tasks cfg; population_size := population_size cfg;
     generations := generations cfg; mutation_rate := r;
     max_cost := max_cost cfg; cfg_mode := cfg_mode cfg |}.

(** Two rates that every [random()] reading compares alike. *)
Definition same_draw_test (a b : Q) : Prop :=
  forall z, Qltb (unit_of z) a = Qltb (unit_of z) b.

(* ================================================================== *)
(** * Claims *)

(** C1: with a cost ceiling [max_cost = Some m], the evaluator returns the
    unpenalised makespan and ledger cost multiplied by exactly 1.5 (carbon
    unchanged) when the cost exceeds the ceiling and the mode is not
    [performance]; when the cost is at or below the ceiling, or the mode is
    [performance], it returns the unpenalised triple. *)
Theorem evaluate_schedule_cost_ceiling (cfg : ga_config) (ind : list Z)
    (sch : schedule) (mk : Z) (m : Q) :
  max_cost cfg = Some m ->
  create_schedule_dict (cfg_mode cfg) (cfg_tasks cfg) ind = Some sch ->
  schedule_makespan (adjustment_factors (cfg_mode cfg)) (cfg_tasks cfg) sch
    = Some mk ->
  let L := calculate_daily_resource_usage (resource_types cfg) sch
             (adjustment_factors (cfg_mode cfg)) in
  let cost := ledger_total_cost L in
  let carbon := ledger_total_carbon L in
  ((m < cost)%Q -> cfg_mode cfg <> performance ->
     evaluate_schedule cfg ind
       = Some ((3 # 2) * inject_Z mk, (3 # 2) * cost, carbon)%Q) /\
  ((cost <= m)%Q \/ cfg_mode cfg = performance ->
     evaluate_schedule cfg ind = Some (inject_Z mk, cost, carbon)).
Proof.
  intros Hm Hs Hk L cost carbon.
  unfold evaluate_schedule; rewrite Hs; simpl; rewrite Hk; simpl.
  unfold apply_cost_limit; rewrite Hm.
  fold L cost carbon.
  split.
  - intros Hlt Hperf.
    destruct (Qle_bool cost m) eqn:E.
    + apply Qle_bool_iff in E. exfalso. apply (Qlt_not_le _ _ Hlt E).
    + simpl. destruct (cfg_mode cfg); [reflexivity | reflexivity | congruence].
  - intros [Hle | Hperf].
    + apply Qle_bool_iff in Hle. rewrite Hle. reflexivity.
    + rewrite Hperf. destruct (Qle_bool cost m); reflexivity.
Qed.

Lemma evaluate_schedule_cost_ceiling_witness :
  evaluate_schedule Sample.cfg_eco Sample.ind01
  = Some ((3 # 2) * inject_Z 4,
          (3 # 2) * ledger_total_cost
             (calculate_daily_resource_usage (resource_types Sample.cfg_eco)
                Sample.sch01 (adjustment_factors eco)),
          ledger_total_carbon
             (calculate_daily_resource_usage (resource_types Sample.cfg_eco)
                Sample.sch01 (adjustment_factors eco)))%Q.
Proof.
  destruct (evaluate_schedule_cost_ceiling Sample.cfg_eco Sample.ind01
              Sample.sch01 4 100 eq_refl ltac:(vm_compute; reflexivity)
              ltac:(vm_compute; reflexivity)) as [H _].
  apply H; [vm_compute; reflexivity | discriminate].
Defined.

(* ------------------------------------------------------------------ *)
(** ** Ledger lemmas *)

Lemma fold_left_map_fun {A B C} (f : A -> B -> A) (g : C -> B) (l : list C) (a : A) :
  fold_left f (map g l) a = fold_left (fun acc x => f acc (g x)) l a.
Proof.
  induction l as [|x l IH] in a |- *; [reflexivity|]. simpl. apply IH.
Qed.

(** The ledger is a left fold of [block_step] over the day blocks. *)
Lemma ledger_as_blocks_from rts fa (sch : schedule) (L : ledger) :
  fold_left (process_task rts fa) sch L
  = fold_left (block_step rts fa) (day_blocks sch) L.
Proof.
  induction sch as [|it sch IH] in L |- *; [reflexivity|].
  unfold day_blocks; simpl. rewrite fold_left_app.
  rewrite fold_left_map_fun. apply IH.
Qed.

Lemma ledger_as_blocks rts sch fa :
  calculate_daily_resource_usage rts sch fa
  = fold_left (block_step rts fa) (day_blocks sch) ∅.
Proof. apply ledger_as_blocks_from. Qed.

Lemma zeros_lookup {A} (z : A) (rts : list string) (r : string) :
  In r rts -> zeros z rts !! r = Some z.
Proof.
  induction rts as [|rt rts IH]; simpl; [tauto|].
  intros [<- | Hin].
  - apply lookup_insert_eq.
  - destruct (String.eqb_spec rt r) as [<- | Hne].
    + apply lookup_insert_eq.
    + rewrite lookup_insert_ne by congruence. auto.
Qed.

Lemma bump_lookup {A} (plus : A -> A -> A) (k : string) (v : A)
    (m : gmap string A) (r : string) :
  bump plus k v m !! r
  = if String.eqb k r then option_map (fun x => plus x v) (m !! r) else m !! r.
Proof.
  unfold bump. destruct (String.eqb_spec k r) as [<- | Hne].
  - destruct (m !! k) eqn:E; simpl; [apply lookup_insert_eq | exact E].
  - destruct (m !! k); [|reflexivity]. rewrite lookup_insert_ne by congruence.
    reflexivity.
Qed.

Lemma existsb_eqb_in (r : string) (rts : list string) :
  existsb (String.eqb r) rts = true <-> In r rts.
Proof.
  rewrite existsb_exists. split.
  - intros [x [Hx E]]. apply String.eqb_eq in E. subst. exact Hx.
  - intros H. exists r. split; [exact H | apply String.eqb_refl].
Qed.

(** The inner loop over one task's resources on one day touches only that
    day's entry and adds each requirement to its cell. *)
Lemma add_resources_day rts fa d0 (res : list (string * Z)) (L : ledger) e0 :
  L !! d0 = Some e0 ->
  exists e', fold_left (add_resource rts fa d0) res L = <[d0 := e']> L /\
    forall r, In r rts ->
      (forall x, de_resources e0 !! r = Some x ->
         de_resources e' !! r = Some (x + res_qty r res)) /\
      (forall c, de_cost e0 !! r = Some c -> exists c',
         de_cost e' !! r = Some c' /\ (c' == c + res_cost fa r res)%Q) /\
      (forall c, de_carbon e0 !! r = Some c -> exists c',
         de_carbon e' !! r = Some c' /\ (c' == c + res_carbon fa r res)%Q).
Proof.
  induction res as [|[rt q] res IH] in L, e0 |- *; intros HL.
  - exists e0. split; [symmetry; apply insert_id; exact HL|].
    intros r _. unfold res_qty, res_cost, res_carbon; simpl.
    split; [intros x Hx; rewrite Hx; f_equal; lia|].
    split; intros c Hc; exists c; (split; [exact Hc | ring]).
  - cbn [fold_left]. assert (Hstep : add_resource rts fa d0 L (rt, q) = if existsb (String.eqb rt) rts then match L !! d0 with Some e => let '(bc, bcb) := base_rates rt in <[d0 := {| de_resources := bump Z.add rt q (de_resources e); de_cost := bump Qplus rt (inject_Z (q * bc) * f_cost fa)%Q (de_cost e); de_carbon := bump Qplus rt (inject_Z (q * bcb) * f_carbon fa)%Q (de_carbon e) |}]> L | None => L end else L) by reflexivity.
    rewrite Hstep; clear Hstep.
    destruct (existsb (String.eqb rt) rts) eqn:Ex.
    + rewrite HL. destruct (base_rates rt) as [bc bcb] eqn:Hb. cbv beta iota.
      set (e1 := {| de_resources := bump Z.add rt q (de_resources e0);
                    de_cost := bump Qplus rt (inject_Z (q * bc) * f_cost fa)%Q
                                 (de_cost e0);
                    de_carbon := bump Qplus rt (inject_Z (q * bcb) * f_carbon fa)%Q
                                   (de_carbon e0) |}).
      destruct (IH (<[d0 := e1]> L) e1 (lookup_insert_eq _ _ _))
        as [e' [Heq Hc]].
      exists e'. split; [rewrite Heq; apply insert_insert_eq|].
      intros r Hr. destruct (Hc r Hr) as [H1 [H2 H3]].
      unfold res_qty, res_cost, res_carbon; simpl.
      fold (res_qty r res) (res_cost fa r res) (res_carbon fa r res).
      rewrite Hb; simpl.
      destruct (String.eqb_spec rt r) as [<- | Hne].
      * split; [|split].
        -- intros x Hx. rewrite (H1 (x + q)); [f_equal; lia|].
           simpl. rewrite bump_lookup, String.eqb_refl, Hx. reflexivity.
        -- intros c Hcc.
           destruct (H2 (c + inject_Z (q * bc) * f_cost fa)%Q) as [c' [Hc' Eq]].
           { simpl. rewrite bump_lookup, String.eqb_refl, Hcc. reflexivity. }
           exists c'. split; [exact Hc'|]. rewrite Eq. ring.
        -- intros c Hcc.
           destruct (H3 (c + inject_Z (q * bcb) * f_carbon fa)%Q) as [c' [Hc' Eq]].
           { simpl. rewrite bump_lookup, String.eqb_refl, Hcc. reflexivity. }
           exists c'. split; [exact Hc'|]. rewrite Eq. ring.
      * assert (Hf : String.eqb rt r = false) by (apply String.eqb_neq; exact Hne).
        split; [|split].
        -- intros x Hx. rewrite (H1 x); [f_equal; lia|].
           simpl. rewrite bump_lookup, Hf. exact Hx.
        -- intros c Hcc. destruct (H2 c) as [c' [Hc' Eq]].
           { simpl. rewrite bump_lookup, Hf. exact Hcc. }
           exists c'. split; [exact Hc'|]. rewrite Eq. ring.
        -- intros c Hcc. destruct (H3 c) as [c' [Hc' Eq]].
           { simpl. rewrite bump_lookup, Hf. exact Hcc. }
           exists c'. split; [exact Hc'|]. rewrite Eq. ring.
    + destruct (IH L e0 HL) as [e' [Heq Hc]].
      exists e'. split; [exact Heq|].
      intros r Hr. destruct (Hc r Hr) as [H1 [H2 H3]].
      assert (Hf : String.eqb rt r = false).
      { apply String.eqb_neq. intros <-. apply existsb_eqb_in in Hr. congruence. }
      unfold res_qty, res_cost, res_carbon; simpl. rewrite Hf.
      fold (res_qty r res) (res_cost fa r res) (res_carbon fa r res).
      split; [|split].
      * intros x Hx. rewrite (H1 x Hx). f_equal; lia.
      * intros c Hcc. destruct (H2 c Hcc) as [c' [Hc' Eq]].
        exists c'. split; [exact Hc'|]. rewrite Eq. ring.
      * intros c Hcc. destruct (H3 c Hcc) as [c' [Hc' Eq]].
        exists c'. split; [exact Hc'|]. rewrite Eq. ring.
Qed.

(** Turn boolean integer comparisons in the context into [lia] facts. *)
Ltac zbool :=
  repeat match goal with
         | H : (_ <=? _) = true |- _ => apply Z.leb_le in H
         | H : (_ <=? _) = false |- _ => apply Z.leb_gt in H
         | H : (_ <? _) = true |- _ => apply Z.ltb_lt in H
         | H : (_ <? _) = false |- _ => apply Z.ltb_ge in H
         | H : (_ =? _) = true |- _ => apply Z.eqb_eq in H
         | H : (_ =? _) = false |- _ => apply Z.eqb_neq in H
         end; lia.

Lemma zsum_app {A} (f : A -> Z) (l1 l2 : list A) :
  zsum f (l1 ++ l2) = zsum f l1 + zsum f l2.
Proof. induction l1 as [|x l1 IH]; simpl; [reflexivity | rewrite IH; lia]. Qed.

Lemma qsum_app {A} (f : A -> Q) (l1 l2 : list A) :
  (qsum f (l1 ++ l2) == qsum f l1 + qsum f l2)%Q.
Proof. induction l1 as [|x l1 IH]; simpl; [ring | rewrite IH; ring]. Qed.

Lemma zsum_ext {A} (f g : A -> Z) (l : list A) :
  (forall x, In x l -> f x = g x) -> zsum f l = zsum g l.
Proof.
  induction l as [|x l IH]; simpl; intros H; [reflexivity|].
  rewrite (H x (or_introl eq_refl)), IH; auto.
Qed.

Lemma qsum_ext {A} (f g : A -> Q) (l : list A) :
  (forall x, In x l -> f x == g x)%Q -> (qsum f l == qsum g l)%Q.
Proof.
  induction l as [|x l IH]; simpl; intros H; [reflexivity|].
  rewrite (H x (or_introl eq_refl)), IH; [reflexivity|auto].
Qed.

Lemma zsum_flat_map {A B} (f : B -> Z) (g : A -> list B) (l : list A) :
  zsum f (flat_map g l) = zsum (fun x => zsum f (g x)) l.
Proof. induction l as [|x l IH]; simpl; [reflexivity|]. rewrite zsum_app, IH. reflexivity. Qed.

Lemma qsum_flat_map {A B} (f : B -> Q) (g : A -> list B) (l : list A) :
  (qsum f (flat_map g l) == qsum (fun x => qsum f (g x)) l)%Q.
Proof. induction l as [|x l IH]; simpl; [reflexivity|]. rewrite qsum_app, IH. reflexivity. Qed.

Lemma zsum_map {A B} (f : B -> Z) (g : A -> B) (l : list A) :
  zsum f (map g l) = zsum (fun x => f (g x)) l.
Proof. induction l as [|x l IH]; simpl; [reflexivity|]. rewrite IH. reflexivity. Qed.

Lemma qsum_map {A B} (f : B -> Q) (g : A -> B) (l : list A) :
  qsum f (map g l) = qsum (fun x => f (g x)) l.
Proof. induction l as [|x l IH]; simpl; [reflexivity|]. rewrite IH. reflexivity. Qed.

Lemma zrange_In (a b d : Z) : In d (zrange a b) <-> a <= d < b.
Proof.
  unfold zrange. rewrite in_map_iff. split.
  - intros [i [<- Hi]]. apply in_seq in Hi. lia.
  - intros H. exists (Z.to_nat (d - a)). split; [lia|]. apply in_seq. lia.
Qed.

(** Each day of [range(a, b)] occurs once. *)
Lemma zsum_zrange_point (a b d : Z) (X : Z) :
  zsum (fun day => if day =? d then X else 0) (zrange a b)
  = if (a <=? d) && (d <? b) then X else 0.
Proof.
  unfold zrange. rewrite zsum_map.
  assert (G : forall n k, zsum (fun i => if a + Z.of_nat i =? d then X else 0) (seq k n)
             = if (a + Z.of_nat k <=? d) && (d <? a + Z.of_nat k + Z.of_nat n) then X else 0).
  { induction n as [|n IH]; intros k; simpl.
    - destruct (a + Z.of_nat k <=? d) eqn:E1; [|reflexivity].
      destruct (d <? _) eqn:E2; [|reflexivity]. zbool.
    - rewrite IH. destruct (Z.eqb_spec (a + Z.of_nat k) d).
      + destruct (a + Z.of_nat (S k) <=? d) eqn:E1.
        { apply Z.leb_le in E1; lia. }
        replace ((a + Z.of_nat k <=? d) && (d <? a + Z.of_nat k + Z.of_nat (S n))) with true
          by (symmetry; apply andb_true_iff; split; [apply Z.leb_le | apply Z.ltb_lt]; lia).
        simpl. lia.
      + replace ((a + Z.of_nat (S k) <=? d) && (d <? a + Z.of_nat (S k) + Z.of_nat n))
          with ((a + Z.of_nat k <=? d) && (d <? a + Z.of_nat k + Z.of_nat (S n))).
        { lia. }
        destruct (a + Z.of_nat k <=? d) eqn:E1, (a + Z.of_nat (S k) <=? d) eqn:E2,
          (d <? a + Z.of_nat k + Z.of_nat (S n)) eqn:E3,
          (d <? a + Z.of_nat (S k) + Z.of_nat n) eqn:E4; simpl; try reflexivity;
          zbool. }
  rewrite G. f_equal.
  destruct (a + Z.of_nat 0 <=? d) eqn:E1, (a <=? d) eqn:E2,
    (d <? a + Z.of_nat 0 + Z.of_nat (Z.to_nat (b - a))) eqn:E3, (d <? b) eqn:E4;
    simpl; try reflexivity; zbool.
Qed.

Lemma zrange_filter_point (a b d : Z) :
  List.filter (fun day => day =? d) (zrange a b)
  = if (a <=? d) && (d <? b) then [d] else [].
Proof.
  unfold zrange.
  assert (G : forall n k,
    List.filter (fun day => day =? d) (map (fun i => a + Z.of_nat i) (seq k n))
    = if (a + Z.of_nat k <=? d) && (d <? a + Z.of_nat k + Z.of_nat n) then [d] else []).
  { induction n as [|n IH]; intros k; cbn [seq map List.filter].
    - destruct (a + Z.of_nat k <=? d) eqn:E1; [|reflexivity].
      destruct (d <? _) eqn:E2; [|reflexivity]. zbool.
    - rewrite IH. destruct (Z.eqb_spec (a + Z.of_nat k) d) as [E|E].
      + destruct (a + Z.of_nat (S k) <=? d) eqn:E1; [zbool|].
        replace ((a + Z.of_nat k <=? d) && (d <? a + Z.of_nat k + Z.of_nat (S n))) with true
          by (symmetry; apply andb_true_iff; split; [apply Z.leb_le | apply Z.ltb_lt]; lia).
        simpl. rewrite E. reflexivity.
      + f_equal.
        destruct (a + Z.of_nat k <=? d) eqn:E1, (a + Z.of_nat (S k) <=? d) eqn:E2,
          (d <? a + Z.of_nat k + Z.of_nat (S n)) eqn:E3,
          (d <? a + Z.of_nat (S k) + Z.of_nat n) eqn:E4; simpl; try reflexivity;
          zbool. }
  rewrite G. f_equal.
  destruct (a + Z.of_nat 0 <=? d) eqn:E1, (a <=? d) eqn:E2,
    (d <? a + Z.of_nat 0 + Z.of_nat (Z.to_nat (b - a))) eqn:E3, (d <? b) eqn:E4;
    simpl; try reflexivity; zbool.
Qed.

Lemma qsum_point_filter {A} (p : A -> bool) (X : Q) (l : list A) :
  (qsum (fun x => if p x then X else 0) l == qsum (fun _ => X) (List.filter p l))%Q.
Proof.
  induction l as [|x l IH]; simpl; [reflexivity|].
  destruct (p x); simpl; rewrite IH; ring.
Qed.

Lemma qsum_zrange_point (a b d : Z) (X : Q) :
  (qsum (fun day => if day =? d then X else 0) (zrange a b)
   == if (a <=? d) && (d <? b) then X else 0)%Q.
Proof.
  rewrite (qsum_point_filter (fun day => day =? d)), zrange_filter_point.
  destruct (_ && _); simpl; ring.
Qed.

Lemma zsum_point_absent (d : Z) (f : list (string * Z) -> Z)
    (bl : list (Z * list (string * Z))) :
  ~ In d (map fst bl) -> zsum (fun b => if fst b =? d then f (snd b) else 0) bl = 0.
Proof.
  induction bl as [|[d' res] bl IH]; simpl; intros H; [reflexivity|].
  destruct (Z.eqb_spec d' d); [tauto|]. rewrite IH; tauto.
Qed.

Lemma qsum_point_absent (d : Z) (f : list (string * Z) -> Q)
    (bl : list (Z * list (string * Z))) :
  ~ In d (map fst bl) ->
  (qsum (fun b => if fst b =? d then f (snd b) else 0) bl == 0)%Q.
Proof.
  induction bl as [|[d' res] bl IH]; simpl; intros H; [reflexivity|].
  destruct (Z.eqb_spec d' d); [tauto|]. rewrite IH; [ring|tauto].
Qed.

Lemma touch_day_lookup rts d0 (L : ledger) d :
  touch_day rts d0 L !! d
  = if d0 =? d then Some (match L !! d0 with Some e => e | None => empty_entry rts end)
    else L !! d.
Proof.
  unfold touch_day. destruct (Z.eqb_spec d0 d) as [<-|Hne].
  - destruct (L !! d0) eqn:E; [exact E | apply lookup_insert_eq].
  - destruct (L !! d0); [reflexivity|]. apply lookup_insert_ne. exact Hne.
Qed.

(** The ledger after any sequence of day blocks: a day has an entry iff
    some block is for that day, and each cell is the sum of that day's
    blocks' contributions. *)
Lemma blocks_ledger rts fa (bl : list (Z * list (string * Z))) :
  let L := fold_left (block_step rts fa) bl ∅ in
  forall d,
  (L !! d = None <-> ~ In d (map fst bl)) /\
  (forall e, L !! d = Some e -> forall r, In r rts ->
     de_resources e !! r
       = Some (zsum (fun b => if fst b =? d then res_qty r (snd b) else 0) bl) /\
     (exists c, de_cost e !! r = Some c /\
        (c == qsum (fun b => if fst b =? d then res_cost fa r (snd b) else 0) bl)%Q) /\
     (exists c, de_carbon e !! r = Some c /\
        (c == qsum (fun b => if fst b =? d then res_carbon fa r (snd b) else 0) bl)%Q)).
Proof.
  induction bl as [|[d0 res] bl IH] using rev_ind; intros L d.
  - subst L. simpl. split; [rewrite lookup_empty; tauto|].
    intros e He. rewrite lookup_empty in He. discriminate.
  - subst L. rewrite fold_left_app. simpl fold_left.
    set (L := fold_left (block_step rts fa) bl ∅) in *.
    unfold block_step; simpl fst; simpl snd. unfold process_day.
    set (e0 := match L !! d0 with Some e => e | None => empty_entry rts end).
    assert (HT : touch_day rts d0 L !! d0 = Some e0)
      by (rewrite touch_day_lookup, Z.eqb_refl; reflexivity).
    destruct (add_resources_day rts fa d0 res _ _ HT) as [e' [Heq Hcell]].
    rewrite Heq, map_app.
    destruct (Z.eqb_spec d0 d) as [<- | Hne].
    + rewrite lookup_insert_eq. split.
      { split; [discriminate|]. intros H. exfalso. apply H.
        apply in_or_app. right. left. reflexivity. }
      intros e He r Hr. injection He as <-.
      destruct (Hcell r Hr) as [H1 [H2 H3]].
      destruct (L !! d0) as [eo|] eqn:Eo.
      * destruct (proj2 (IH d0) eo Eo r Hr) as [I1 [[c1 [I2 E2]] [c3 [I4 E4]]]].
        split; [|split].
        -- rewrite (H1 _ I1), zsum_app. simpl. rewrite Z.eqb_refl. f_equal. lia.
        -- destruct (H2 c1 I2) as [c' [Hc' Eq]]. exists c'. split; [exact Hc'|].
           rewrite qsum_app. simpl. rewrite Z.eqb_refl, Eq, E2. ring.
        -- destruct (H3 c3 I4) as [c' [Hc' Eq]]. exists c'. split; [exact Hc'|].
           rewrite qsum_app. simpl. rewrite Z.eqb_refl, Eq, E4. ring.
      * assert (Hn : ~ In d0 (map fst bl)) by (apply (proj1 (IH d0)); exact Eo).
        split; [|split].
        -- rewrite zsum_app, (zsum_point_absent d0 _ bl Hn). simpl.
           rewrite Z.eqb_refl.
           rewrite (H1 0); [f_equal; lia|]. apply zeros_lookup. exact Hr.
        -- destruct (H2 0%Q) as [c' [Hc' Eq]]; [apply zeros_lookup; exact Hr|].
           exists c'. split; [exact Hc'|].
           rewrite qsum_app, (qsum_point_absent d0 _ bl Hn). simpl.
           rewrite Z.eqb_refl, Eq. ring.
        -- destruct (H3 0%Q) as [c' [Hc' Eq]]; [apply zeros_lookup; exact Hr|].
           exists c'. split; [exact Hc'|].
           rewrite qsum_app, (qsum_point_absent d0 _ bl Hn). simpl.
           rewrite Z.eqb_refl, Eq. ring.
    + rewrite lookup_insert_ne by exact Hne.
      rewrite touch_day_lookup.
      replace (d0 =? d) with false by (symmetry; apply Z.eqb_neq; exact Hne).
      destruct (IH d) as [I1 I2]. split.
      * rewrite I1. rewrite in_app_iff. simpl. intuition.
      * intros e He r Hr. destruct (I2 e He r Hr) as [J1 [[c1 [J2 E2]] [c3 [J4 E4]]]].
        split; [|split].
        -- rewrite J1, zsum_app. simpl. f_equal. replace (d0 =? d) with false
             by (symmetry; apply Z.eqb_neq; exact Hne). lia.
        -- exists c1. split; [exact J2|]. rewrite qsum_app. simpl.
           replace (d0 =? d) with false by (symmetry; apply Z.eqb_neq; exact Hne).
           rewrite E2. ring.
        -- exists c3. split; [exact J4|]. rewrite qsum_app. simpl.
           replace (d0 =? d) with false by (symmetry; apply Z.eqb_neq; exact Hne).
           rewrite E4. ring.
Qed.

Lemma day_blocks_qty sch d r :
  zsum (fun b => if fst b =? d then res_qty r (snd b) else 0) (day_blocks sch)
  = claimed_day_qty sch d r.
Proof.
  unfold day_blocks, claimed_day_qty. rewrite zsum_flat_map.
  apply zsum_ext. intros it _. rewrite zsum_map. simpl.
  rewrite (zsum_zrange_point _ _ d (res_qty r (si_resources (snd it)))).
  reflexivity.
Qed.

Lemma day_blocks_cost fa sch d r :
  (qsum (fun b => if fst b =? d then res_cost fa r (snd b) else 0) (day_blocks sch)
   == claimed_day_cost fa sch d r)%Q.
Proof.
  unfold day_blocks, claimed_day_cost. rewrite qsum_flat_map.
  apply qsum_ext. intros it _. rewrite qsum_map. simpl.
  rewrite (qsum_zrange_point _ _ d (res_cost fa r (si_resources (snd it)))).
  unfold task_active. destruct (_ && _); [|reflexivity].
  unfold res_cost. apply qsum_ext. intros [rt q] _. simpl.
  destruct (String.eqb_spec rt r) as [<-|]; [|reflexivity].
  rewrite inject_Z_mult. unfold claimed_rates, base_rates. ring.
Qed.

Lemma day_blocks_carbon fa sch d r :
  (qsum (fun b => if fst b =? d then res_carbon fa r (snd b) else 0) (day_blocks sch)
   == claimed_day_carbon fa sch d r)%Q.
Proof.
  unfold day_blocks, claimed_day_carbon. rewrite qsum_flat_map.
  apply qsum_ext. intros it _. rewrite qsum_map. simpl.
  rewrite (qsum_zrange_point _ _ d (res_carbon fa r (si_resources (snd it)))).
  unfold task_active. destruct (_ && _); [|reflexivity].
  unfold res_carbon. apply qsum_ext. intros [rt q] _. simpl.
  destruct (String.eqb_spec rt r) as [<-|]; [|reflexivity].
  rewrite inject_Z_mult. unfold claimed_rates, base_rates. ring.
Qed.

Lemma day_blocks_days sch d :
  In d (map fst (day_blocks sch)) <-> exists it, In it sch /\ task_active (snd it) d = true.
Proof.
  unfold day_blocks. rewrite in_map_iff. split.
  - intros [[d' res] [<- Hin]]. apply in_flat_map in Hin as [it [Hit Hin]].
    apply in_map_iff in Hin as [d'' [E Hd]]. injection E as <- _.
    exists it. split; [exact Hit|]. apply zrange_In in Hd.
    unfold task_active. apply andb_true_iff. simpl in *. split; [apply Z.leb_le | apply Z.ltb_lt]; lia.
  - intros [it [Hit Ha]]. exists (d, si_resources (snd it)). split; [reflexivity|].
    apply in_flat_map. exists it. split; [exact Hit|]. apply in_map_iff.
    exists d. split; [reflexivity|]. apply zrange_In.
    unfold task_active in Ha. apply andb_true_iff in Ha as [H1 H2]. zbool.
Qed.

(** The ledger of any schedule, read cell by cell. *)
Lemma ledger_cells rts fa (sch : schedule) d r :
  In r rts ->
  let L := calculate_daily_resource_usage rts sch fa in
  (L !! d = None <-> ~ exists it, In it sch /\ task_active (snd it) d = true) /\
  (forall e, L !! d = Some e ->
     de_resources e !! r = Some (claimed_day_qty sch d r) /\
     (exists c, de_cost e !! r = Some c /\ (c == claimed_day_cost fa sch d r)%Q) /\
     (exists c, de_carbon e !! r = Some c /\ (c == claimed_day_carbon fa sch d r)%Q)).
Proof.
  intros Hr L. subst L. rewrite ledger_as_blocks.
  destruct (blocks_ledger rts fa (day_blocks sch) d) as [H1 H2]. split.
  - rewrite H1, day_blocks_days. tauto.
  - intros e He. destruct (H2 e He r Hr) as [J1 [[c1 [J2 E2]] [c3 [J4 E4]]]].
    split; [|split].
    + rewrite J1, day_blocks_qty. reflexivity.
    + exists c1. split; [exact J2|]. rewrite E2. apply day_blocks_cost.
    + exists c3. split; [exact J4|]. rewrite E4. apply day_blocks_carbon.
Qed.

Lemma add_unique_keeps (l : list string) (acc : list string) (x : string) :
  In x acc -> In x (fold_left add_unique l acc).
Proof.
  induction l as [|y l IH] in acc |- *; simpl; [auto|].
  intros H. apply IH. unfold add_unique.
  destruct (existsb _ _); [exact H | apply in_or_app; left; exact H].
Qed.

Lemma add_unique_adds (l : list string) (acc : list string) (x : string) :
  In x l -> In x (fold_left add_unique l acc).
Proof.
  induction l as [|y l IH] in acc |- *; simpl; [tauto|].
  intros [-> | H]; [|apply IH; exact H].
  apply add_unique_keeps. unfold add_unique.
  destruct (existsb (String.eqb x) acc) eqn:E.
  - apply existsb_eqb_in. exact E.
  - apply in_or_app. right. left. reflexivity.
Qed.

(** Every resource name of every task is a resource type, so the
    [res_type in self.resource_types] guard never drops a requirement. *)
Lemma extract_resource_types_complete (tasks : list task) t rq :
  In t tasks -> In rq (t_resources t) -> In (fst rq) (extract_resource_types tasks).
Proof.
  unfold extract_resource_types.
  assert (G : forall acc, (In t tasks -> In rq (t_resources t) -> In (fst rq)
    (fold_left (fun acc t => fold_left add_unique (map fst (t_resources t)) acc) tasks acc))).
  { induction tasks as [|t' tasks IH]; intros acc; simpl; [tauto|].
    intros [<- | Ht] Hrq.
    - assert (G2 : forall acc', In (fst rq) acc' -> In (fst rq)
        (fold_left (fun acc t => fold_left add_unique (map fst (t_resources t)) acc) tasks acc')).
      { clear IH. induction tasks as [|t'' tasks IH2]; intros acc' Hin; simpl; [exact Hin|].
        apply IH2. apply add_unique_keeps. exact Hin. }
      apply G2. apply add_unique_adds. apply in_map. exact Hrq.
    - apply IH; assumption. }
  apply G.
Qed.

(** C2: the daily ledger.  No requirement of a task is dropped by the
    resource-type guard, a day has a ledger entry exactly when some task is
    active on it ([start <= d < start + duration]), and the entry's cells
    for resource type [r] hold, summed over the tasks active on [d] and
    their requirements [(r, q)]: the raw quantity [q]; [q] times the base
    cost of the name's rate class (1000 for "crane", 100 for "worker",
    "team" or "labor", 200 otherwise, matched case-insensitively in that
    order) times the mode's cost multiplier; and [q] times the base carbon
    (50, 5, 10) times the mode's carbon multiplier. *)
Theorem daily_resource_usage_accumulates (cfg : ga_config) (sch : schedule)
    (d : Z) (r : string) :
  In r (resource_types cfg) ->
  let fa := adjustment_factors (cfg_mode cfg) in
  let L := calculate_daily_resource_usage (resource_types cfg) sch fa in
  (forall t rq, In t (cfg_tasks cfg) -> In rq (t_resources t) ->
     In (fst rq) (resource_types cfg)) /\
  (L !! d = None <-> ~ exists it, In it sch /\ task_active (snd it) d = true) /\
  (forall e, L !! d = Some e ->
     de_resources e !! r = Some (claimed_day_qty sch d r) /\
     (exists c, de_cost e !! r = Some c /\ (c == claimed_day_cost fa sch d r)%Q) /\
     (exists c, de_carbon e !! r = Some c /\ (c == claimed_day_carbon fa sch d r)%Q)).
Proof.
  intros Hr fa L. split.
  - intros t rq Ht Hrq. apply (extract_resource_types_complete _ t); assumption.
  - apply (ledger_cells (resource_types cfg) fa sch d r Hr).
Qed.

Lemma daily_resource_usage_accumulates_witness :
  In "Crane"%string (resource_types Sample.cfg_eco) /\
  (forall e, calculate_daily_resource_usage (resource_types Sample.cfg_eco)
               Sample.sch01 (adjustment_factors eco) !! 1 = Some e ->
     de_resources e !! "Crane"%string = Some (claimed_day_qty Sample.sch01 1 "Crane")).
Proof.
  assert (H : In "Crane"%string (resource_types Sample.cfg_eco))
    by (vm_compute; left; reflexivity).
  split; [exact H|].
  destruct (daily_resource_usage_accumulates Sample.cfg_eco Sample.sch01 1 "Crane" H)
    as [_ [_ H3]].
  intros e He. apply (H3 e He).
Defined.

(* ------------------------------------------------------------------ *)
(** ** Runs of the genetic algorithm *)

Lemma bindM_Some {A B} (m : M A) (k : A -> M B) s n x n' :
  m s n = Some (x, n') -> bindM m k s n = k x s n'.
Proof. intros H. unfold bindM. rewrite H. reflexivity. Qed.

Lemma bindM_inv {A B} (m : M A) (k : A -> M B) s n y n' :
  bindM m k s n = Some (y, n') ->
  exists x n1, m s n = Some (x, n1) /\ k x s n1 = Some (y, n').
Proof. unfold bindM. destruct (m s n) as [[x n1]|]; [eauto | discriminate]. Qed.

Lemma repeat_of_Forall_eq {A} (x : A) (l : list A) :
  (forall y, In y l -> y = x) -> l = repeat x (length l).
Proof.
  induction l as [|y l IH]; intros H; [reflexivity|]. simpl.
  rewrite (H y (or_introl eq_refl)), <- IH; [reflexivity|].
  intros w Hw. apply H. right. exact Hw.
Qed.

Lemma evaluate_invalid_valid cfg (l : list individual) s n :
  Forall (fun x => fitness x <> None) l -> evaluate_invalid cfg l s n = Some (l, n).
Proof.
  intros Hl. unfold evaluate_invalid.
  induction Hl as [|x l Hx Hl IH]; [reflexivity|]. simpl mapMM.
  destruct (fitness x) eqn:E; [|congruence].
  unfold bindM at 1. cbn [ret]. unfold bindM at 1. rewrite IH. reflexivity.
Qed.

(** A generator that returns the same value [z] at every call: when its
    [random()] reading is at least 0.7 and at least the mutation rate, no
    crossover and no mutation fires, and a population of copies of one
    evaluated individual is kept from generation to generation. *)
Section ConstantDraws.

Variable z : Z.

Lemma random_unit_const n : random_unit (fun _ => z) n = Some (unit_of z, S n).
Proof. reflexivity. Qed.

Lemma cx_pairs_const c :
  Qltb (unit_of z) c = false ->
  forall l n, exists n', cx_pairs c l (fun _ => z) n = Some (l, n').
Proof.
  intros Hc.
  assert (Hk : forall k l n, (length l <= k)%nat ->
            exists n', cx_pairs c l (fun _ => z) n = Some (l, n')).
  { induction k as [|k IH]; intros l n Hl.
    - destruct l; [exists n; reflexivity | simpl in Hl; lia].
    - destruct l as [|a [|b rest]]; try (exists n; reflexivity).
      simpl cx_pairs. rewrite (bindM_Some _ _ _ _ _ _ (random_unit_const n)).
      cbv beta. rewrite Hc.
      destruct (IH rest (S n)) as [n' Hn']; [simpl in Hl; lia|].
      exists n'. rewrite (bindM_Some _ _ _ _ _ _ Hn'). reflexivity. }
  intros l n. apply (Hk (length l)). lia.
Qed.

Lemma mut_all_const cfg c :
  Qltb (unit_of z) c = false ->
  forall l n, exists n', mut_all cfg c l (fun _ => z) n = Some (l, n').
Proof.
  intros Hc l. induction l as [|x l IH]; intros n; [exists n; reflexivity|].
  simpl mut_all. rewrite (bindM_Some _ _ _ _ _ _ (random_unit_const n)).
  cbv beta. rewrite Hc. unfold bindM at 1. cbn [ret].
  destruct (IH (S n)) as [n' Hn']. exists n'.
  rewrite (bindM_Some _ _ _ _ _ _ Hn'). reflexivity.
Qed.

Lemma generations_loop_uniform cfg select x :
  selects_from select ->
  Qltb (unit_of z) (7 # 10) = false ->
  Qltb (unit_of z) (mutation_rate cfg) = false ->
  fitness x <> None ->
  forall k m n, (0 < m)%nat ->
  exists n', generations_loop cfg select k (repeat x m) (fun _ => z) n
             = Some (repeat x m, n').
Proof.
  intros Hsel Hcx Hmu Hx k. induction k as [|k IH]; intros m n Hm.
  { exists n. reflexivity. }
  simpl generations_loop.
  assert (Hs : select (repeat x m) (length (repeat x m)) = repeat x m).
  { destruct (Hsel (repeat x m)) as [Hlen Hin].
    rewrite (repeat_of_Forall_eq x (select (repeat x m) (length (repeat x m)))).
    - rewrite Hlen, repeat_length. reflexivity.
    - intros y Hy. apply Hin in Hy. apply repeat_spec in Hy. exact Hy. }
  rewrite Hs.
  destruct (cx_pairs_const _ Hcx (repeat x m) n) as [n1 H1].
  destruct (mut_all_const cfg _ Hmu (repeat x m) n1) as [n2 H2].
  assert (Hv : var_and cfg (repeat x m) (fun _ => z) n = Some (repeat x m, n2)).
  { unfold var_and. rewrite (bindM_Some _ _ _ _ _ _ H1). exact H2. }
  rewrite (bindM_Some _ _ _ _ _ _ Hv).
  assert (Hf : Forall (fun y => fitness y <> None) (repeat x m)).
  { apply List.Forall_forall. intros y Hy. apply repeat_spec in Hy. subst y. exact Hx. }
  rewrite (bindM_Some _ _ _ _ _ _ (evaluate_invalid_valid cfg _ _ n2 Hf)).
  destruct m as [|m]; [lia|].
  unfold bindM at 1. cbn [stats_compile repeat ret].
  apply (IH (S m)). lia.
Qed.

End ConstantDraws.

(** [randint(a, b)] returns a value of [a .. b]. *)
Lemma randint_ge a b s n v n' :
  randint a b s n = Some (v, n') -> a <= v <= b.
Proof.
  unfold randint. destruct (b <? a) eqn:E; [discriminate|].
  apply Z.ltb_ge in E. unfold bindM, draw, ret. intros H. injection H as <- _.
  pose proof (Z.mod_pos_bound (s n) (b - a + 1) ltac:(lia)). lia.
Qed.

Lemma randint_some a b s n :
  a <= b -> exists n', randint a b s n = Some (a + s n mod (b - a + 1), n').
Proof.
  intros H. unfold randint. destruct (b <? a) eqn:E; [apply Z.ltb_lt in E; lia|].
  exists (S n). reflexivity.
Qed.

Lemma randint_empty a b s n : b < a -> randint a b s n = None.
Proof. intros H. unfold randint. destruct (b <? a) eqn:E; [reflexivity|]. apply Z.ltb_ge in E; lia. Qed.

Lemma repeatM_Forall {A} (P : A -> Prop) (m : M A) k s n l n' :
  (forall n0 v n1, m s n0 = Some (v, n1) -> P v) ->
  repeatM k m s n = Some (l, n') -> Forall P l.
Proof.
  intros Hm. revert n l n'. induction k as [|k IH]; intros n l n' H.
  - simpl in H. injection H as <- _. constructor.
  - simpl in H. apply bindM_inv in H as (x & n1 & Hx & H).
    apply bindM_inv in H as (xs & n2 & Hxs & H). injection H as <- _.
    constructor; [exact (Hm _ _ _ Hx) | exact (IH _ _ _ Hxs)].
Qed.

Lemma repeatM_length {A} (m : M A) k s n l n' :
  repeatM k m s n = Some (l, n') -> length l = k.
Proof.
  revert n l n'. induction k as [|k IH]; intros n l n' H.
  - simpl in H. injection H as <- _. reflexivity.
  - simpl in H. apply bindM_inv in H as (x & n1 & Hx & H).
    apply bindM_inv in H as (xs & n2 & Hxs & H). injection H as <- _.
    simpl. f_equal. exact (IH _ _ _ Hxs).
Qed.

Lemma mapMM_Forall {A B} (P : A -> Prop) (Q : B -> Prop) (f : A -> M B) l s n ys n' :
  Forall P l ->
  (forall x n0 y n1, P x -> f x s n0 = Some (y, n1) -> Q y) ->
  mapMM f l s n = Some (ys, n') -> Forall Q ys.
Proof.
  intros Hl Hf. revert n ys n'. induction Hl as [|x l Hx Hl IH]; intros n ys n' H.
  - simpl in H. injection H as <- _. constructor.
  - simpl in H. apply bindM_inv in H as (y & n1 & Hy & H).
    apply bindM_inv in H as (ys' & n2 & Hys & H). injection H as <- _.
    constructor; [exact (Hf _ _ _ _ Hx Hy) | exact (IH _ _ _ Hys)].
Qed.

Lemma foldM_inv {A B} (P : A -> Prop) (f : A -> B -> M A) l a s n a' n' :
  P a -> (forall a0 x n0 a1 n1, P a0 -> f a0 x s n0 = Some (a1, n1) -> P a1) ->
  foldM f l a s n = Some (a', n') -> P a'.
Proof.
  intros Ha Hf. revert a n Ha. induction l as [|x l IH]; intros a n Ha H.
  - simpl in H. injection H as <- _. exact Ha.
  - simpl in H. apply bindM_inv in H as (a1 & n1 & H1 & H).
    exact (IH _ _ (Hf _ _ _ _ _ Ha H1) H).
Qed.

Lemma max_list_ge_head x xs m : max_list (x :: xs) = Some m -> x <= m.
Proof.
  simpl. intros H. injection H as <-.
  assert (forall l a, a <= fold_left Z.max l a) as G.
  { induction l as [|y l IH]; intros a; simpl; [lia|]. specialize (IH (Z.max a y)). lia. }
  apply G.
Qed.

Lemma max_list_ge xs m y : max_list xs = Some m -> In y xs -> y <= m.
Proof.
  destruct xs as [|x xs]; [discriminate|]. simpl. intros H. injection H as <-.
  assert (forall l a, a <= fold_left Z.max l a /\ forall y, In y l -> y <= fold_left Z.max l a) as G.
  { induction l as [|w l IH]; intros a; simpl; [split; [lia| tauto]|].
    destruct (IH (Z.max a w)) as [H1 H2]. split; [lia|].
    intros v [<- | Hv]; [lia | auto]. }
  intros [Hy | Hy].
  - subst. apply (proj1 (G xs y)).
  - apply (proj2 (G xs x)). exact Hy.
Qed.

(** The genes of a run stay non-negative. *)
Lemma min_start_of_nonneg cfg ind t lo :
  Forall (fun t => 0 <= t_duration t) (cfg_tasks cfg) ->
  Forall (Z.le 0) ind ->
  min_start_of cfg ind t = Some lo -> 0 <= lo.
Proof.
  intros Hd Hi. unfold min_start_of.
  destruct (t_deps t) as [|dep deps]; [intros H; injection H as <-; lia|].
  intros H. apply bind_Some in H as (ends & Hends & Hmax).
  apply mapM_Some_1 in Hends.
  destruct ends as [|e ends]; [inversion Hends|].
  apply max_list_ge_head in Hmax.
  inversion Hends as [|? ? ? ? He _]; subst.
  unfold dep_end in He.
  apply bind_Some in He as (j & _ & He).
  apply bind_Some in He as (g & Hg & He).
  apply bind_Some in He as (t' & Ht' & He). injection He as <-.
  pose proof (Forall_lookup_1 _ _ _ _ Hi Hg).
  pose proof (Forall_lookup_1 _ _ _ _ Hd Ht'). simpl in *. lia.
Qed.

Lemma mutate_gene_nonneg cfg indpb ind i s n ind' n' :
  Forall (fun t => 0 <= t_duration t) (cfg_tasks cfg) ->
  Forall (Z.le 0) ind ->
  mutate_gene cfg indpb ind i s n = Some (ind', n') ->
  Forall (Z.le 0) ind' /\ length ind' = length ind.
Proof.
  intros Hd Hi H. unfold mutate_gene in H.
  apply bindM_inv in H as (r & n1 & _ & H).
  destruct (Qltb r indpb).
  - apply bindM_inv in H as (t & n2 & Ht & H).
    apply bindM_inv in H as (lo & n3 & Hlo & H).
    apply bindM_inv in H as (v & n4 & Hv & H).
    injection H as <- _.
    unfold lift in Hlo. destruct (min_start_of cfg ind t) eqn:Hm; [|discriminate].
    injection Hlo as <- _.
    pose proof (min_start_of_nonneg _ _ _ _ Hd Hi Hm).
    apply randint_ge in Hv.
    split; [apply Forall_insert; [exact Hi | lia] | apply length_insert].
  - injection H as <- _. auto.
Qed.

Lemma mutate_individual_nonneg cfg indpb ind s n ind' n' :
  Forall (fun t => 0 <= t_duration t) (cfg_tasks cfg) ->
  Forall (Z.le 0) ind ->
  mutate_individual cfg indpb ind s n = Some (ind', n') ->
  Forall (Z.le 0) ind' /\ length ind' = length ind.
Proof.
  intros Hd Hi H. unfold mutate_individual in H.
  refine (foldM_inv (fun a => Forall (Z.le 0) a /\ length a = length ind)
            _ _ _ _ _ _ _ _ _ H); [auto|].
  intros a0 x n0 a1 n1 [Ha0 Hl0] Hf.
  destruct (mutate_gene_nonneg _ _ _ _ _ _ _ _ Hd Ha0 Hf) as [H1 H2].
  split; [exact H1 | lia].
Qed.

Lemma cx_two_point_Forall (P : Z -> Prop) ind1 ind2 s n c d n' :
  Forall P ind1 -> Forall P ind2 ->
  cx_two_point ind1 ind2 s n = Some ((c, d), n') -> Forall P c /\ Forall P d.
Proof.
  intros H1 H2 H. unfold cx_two_point in H.
  apply bindM_inv in H as (c1 & n1 & _ & H).
  apply bindM_inv in H as (c2 & n2 & _ & H).
  destruct (if c1 <=? c2 then (c1, c2 + 1) else (c2, c1)) as [p1 p2].
  injection H as <- <- _. unfold slice.
  split; repeat apply Forall_app_2; auto using Forall_take, Forall_drop.
Qed.

Lemma cx_pairs_nonneg c l s n l' n' :
  Forall (fun x => Forall (Z.le 0) (genes x)) l ->
  cx_pairs c l s n = Some (l', n') ->
  Forall (fun x => Forall (Z.le 0) (genes x)) l'.
Proof.
  assert (Hk : forall k l n l' n', (length l <= k)%nat ->
            Forall (fun x => Forall (Z.le 0) (genes x)) l ->
            cx_pairs c l s n = Some (l', n') ->
            Forall (fun x => Forall (Z.le 0) (genes x)) l').
  { induction k as [|k IH]; intros l0 n0 l1 n1 Hlen Hl H.
    - destruct l0; [simpl in H; injection H as <- _; constructor | simpl in Hlen; lia].
    - destruct l0 as [|a [|b rest]];
        try (simpl in H; injection H as <- _; exact Hl).
      apply Forall_cons in Hl as [Ha Hl]. apply Forall_cons in Hl as [Hb Hrest].
      simpl in Hlen.
      simpl cx_pairs in H. apply bindM_inv in H as (r & n2 & _ & H).
      destruct (Qltb r c).
      + apply bindM_inv in H as ([cc dd] & n3 & Hp & H).
        apply bindM_inv in H as (rest' & n4 & Hr & H). injection H as <- _.
        destruct (cx_two_point_Forall _ _ _ _ _ _ _ _ Ha Hb Hp).
        constructor; [exact H|]. constructor; [exact H0|].
        apply (IH rest n3 rest' n4); [lia | exact Hrest | exact Hr].
      + apply bindM_inv in H as (rest' & n4 & Hr & H). injection H as <- _.
        constructor; [exact Ha|]. constructor; [exact Hb|].
        apply (IH rest n2 rest' n4); [lia | exact Hrest | exact Hr]. }
  intros. eapply (Hk (length l)); eauto.
Qed.

Lemma mut_all_nonneg cfg c l s n l' n' :
  Forall (fun t => 0 <= t_duration t) (cfg_tasks cfg) ->
  Forall (fun x => Forall (Z.le 0) (genes x)) l ->
  mut_all cfg c l s n = Some (l', n') ->
  Forall (fun x => Forall (Z.le 0) (genes x)) l'.
Proof.
  intros Hd Hl. revert n l' n'.
  induction Hl as [|x l Hx Hl IH]; intros n l' n' H.
  - simpl in H. injection H as <- _. constructor.
  - simpl in H. apply bindM_inv in H as (r & n1 & _ & H).
    apply bindM_inv in H as (x' & n2 & Hx' & H).
    apply bindM_inv in H as (rest' & n3 & Hr & H). injection H as <- _.
    constructor; [|exact (IH _ _ _ Hr)].
    destruct (Qltb r c).
    + apply bindM_inv in Hx' as (g & n4 & Hg & Hx'). injection Hx' as <- _.
      exact (proj1 (mutate_individual_nonneg _ _ _ _ _ _ _ Hd Hx Hg)).
    + injection Hx' as <- _. exact Hx.
Qed.

Lemma evaluate_invalid_genes cfg l s n l' n' :
  Forall (fun x => Forall (Z.le 0) (genes x)) l ->
  evaluate_invalid cfg l s n = Some (l', n') ->
  Forall (fun x => Forall (Z.le 0) (genes x)) l'.
Proof.
  intros Hl H. unfold evaluate_invalid in H.
  refine (mapMM_Forall _ _ _ _ _ _ _ _ Hl _ H).
  intros x n0 y n1 Hx Hf. destruct (fitness x).
  - injection Hf as <- _. exact Hx.
  - apply bindM_inv in Hf as (f & n2 & _ & Hf). injection Hf as <- _. exact Hx.
Qed.

Lemma generations_loop_nonneg cfg select k pop s n pop' n' :
  selects_from select ->
  Forall (fun t => 0 <= t_duration t) (cfg_tasks cfg) ->
  Forall (fun x => Forall (Z.le 0) (genes x)) pop ->
  generations_loop cfg select k pop s n = Some (pop', n') ->
  Forall (fun x => Forall (Z.le 0) (genes x)) pop'.
Proof.
  intros Hsel Hd. revert pop n. induction k as [|k IH]; intros pop n Hp H.
  - simpl in H. injection H as <- _. exact Hp.
  - simpl in H.
    apply bindM_inv in H as (offs & n1 & Hv & H).
    apply bindM_inv in H as (offs' & n2 & He & H).
    apply bindM_inv in H as (u & n3 & _ & H).
    apply (IH offs' n3); [|exact H].
    apply (evaluate_invalid_genes cfg offs s n1 offs' n2); [|exact He].
    unfold var_and in Hv. apply bindM_inv in Hv as (o & n4 & Ho & Hm).
    apply (mut_all_nonneg cfg (mutation_rate cfg) o s n4 offs n1 Hd); [|exact Hm].
    apply (cx_pairs_nonneg (7 # 10) (select pop (length pop)) s n o n4); [|exact Ho].
    apply List.Forall_forall. intros x Hx.
    apply (proj2 (Hsel pop)) in Hx.
    exact (proj1 (List.Forall_forall _ _) Hp x Hx).
Qed.

Lemma init_population_nonneg cfg s n pop n' :
  init_population cfg s n = Some (pop, n') ->
  Forall (fun x => Forall (Z.le 0) (genes x)) pop.
Proof.
  unfold init_population. apply repeatM_Forall.
  intros n0 v n1 H. apply bindM_inv in H as (g & n2 & Hg & H).
  injection H as <- _. simpl.
  apply (repeatM_Forall _ _ _ _ _ _ _ (fun n0 v n1 H => proj1 (randint_ge _ _ _ _ _ _ H)) Hg).
Qed.

Lemma sel_best_In m pop best : sel_best m pop = Some best -> In best pop.
Proof.
  destruct pop as [|x rest]; [discriminate|]. simpl. intros H. injection H as <-.
  revert x. induction rest as [|y rest IH]; intros x; [left; reflexivity|].
  simpl. destruct (lex_lt (wvalues m x) (wvalues m y)).
  - destruct (IH y) as [E | E]; [right; left; exact E | right; right; exact E].
  - destruct (IH x) as [E | E]; [left; exact E | right; right; exact E].
Qed.

Lemma optimize_best_nonneg cfg select s n r n' :
  selects_from select ->
  Forall (fun t => 0 <= t_duration t) (cfg_tasks cfg) ->
  optimize cfg select s n = Some (r, n') ->
  exists best, Forall (Z.le 0) best /\ final_result cfg best = Some r.
Proof.
  intros Hsel Hd H. unfold optimize in H.
  apply bindM_inv in H as (pop & n1 & Hi & H).
  apply bindM_inv in H as (pop' & n2 & He & H).
  apply bindM_inv in H as (best & n3 & Hb & H).
  unfold lift in Hb, H.
  destruct (sel_best (cfg_mode cfg) pop') as [b|] eqn:Hs; [|discriminate].
  injection Hb as -> _.
  destruct (final_result cfg (genes best)) eqn:Hf; [|discriminate].
  injection H as <- _.
  exists (genes best). split; [|exact Hf].
  apply sel_best_In in Hs.
  unfold ea_simple in He.
  apply bindM_inv in He as (p1 & n4 & He1 & He).
  apply bindM_inv in He as (u & n5 & _ & He).
  pose proof (init_population_nonneg _ _ _ _ _ Hi) as G0.
  pose proof (evaluate_invalid_genes _ _ _ _ _ _ G0 He1) as G1.
  pose proof (generations_loop_nonneg _ _ _ _ _ _ _ _ Hsel Hd G1 He) as G2.
  exact (proj1 (List.Forall_forall _ _) G2 _ Hs).
Qed.

(** Reading the schedule dictionary back. *)
Lemma dict_get_set {V} k k' (v : V) d :
  dict_get k (dict_set k' v d) = if String.eqb k k' then Some v else dict_get k d.
Proof.
  induction d as [|[k0 v0] d IH]; simpl.
  - destruct (String.eqb k k'); reflexivity.
  - destruct (String.eqb k' k0) eqn:E1.
    + apply String.eqb_eq in E1. subst k0. simpl.
      destruct (String.eqb k k'); reflexivity.
    + simpl. rewrite IH. destruct (String.eqb k k0) eqn:E2; [|reflexivity].
      apply String.eqb_eq in E2. subst k0.
      destruct (String.eqb k k') eqn:E3; [|reflexivity].
      apply String.eqb_eq in E3. subst. rewrite String.eqb_refl in E1. discriminate.
Qed.

Lemma create_schedule_aux_get fa tasks ind acc sch k info :
  create_schedule_aux fa tasks ind acc = Some sch -> dict_get k sch = Some info ->
  dict_get k acc = Some info \/
  exists t g, In t tasks /\ In g ind /\ t_id t = k /\
    info = {| si_start := g; si_resources := t_resources t;
              si_duration := adjusted_duration fa (t_duration t) |}.
Proof.
  revert ind acc. induction tasks as [|t ts IH]; intros ind acc H Hk.
  - simpl in H. injection H as <-. left. exact Hk.
  - destruct ind as [|g ind]; [discriminate|]. simpl in H.
    destruct (IH _ _ H Hk) as [Ha | (t' & g' & Ht' & Hg' & Hid & Hinfo)].
    + rewrite dict_get_set in Ha. destruct (String.eqb k (t_id t)) eqn:E.
      * apply String.eqb_eq in E. injection Ha as <-. right.
        exists t, g. repeat split; auto; left; reflexivity.
      * left. exact Ha.
    + right. exists t', g'. repeat split; auto; right; assumption.
Qed.

Lemma NoDup_map_inj {A B} (f : A -> B) l x y :
  NoDup (map f l) -> In x l -> In y l -> f x = f y -> x = y.
Proof.
  induction l as [|a l IH]; [intros _ []|].
  simpl. intros Hn Hx Hy Hf. apply NoDup_cons in Hn as [Hna Hn].
  destruct Hx as [<- | Hx], Hy as [<- | Hy]; auto.
  - exfalso. apply Hna. rewrite Hf. apply list_elem_of_In. apply in_map. exact Hy.
  - exfalso. apply Hna. rewrite <- Hf. apply list_elem_of_In. apply in_map. exact Hx.
Qed.

Lemma Forall2_In_l {A B} (R : A -> B -> Prop) l k x :
  Forall2 R l k -> In x l -> exists y, In y k /\ R x y.
Proof.
  induction 1 as [|a b l k Hab _ IH]; [intros []|].
  intros [<- | Hx]; [exists b; split; [left|]; auto|].
  destruct (IH Hx) as (y & Hy & R'). exists y. split; [right|]; auto.
Qed.

Lemma final_result_duration_lb cfg best r t :
  Forall (Z.le 0) best -> NoDup (task_ids cfg) ->
  final_result cfg best = Some r -> In t (cfg_tasks cfg) ->
  adjusted_duration (adjustment_factors (cfg_mode cfg)) (t_duration t)
    <= total_duration r.
Proof.
  intros Hb Hn H Ht. unfold final_result in H.
  apply bind_Some in H as (sch & Hsch & H).
  apply bind_Some in H as (ends & Hends & H).
  apply bind_Some in H as (td & Htd & H).
  apply bind_Some in H as (items & _ & H).
  injection H as <-. simpl.
  apply mapM_Some_1 in Hends.
  destruct (Forall2_In_l _ _ _ _ Hends Ht) as (e & He & Hte).
  apply bind_Some in Hte as (info & Hinfo & Hte). injection Hte as <-.
  destruct (create_schedule_aux_get _ _ _ _ _ _ _ Hsch Hinfo)
    as [Hnil | (t' & g & Ht' & Hg & Hid & ->)]; [discriminate|].
  assert (t' = t) as ->.
  { apply (NoDup_map_inj t_id (cfg_tasks cfg)); auto. }
  simpl.
  pose proof (proj1 (List.Forall_forall _ _) Hb g Hg).
  assert (e' : g + adjusted_duration (adjustment_factors (cfg_mode cfg)) (t_duration t) <= td).
  { destruct ends as [|e0 ends]; [destruct He|].
    exact (max_list_ge _ _ _ Htd He). }
  lia.
Qed.

(** Every step of a run reads only the draws it consumes. *)
Lemma roc_ret {A} (x : A) : reads_only_consumed (ret x).
Proof. intros s1 s2 n y n' H. injection H as <- <-. split; [lia | reflexivity]. Qed.

Lemma roc_raise {A} : reads_only_consumed (@raise A).
Proof. intros s1 s2 n y n' H. discriminate. Qed.

Lemma roc_draw : reads_only_consumed draw.
Proof.
  intros s1 s2 n y n' H. injection H as <- <-. split; [lia|].
  intros E. unfold draw. rewrite (E n) by lia. reflexivity.
Qed.

Lemma roc_bind {A B} (m : M A) (k : A -> M B) :
  reads_only_consumed m -> (forall x, reads_only_consumed (k x)) ->
  reads_only_consumed (bindM m k).
Proof.
  intros Hm Hk s1 s2 n y n' H. unfold bindM in H.
  destruct (m s1 n) as [[x n1]|] eqn:E1; [|discriminate].
  destruct (Hm s1 s2 n x n1 E1) as [L1 R1].
  destruct (Hk x s1 s2 n1 y n' H) as [L2 R2].
  split; [lia|]. intros E. unfold bindM.
  rewrite R1 by (intros i Hi; apply E; lia).
  apply R2. intros i Hi. apply E. lia.
Qed.

Lemma roc_lift {A} (o : option A) : reads_only_consumed (lift o).
Proof. destruct o; [apply roc_ret | apply roc_raise]. Qed.

Ltac roc_step :=
  first [ apply roc_bind; [| intros ?]
        | apply roc_ret | apply roc_raise | apply roc_lift | apply roc_draw
        | match goal with
          | |- reads_only_consumed (if ?b then _ else _) => destruct b
          | |- reads_only_consumed (match ?x with _ => _ end) => destruct x
          end ].

Lemma roc_randint a b : reads_only_consumed (randint a b).
Proof. unfold randint. repeat roc_step. Qed.

Lemma roc_random_unit : reads_only_consumed random_unit.
Proof. unfold random_unit. repeat roc_step. Qed.

Lemma roc_foldM {A B} (f : A -> B -> M A) l a :
  (forall a x, reads_only_consumed (f a x)) -> reads_only_consumed (foldM f l a).
Proof.
  intros Hf. revert a. induction l as [|x l IH]; intros a; simpl;
    [apply roc_ret | apply roc_bind; auto].
Qed.

Lemma roc_repeatM {A} k (m : M A) :
  reads_only_consumed m -> reads_only_consumed (repeatM k m).
Proof. intros Hm. induction k; simpl; repeat (roc_step || assumption). Qed.

Lemma roc_mapMM {A B} (f : A -> M B) l :
  (forall x, reads_only_consumed (f x)) -> reads_only_consumed (mapMM f l).
Proof. intros Hf. induction l; simpl; repeat (roc_step || auto). Qed.


Lemma roc_mutate_individual cfg indpb ind :
  reads_only_consumed (mutate_individual cfg indpb ind).
Proof.
  apply roc_foldM. intros a i. unfold mutate_gene.
  repeat (roc_step || apply roc_randint || apply roc_random_unit).
Qed.

Lemma roc_cx_two_point a b : reads_only_consumed (cx_two_point a b).
Proof.
  unfold cx_two_point. repeat (roc_step || apply roc_randint).
Qed.

Lemma roc_cx_pairs c l : reads_only_consumed (cx_pairs c l).
Proof.
  assert (Hk : forall k l, (length l <= k)%nat -> reads_only_consumed (cx_pairs c l)).
  { induction k as [|k IH]; intros l0 Hl.
    - destruct l0; [apply roc_ret | simpl in Hl; lia].
    - destruct l0 as [|a [|b rest]]; try apply roc_ret.
      simpl in Hl. simpl cx_pairs.
      apply roc_bind; [apply roc_random_unit | intros r].
      destruct (Qltb r c).
      + apply roc_bind; [apply roc_cx_two_point | intros p].
        apply roc_bind; [apply IH; lia | intros; apply roc_ret].
      + apply roc_bind; [apply IH; lia | intros; apply roc_ret]. }
  apply (Hk (length l)). lia.
Qed.

Lemma roc_mut_all cfg c l : reads_only_consumed (mut_all cfg c l).
Proof.
  induction l as [|x l IH]; simpl; [apply roc_ret|].
  apply roc_bind; [apply roc_random_unit | intros r].
  apply roc_bind; [| intros x'; apply roc_bind; [exact IH | intros; apply roc_ret]].
  destruct (Qltb r c); [|apply roc_ret].
  apply roc_bind; [apply roc_mutate_individual | intros; apply roc_ret].
Qed.

Lemma roc_evaluate_invalid cfg pop : reads_only_consumed (evaluate_invalid cfg pop).
Proof.
  unfold evaluate_invalid. apply roc_mapMM. intros x. repeat roc_step.
Qed.

Lemma roc_generations_loop cfg select k pop :
  reads_only_consumed (generations_loop cfg select k pop).
Proof.
  revert pop. induction k as [|k IH]; intros pop; simpl; [apply roc_ret|].
  apply roc_bind.
  - unfold var_and. apply roc_bind; [apply roc_cx_pairs | intros; apply roc_mut_all].
  - intros offs. apply roc_bind; [apply roc_evaluate_invalid | intros offs'].
    apply roc_bind; [unfold stats_compile; repeat roc_step | intros; apply IH].
Qed.

Lemma roc_optimize cfg select : reads_only_consumed (optimize cfg select).
Proof.
  unfold optimize. apply roc_bind.
  - unfold init_population. apply roc_repeatM.
    apply roc_bind; [apply roc_repeatM, roc_randint | intros; apply roc_ret].
  - intros pop. apply roc_bind.
    + unfold ea_simple. apply roc_bind; [apply roc_evaluate_invalid | intros p].
      apply roc_bind; [unfold stats_compile; repeat roc_step | intros; apply roc_generations_loop].
    + intros; repeat roc_step.
Qed.

(** [cxTwoPoint] on two individuals of the same length [>= 2] returns two
    individuals of that length. *)
Lemma cx_two_point_total ind1 ind2 s n :
  length ind2 = length ind1 -> (2 <= length ind1)%nat ->
  exists c d n', cx_two_point ind1 ind2 s n = Some ((c, d), n') /\
    length c = length ind1 /\ length d = length ind1.
Proof.
  intros Hl H2. unfold cx_two_point. rewrite Hl, Nat.min_id.
  set (size := Z.of_nat (length ind1)).
  destruct (randint_some 1 size s n ltac:(unfold size; lia)) as [n1 E1].
  rewrite (bindM_Some _ _ _ _ _ _ E1). cbv beta.
  destruct (randint_some 1 (size - 1) s n1 ltac:(unfold size; lia)) as [n2 E2].
  rewrite (bindM_Some _ _ _ _ _ _ E2). cbv beta.
  set (c1 := 1 + s n mod (size - 1 + 1)).
  set (c2 := 1 + s n1 mod (size - 1 - 1 + 1)).
  assert (B1 : 1 <= c1 <= size).
  { unfold c1. pose proof (Z.mod_pos_bound (s n) (size - 1 + 1) ltac:(unfold size; lia)). lia. }
  assert (B2 : 1 <= c2 <= size - 1).
  { unfold c2. pose proof (Z.mod_pos_bound (s n1) (size - 1 - 1 + 1) ltac:(unfold size; lia)). lia. }
  clearbody c1 c2.
  assert (Hp : exists p1 p2, (if c1 <=? c2 then (c1, c2 + 1) else (c2, c1)) = (p1, p2) /\
                 0 <= p1 <= p2 /\ p2 <= size).
  { destruct (c1 <=? c2) eqn:E.
    - apply Z.leb_le in E. exists c1, (c2 + 1). split; [reflexivity | lia].
    - apply Z.leb_gt in E. exists c2, c1. split; [reflexivity | lia]. }
  destruct Hp as (p1 & p2 & -> & Hp1 & Hp2).
  eexists; eexists; exists n2. split; [reflexivity|].
  unfold slice. rewrite !length_app, !length_firstn, !length_skipn.
  unfold size in *. rewrite Hl. split; lia.
Qed.



(** With [generations <= 0], [eaSimple] runs no generation: the selection
    operator is never called and the best of the evaluated initial
    population is returned. *)
Lemma optimize_zero_generations cfg select s n :
  generations cfg <= 0 ->
  optimize cfg select s n =
  (pop <-- init_population cfg ;;
   pop' <-- evaluate_invalid cfg pop ;;
   _ <-- stats_compile pop' ;;
   best <-- lift (sel_best (cfg_mode cfg) pop') ;;
   lift (final_result cfg (genes best))) s n.
Proof.
  intros Hg. unfold optimize, ea_simple, bindM.
  assert (E : Z.to_nat (generations cfg) = 0%nat) by lia. rewrite E.
  destruct (init_population cfg s n) as [[pop n1]|]; [|reflexivity].
  destruct (evaluate_invalid cfg pop s n1) as [[pop' n2]|]; [|reflexivity].
  destruct (stats_compile pop' s n2) as [[u n3]|]; reflexivity.
Qed.

(** With [population_size <= 0] the initial population is empty and the
    statistics of [eaSimple] ([np.min] of an empty array) raise before any
    generation. *)
Lemma optimize_empty_population cfg select s n :
  population_size cfg <= 0 -> optimize cfg select s n = None.
Proof.
  intros Hp. unfold optimize, ea_simple, init_population.
  assert (E : Z.to_nat (population_size cfg) = 0%nat) by lia.
  rewrite E. reflexivity.
Qed.

(** C7 (counterexample): the scenario configured with [generations = 0] is
    not rejected: the run returns a result, the same for every selection
    operator. *)
Lemma zero_generations_run_accepted : exists r n, forall select,
  optimize Scenario.cfg_abc_gen0 select Scenario.all_zero_draws 0%nat = Some (r, n).
Proof.
  destruct ((pop <-- init_population Scenario.cfg_abc_gen0 ;;
             pop' <-- evaluate_invalid Scenario.cfg_abc_gen0 pop ;;
             _ <-- stats_compile pop' ;;
             best <-- lift (sel_best (cfg_mode Scenario.cfg_abc_gen0) pop') ;;
             lift (final_result Scenario.cfg_abc_gen0 (genes best))) Scenario.all_zero_draws 0%nat)
    as [[r n]|] eqn:E.
  - exists r, n. intros select.
    rewrite (optimize_zero_generations Scenario.cfg_abc_gen0 select Scenario.all_zero_draws 0%nat
               (Z.le_refl 0)).
    exact E.
  - vm_compute in E. discriminate.
Qed.

(** A run over a generator with a constant value that makes every initial
    individual [g] and fires no crossover or mutation ends with a
    population of copies of [g], evaluated. *)
Lemma optimize_uniform_run cfg select z g n0 n1 f :
  selects_from select ->
  Qltb (unit_of z) (7 # 10) = false ->
  Qltb (unit_of z) (mutation_rate cfg) = false ->
  (0 < Z.to_nat (population_size cfg))%nat ->
  init_population cfg (fun _ => z) n0
    = Some (repeat (fresh g) (Z.to_nat (population_size cfg)), n1) ->
  evaluate_schedule cfg g = Some f ->
  exists n', optimize cfg select (fun _ => z) n0
    = (best <-- lift (sel_best (cfg_mode cfg)
                        (repeat {| genes := g; fitness := Some f |}
                                (Z.to_nat (population_size cfg)))) ;;
       lift (final_result cfg (genes best))) (fun _ => z) n'.
Proof.
  intros Hsel Hcx Hmu Hpos Hinit Hev.
  set (m := Z.to_nat (population_size cfg)) in *.
  set (x := {| genes := g; fitness := Some f |}).
  assert (He : evaluate_invalid cfg (repeat (fresh g) m) (fun _ => z) n1
               = Some (repeat x m, n1)).
  { clear Hinit Hpos. induction m as [|m IH]; [reflexivity|].
    unfold evaluate_invalid in *. simpl mapMM. cbn [fitness fresh].
    unfold bindM at 1. unfold bindM at 1. unfold lift at 1. rewrite Hev.
    cbn [ret]. unfold bindM at 1. rewrite IH. reflexivity. }
  destruct (generations_loop_uniform z cfg select x Hsel Hcx Hmu
              ltac:(discriminate) (Z.to_nat (generations cfg)) m n1 Hpos)
    as [n2 Hg].
  exists n2. unfold optimize.
  rewrite (bindM_Some _ _ _ _ _ _ Hinit).
  cbv beta.
  assert (Hea : ea_simple cfg select (repeat (fresh g) m) (fun _ => z) n1
                = Some (repeat x m, n2)).
  { unfold ea_simple. rewrite (bindM_Some _ _ _ _ _ _ He).
    destruct m as [|m']; [lia|]. exact Hg. }
  rewrite (bindM_Some _ _ _ _ _ _ Hea). reflexivity.
Qed.

(** C6 (counterexample): two runs of the scenario with the same
    configuration (there is no seed to fix) return different results when
    the global generator is in different states: total durations 3 and 4. *)
Lemma same_configuration_different_outputs : exists draws1 draws2 : nat -> Z, forall select, selects_from select ->
  exists r1 n1 r2 n2,
    optimize Scenario.cfg_abc select draws1 0%nat = Some (r1, n1) /\
    optimize Scenario.cfg_abc select draws2 0%nat = Some (r2, n2) /\
    total_duration r1 = 3 /\ total_duration r2 = 4.
Proof.
  exists Scenario.all_zero_draws, Scenario.all_one_draws. intros select Hsel.
  destruct (optimize_uniform_run Scenario.cfg_abc select Scenario.z0 [0; 0; 0] 0%nat 30%nat
              (inject_Z 3, 0, 0)%Q Hsel ltac:(reflexivity) ltac:(reflexivity)
              ltac:(vm_compute; lia) ltac:(vm_compute; reflexivity)
              ltac:(vm_compute; reflexivity)) as [n1 H1].
  destruct (optimize_uniform_run Scenario.cfg_abc select (Scenario.z0 - 6) [1; 1; 1] 0%nat 30%nat
              (inject_Z 4, 0, 0)%Q Hsel ltac:(reflexivity) ltac:(reflexivity)
              ltac:(vm_compute; lia) ltac:(vm_compute; reflexivity)
              ltac:(vm_compute; reflexivity)) as [n2 H2].
  unfold Scenario.all_zero_draws, Scenario.all_one_draws. rewrite H1, H2.
  eexists; exists n1; eexists; exists n2. split; [vm_compute; reflexivity|].
  split; [vm_compute; reflexivity|]. split; vm_compute; reflexivity.
Qed.

(** C3 (counterexample): a run of the scenario, under any selection
    operator that keeps [len(pop)] members of the population, returns
    [total_duration = 3], below the critical-path bound 6: with every draw
    equal to [z0] all genes are 0 (all three tasks start on day 0) and no
    crossover or mutation fires. *)
Lemma scenario_run_below_critical_path :
  exists draws : nat -> Z, forall select, selects_from select ->
    exists r n, optimize Scenario.cfg_abc select draws 0%nat = Some (r, n) /\
                total_duration r = 3.
Proof.
  exists Scenario.all_zero_draws. intros select Hsel.
  destruct (optimize_uniform_run Scenario.cfg_abc select Scenario.z0 [0; 0; 0] 0%nat 30%nat
              (inject_Z 3, 0, 0)%Q Hsel ltac:(reflexivity) ltac:(reflexivity)
              ltac:(vm_compute; lia) ltac:(vm_compute; reflexivity)
              ltac:(vm_compute; reflexivity)) as [n' Hn'].
  unfold Scenario.all_zero_draws. rewrite Hn'.
  eexists; exists n'. split; [vm_compute; reflexivity | vm_compute; reflexivity].
Qed.

(* ------------------------------------------------------------------ *)
(** ** The per-task figures of the result *)

Lemma In_insert_by {A} (key : A -> Z) x y l :
  In x (insert_by key y l) <-> y = x \/ In x l.
Proof.
  induction l as [|z l IH]; simpl; [tauto|].
  destruct (key y <=? key z); simpl; [tauto|]. rewrite IH. tauto.
Qed.

Lemma In_sort_by {A} (key : A -> Z) x l : In x (sort_by key l) <-> In x l.
Proof.
  induction l as [|y l IH]; simpl; [tauto|]. rewrite In_insert_by, IH. tauto.
Qed.

Lemma Forall2_In_r {A B} (R : A -> B -> Prop) l k y :
  Forall2 R l k -> In y k -> exists x, In x l /\ R x y.
Proof.
  induction 1 as [|a b l k Hab _ IH]; [intros []|].
  intros [<- | Hy]; [exists a; split; [left|]; auto|].
  destruct (IH Hy) as (x & Hx & R'). exists x. split; [right|]; auto.
Qed.

Lemma qsum_zero {A} (f : A -> Q) l : (forall x, In x l -> f x == 0)%Q -> (qsum f l == 0)%Q.
Proof.
  induction l as [|x l IH]; simpl; intros H; [reflexivity|].
  rewrite (H x (or_introl eq_refl)), IH; [ring | auto].
Qed.

Lemma claimed_cells_idle fa sch d r :
  ~ (exists it, In it sch /\ task_active (snd it) d = true) ->
  (claimed_day_cost fa sch d r == 0)%Q /\ (claimed_day_carbon fa sch d r == 0)%Q.
Proof.
  intros Hn. split; apply qsum_zero; intros it Hit;
    destruct (task_active (snd it) d) eqn:E; try reflexivity;
    exfalso; apply Hn; exists it; auto.
Qed.

(** A cell read by [optimize] is the specification's aggregate over all
    active tasks. *)
Lemma cell_cost_aggregate rts fa sch d r :
  In r rts ->
  (cell_cost (calculate_daily_resource_usage rts sch fa) d r
     == claimed_day_cost fa sch d r)%Q /\
  (cell_carbon (calculate_daily_resource_usage rts sch fa) d r
     == claimed_day_carbon fa sch d r)%Q.
Proof.
  intros Hr. destruct (ledger_cells rts fa sch d r Hr) as [H1 H2].
  unfold cell_cost, cell_carbon.
  destruct (calculate_daily_resource_usage rts sch fa !! d) as [e|] eqn:E.
  - destruct (H2 e eq_refl) as [_ [[c1 [C1 E1]] [c2 [C2 E2]]]].
    rewrite C1, C2. split; [exact E1 | exact E2].
  - destruct (claimed_cells_idle fa sch d r (proj1 H1 eq_refl)) as [Z1 Z2].
    split; symmetry; assumption.
Qed.

(** C10: in the result of [optimize], each task's reported cost (carbon) is
    the sum, over the resource types the task names and the days
    [start .. start + duration - 1] of its schedule entry, of the ledger
    cell, and each cell is the aggregate over every task active that day
    (the specification's [claimed_day_cost], [claimed_day_carbon]).  So the
    costs of tasks sharing a resource type on a day each include the other
    task's share: two tasks P and Q that each need one crane on days 0 and 1
    report 4000 each, 8000 in all, against a [total_cost] of 4000. *)
Theorem task_cost_reads_aggregated_cells :
  (forall cfg best r,
     final_result cfg best = Some r ->
     let fa := adjustment_factors (cfg_mode cfg) in
     exists sch,
       create_schedule_dict (cfg_mode cfg) (cfg_tasks cfg) best = Some sch /\
       forall it, In it (res_schedule r) ->
         exists t info,
           In t (cfg_tasks cfg) /\ dict_get (t_id t) sch = Some info /\
           item_task it = t_id t /\ item_start it = si_start info /\
           item_end it = si_start info + si_duration info /\
           item_resources it = map fst (t_resources t) /\
           (item_cost it ==
              qsum (fun rt => qsum (fun d => claimed_day_cost fa sch d rt)
                     (zrange (si_start info) (si_start info + si_duration info)))
                (map fst (t_resources t)))%Q /\
           (item_carbon it ==
              qsum (fun rt => qsum (fun d => claimed_day_carbon fa sch d rt)
                     (zrange (si_start info) (si_start info + si_duration info)))
                (map fst (t_resources t)))%Q) /\
  (exists r, final_result Overlap.cfg_pq Overlap.both_at_0 = Some r /\
     (total_cost r == 4000)%Q /\ (qsum item_cost (res_schedule r) == 8000)%Q).
Proof.
  split.
  - intros cfg best r H fa. unfold final_result in H.
    apply bind_Some in H as (sch & Hsch & H).
    apply bind_Some in H as (ends & _ & H).
    apply bind_Some in H as (td & _ & H).
    apply bind_Some in H as (items & Hitems & H).
    injection H as <-. exists sch. split; [exact Hsch|].
    intros it Hit. simpl in Hit. apply In_sort_by in Hit.
    apply mapM_Some_1 in Hitems.
    destruct (Forall2_In_r _ _ _ _ Hitems Hit) as (t & Ht & Hti).
    apply bind_Some in Hti as (info & Hinfo & Hti). injection Hti as <-.
    exists t, info. do 6 (split; [first [assumption | reflexivity] |]).
    assert (Hrt : forall rt, In rt (map fst (t_resources t)) ->
                  In rt (resource_types cfg)).
    { intros rt Hrt. apply in_map_iff in Hrt as (rq & <- & Hrq).
      exact (extract_resource_types_complete _ t rq Ht Hrq). }
    split; simpl; apply qsum_ext; intros rt Hin; apply qsum_ext; intros d _;
      apply (cell_cost_aggregate _ _ _ d rt (Hrt rt Hin)).
  - eexists. split; [vm_compute; reflexivity|]. split; vm_compute; reflexivity.
Qed.

(** The utilization figures of [GeneticAlgorithmScheduler.optimize] lie in
    [0, 100]. *)
Lemma length_zrange a b : length (zrange a b) = Z.to_nat (b - a).
Proof. unfold zrange. rewrite length_map, length_seq. reflexivity. Qed.

Lemma utilization_bounds L rt : (0 <= utilization L rt <= 100)%Q.
Proof.
  unfold utilization.
  set (md := ledger_max_day L).
  set (a := Z.of_nat (length (List.filter (day_uses L rt) (zrange 0 (md + 1))))).
  destruct (0 <? md) eqn:E; [|split; discriminate].
  apply Z.ltb_lt in E.
  assert (Ha : 0 <= a <= md + 1).
  { unfold a. pose proof (List.filter_length_le (day_uses L rt) (zrange 0 (md + 1))).
    rewrite length_zrange in H. lia. }
  assert (Hm : (inject_Z 0 < inject_Z (md + 1))%Q) by (rewrite <- Zlt_Qlt; lia).
  split.
  - apply Qmult_le_0_compat; [|discriminate].
    apply Qle_shift_div_l; [exact Hm|]. rewrite Qmult_0_l.
    change 0%Q with (inject_Z 0). rewrite <- Zle_Qle. lia.
  - apply (Qle_trans _ (1 * 100)); [| vm_compute; discriminate].
    apply Qmult_le_compat_r; [|discriminate].
    apply Qle_shift_div_r; [exact Hm|]. rewrite Qmult_1_l.
    rewrite <- Zle_Qle. lia.
Qed.

(** Every [resource_utilization] value returned by
    [GeneticAlgorithmScheduler.optimize] lies in [0, 100]. *)
Theorem scheduler_utilization_bounded cfg best r :
  final_result cfg best = Some r ->
  forall rt u, In (rt, u) (resource_utilization r) -> (0 <= u <= 100)%Q.
Proof.
  intros H rt u Hin. unfold final_result in H.
  apply bind_Some in H as (sch & _ & H).
  apply bind_Some in H as (ends & _ & H).
  apply bind_Some in H as (td & _ & H).
  apply bind_Some in H as (items & _ & H).
  injection H as <-. simpl in Hin.
  apply in_map_iff in Hin as (rt' & Heq & _). injection Heq as <- <-.
  apply utilization_bounds.
Qed.

Lemma scheduler_utilization_bounded_witness :
  exists r, final_result Overlap.cfg_pq Overlap.both_at_0 = Some r /\
    In ("Crane"%string, 200 # 2) (resource_utilization r) /\
    (0 <= 200 # 2 <= 100)%Q.
Proof.
  destruct (final_result Overlap.cfg_pq Overlap.both_at_0) as [r|] eqn:E.
  - assert (Hin : In ("Crane"%string, 200 # 2) (resource_utilization r)).
    { vm_compute in E. injection E as <-. simpl. left. reflexivity. }
    exists r. split; [reflexivity|]. split; [exact Hin|].
    exact (scheduler_utilization_bounded _ _ _ E "Crane" _ Hin).
  - vm_compute in E. discriminate.
Defined.

(* ------------------------------------------------------------------ *)
(** ** The remaining claims *)

Lemma keep_select_selects_from : selects_from Scenario.keep_select.
Proof.
  intros pop. unfold Scenario.keep_select. rewrite firstn_all. split; auto.
Qed.

(** C3 (amended): on the scenario (A 2 days, B 3 days after A, C 1 day
    after A and B; standard mode; population 10; 5 generations), every run
    that returns, under any selection operator that keeps [len(pop)]
    members of the population, has [total_duration >= 3], the adjusted
    duration of its longest task: all genes stay non-negative and each task
    ends at its start plus its adjusted duration.  Dependencies are not
    enforced, so the bound is not the critical path 6. *)
Theorem scenario_total_duration_at_least_3 (select : selector) (draws : nat -> Z)
    (n : nat) (r : opt_result) (n' : nat) :
  selects_from select ->
  optimize Scenario.cfg_abc select draws n = Some (r, n') ->
  3 <= total_duration r.
Proof.
  intros Hsel H.
  assert (Hd : Forall (fun t => 0 <= t_duration t) (cfg_tasks Scenario.cfg_abc))
    by (repeat constructor; simpl; lia).
  destruct (optimize_best_nonneg _ _ _ _ _ _ Hsel Hd H) as (best & Hb & Hf).
  assert (Hn : NoDup (task_ids Scenario.cfg_abc))
    by (apply (bool_decide_unpack _); vm_compute; reflexivity).
  exact (final_result_duration_lb Scenario.cfg_abc best r Scenario.tB Hb Hn Hf
           ltac:(simpl; auto)).
Qed.

Lemma scenario_total_duration_at_least_3_witness :
  exists r n', optimize Scenario.cfg_abc Scenario.keep_select Scenario.all_zero_draws 0%nat
                 = Some (r, n') /\ 3 <= total_duration r.
Proof.
  destruct (optimize Scenario.cfg_abc Scenario.keep_select Scenario.all_zero_draws 0%nat)
    as [[r n']|] eqn:E.
  - exists r, n'. split; [reflexivity|].
    exact (scenario_total_duration_at_least_3 _ _ _ _ _ keep_select_selects_from E).
  - vm_compute in E. discriminate.
Defined.

(** C6 (amended): the scheduler takes no seed; a run's result is a
    function of the configuration, the selection operator and the values
    it draws from the generator.  A run that returns after reading draws
    [n .. n'-1] returns the same result on any generator that yields the
    same values there. *)
Theorem optimize_depends_only_on_draws (cfg : ga_config) (select : selector)
    (s1 s2 : nat -> Z) (n : nat) (r : opt_result) (n' : nat) :
  optimize cfg select s1 n = Some (r, n') ->
  (forall i, (n <= i < n')%nat -> s1 i = s2 i) ->
  optimize cfg select s2 n = Some (r, n').
Proof.
  intros H E. exact (proj2 (roc_optimize cfg select s1 s2 n r n' H) E).
Qed.

Lemma optimize_depends_only_on_draws_witness :
  exists r n', optimize Scenario.cfg_abc Scenario.keep_select Scenario.all_zero_draws 0%nat
                 = Some (r, n') /\
               optimize Scenario.cfg_abc Scenario.keep_select
                 (fun i => if (i <? 200)%nat then Scenario.z0 else 0) 0%nat
                 = Some (r, n').
Proof.
  destruct (optimize Scenario.cfg_abc Scenario.keep_select Scenario.all_zero_draws 0%nat)
    as [[r n']|] eqn:E.
  - exists r, n'. split; [reflexivity|].
    assert (Hn : n' = 105%nat) by (vm_compute in E; injection E as _ <-; reflexivity).
    apply (optimize_depends_only_on_draws _ _ _ _ _ _ _ E).
    intros i Hi. unfold Scenario.all_zero_draws.
    destruct (Nat.ltb_spec i 200); [reflexivity | lia].
  - vm_compute in E. discriminate.
Defined.

Lemma unit_of_lt_1 z : (unit_of z < 1)%Q.
Proof.
  unfold unit_of, Qlt. simpl. rewrite Z.mul_1_r.
  pose proof (Z.mod_pos_bound z (2 ^ 53) ltac:(lia)). lia.
Qed.

Lemma unit_of_ge_0 z : (0 <= unit_of z)%Q.
Proof.
  unfold unit_of, Qle. simpl. rewrite Z.mul_1_r.
  pose proof (Z.mod_pos_bound z (2 ^ 53) ltac:(lia)). lia.
Qed.

Lemma Qltb_true x y : Qltb x y = true <-> (x < y)%Q.
Proof.
  unfold Qltb. rewrite negb_true_iff. split; intros H.
  - apply Qnot_le_lt. intros H'. apply Qle_bool_iff in H'. congruence.
  - destruct (Qle_bool y x) eqn:E; [|reflexivity].
    apply Qle_bool_iff in E. exfalso. apply (Qlt_not_le _ _ H E).
Qed.

Lemma same_draw_test_neg a : (a < 0)%Q -> same_draw_test a 0.
Proof.
  intros Ha z. pose proof (unit_of_ge_0 z).
  destruct (Qltb (unit_of z) a) eqn:E1; destruct (Qltb (unit_of z) 0) eqn:E2; try reflexivity.
  - apply Qltb_true in E1. lra.
  - apply Qltb_true in E2. lra.
Qed.

Lemma same_draw_test_gt1 a : (1 < a)%Q -> same_draw_test a 1.
Proof.
  intros Ha z. pose proof (unit_of_lt_1 z).
  assert (Qltb (unit_of z) a = true) as -> by (apply Qltb_true; lra).
  symmetry. apply Qltb_true. exact H.
Qed.

Lemma foldM_ext {A B} (f g : A -> B -> M A) l a s n :
  (forall a x n, f a x s n = g a x s n) -> foldM f l a s n = foldM g l a s n.
Proof.
  intros H. revert a n. induction l as [|x l IH]; intros a n; simpl; [reflexivity|].
  unfold bindM. rewrite H. destruct (g a x s n) as [[a' n']|]; [apply IH | reflexivity].
Qed.

Lemma mutate_individual_same_test cfg a b ind s n :
  same_draw_test a b ->
  mutate_individual cfg a ind s n = mutate_individual cfg b ind s n.
Proof.
  intros H. unfold mutate_individual. apply foldM_ext. intros cur i m.
  unfold mutate_gene, bindM, random_unit, bindM, draw, ret. cbn.
  rewrite (H (s m)). reflexivity.
Qed.

Lemma mut_all_same_test cfg r mutpb1 mutpb2 offs s n :
  same_draw_test (mutation_rate cfg) r -> same_draw_test mutpb1 mutpb2 ->
  mut_all cfg mutpb1 offs s n = mut_all (with_mutation_rate cfg r) mutpb2 offs s n.
Proof.
  intros Hr Hp. revert n. induction offs as [|x offs IH]; intros n; [reflexivity|].
  cbn [mut_all]. unfold bindM at 1, random_unit, bindM at 1, draw, ret. cbn.
  rewrite (Hp (s n)).
  destruct (Qltb (unit_of (s n)) mutpb2).
  - unfold bindM. cbn [mutation_rate with_mutation_rate].
    change (mutate_individual (with_mutation_rate cfg r)) with (mutate_individual cfg).
    rewrite <- (mutate_individual_same_test cfg _ _ (genes x) s (S n) Hr).
    destruct (mutate_individual cfg (mutation_rate cfg) (genes x) s (S n)) as [[g n1]|];
      [|reflexivity].
    cbn. rewrite IH. reflexivity.
  - unfold bindM. cbn. rewrite IH. reflexivity.
Qed.

Lemma generations_loop_same_test cfg r select k pop s n :
  same_draw_test (mutation_rate cfg) r ->
  generations_loop cfg select k pop s n =
  generations_loop (with_mutation_rate cfg r) select k pop s n.
Proof.
  intros Hr. revert pop n. induction k as [|k IH]; intros pop n; [reflexivity|].
  cbn [generations_loop]. unfold var_and, bindM.
  destruct (cx_pairs (7 # 10) (select pop (length pop)) s n) as [[o n1]|]; [|reflexivity].
  cbn [mutation_rate with_mutation_rate].
  rewrite (mut_all_same_test cfg r (mutation_rate cfg) r o s n1 Hr Hr).
  destruct (mut_all (with_mutation_rate cfg r) r o s n1) as [[o' n2]|]; [|reflexivity].
  change (evaluate_invalid (with_mutation_rate cfg r)) with (evaluate_invalid cfg).
  destruct (evaluate_invalid cfg o' s n2) as [[o'' n3]|]; [|reflexivity].
  destruct (stats_compile o'' s n3) as [[u n4]|]; [|reflexivity].
  apply IH.
Qed.

Lemma optimize_same_test cfg r select s n :
  same_draw_test (mutation_rate cfg) r ->
  optimize cfg select s n = optimize (with_mutation_rate cfg r) select s n.
Proof.
  intros Hr. unfold optimize, ea_simple, bindM.
  change (init_population (with_mutation_rate cfg r)) with (init_population cfg).
  destruct (init_population cfg s n) as [[pop n1]|]; [|reflexivity].
  change (evaluate_invalid (with_mutation_rate cfg r)) with (evaluate_invalid cfg).
  destruct (evaluate_invalid cfg pop s n1) as [[pop' n2]|]; [|reflexivity].
  destruct (stats_compile pop' s n2) as [[u n3]|]; [|reflexivity].
  change (generations (with_mutation_rate cfg r)) with (generations cfg).
  rewrite (generations_loop_same_test cfg r select _ pop' s n3 Hr).
  reflexivity.
Qed.

Lemma index_of_in x l : In x l -> exists j, index_of x l = Some j /\ (j < length l)%nat.
Proof.
  induction l as [|y l IH]; intros H; [destruct H|]. simpl.
  destruct (String.eqb_spec x y) as [->|Hne].
  - exists 0%nat. split; [reflexivity | lia].
  - destruct H as [<-|H]; [congruence|].
    destruct (IH H) as (j & Hj & Hl). exists (S j). rewrite Hj. split; [reflexivity | lia].
Qed.

Lemma min_start_of_some cfg cur t :
  Forall (fun t => Forall (fun d => In d (task_ids cfg)) (t_deps t)) (cfg_tasks cfg) ->
  length cur = length (cfg_tasks cfg) -> In t (cfg_tasks cfg) ->
  exists lo, min_start_of cfg cur t = Some lo.
Proof.
  intros Hdeps Hlen Ht. unfold min_start_of.
  pose proof (proj1 (List.Forall_forall _ _) Hdeps t Ht) as Hd. cbn beta in Hd.
  destruct (t_deps t) as [|d ds] eqn:Eds; [eexists; reflexivity|].
  assert (Hs : is_Some (mapM (dep_end cfg cur) (d :: ds))).
  { apply mapM_is_Some_2. apply List.Forall_forall. intros x Hx.
    pose proof (proj1 (List.Forall_forall _ _) Hd x Hx) as Hxi.
    destruct (index_of_in _ _ Hxi) as (j & Hj & Hjl).
    unfold task_ids in Hjl. rewrite length_map in Hjl.
    unfold compose, dep_end. rewrite Hj. cbn.
    destruct (lookup_lt_is_Some_2 cur j ltac:(lia)) as [g Hg]. rewrite Hg. cbn.
    destruct (lookup_lt_is_Some_2 (cfg_tasks cfg) j Hjl) as [u Hu]. rewrite Hu.
    eexists; reflexivity. }
  destruct Hs as [ends Hends]. rewrite Hends. cbn.
  apply length_mapM in Hends. destruct ends as [|e es]; [discriminate|].
  eexists; reflexivity.
Qed.

Lemma mutate_gene_total cfg indpb cur i s n :
  Forall (fun t => 0 <= t_duration t) (cfg_tasks cfg) ->
  Forall (fun t => Forall (fun d => In d (task_ids cfg)) (t_deps t)) (cfg_tasks cfg) ->
  length cur = length (cfg_tasks cfg) -> (i < length cur)%nat ->
  exists cur' n', mutate_gene cfg indpb cur i s n = Some (cur', n') /\
                  length cur' = length cur.
Proof.
  intros Hdur Hdeps Hlen Hi. unfold mutate_gene.
  rewrite (bindM_Some random_unit _ s n (unit_of (s n)) (S n) eq_refl).
  destruct (Qltb (unit_of (s n)) indpb).
  - destruct (lookup_lt_is_Some_2 (cfg_tasks cfg) i ltac:(lia)) as [t Ht].
    assert (HtIn : In t (cfg_tasks cfg))
      by (apply list_elem_of_In; exact (list_elem_of_lookup_2 _ _ _ Ht)).
    rewrite (bindM_Some (lift (cfg_tasks cfg !! i)) _ s (S n) t (S n))
      by (rewrite Ht; reflexivity).
    destruct (min_start_of_some cfg cur t Hdeps Hlen HtIn) as [lo Hlo].
    rewrite (bindM_Some (lift (min_start_of cfg cur t)) _ s (S n) lo (S n))
      by (rewrite Hlo; reflexivity).
    pose proof (proj1 (List.Forall_forall _ _) Hdur t HtIn) as Hd. cbn beta in Hd.
    destruct (randint_some lo (lo + t_duration t * 2) s (S n) ltac:(lia)) as [n2 Hr].
    rewrite (bindM_Some _ _ s (S n) _ n2 Hr).
    eexists _, n2. split; [reflexivity | apply length_insert].
  - exists cur, (S n). split; reflexivity.
Qed.

Lemma foldM_total {A B} (P : A -> Prop) (Q : B -> Prop) (f : A -> B -> M A) l a s n :
  Forall Q l -> P a ->
  (forall a0 x n0, P a0 -> Q x -> exists a1 n1, f a0 x s n0 = Some (a1, n1) /\ P a1) ->
  exists a' n', foldM f l a s n = Some (a', n') /\ P a'.
Proof.
  intros Hl. revert a n. induction Hl as [|x l Hx Hl IH]; intros a n Ha Hf.
  - exists a, n. split; [reflexivity | exact Ha].
  - destruct (Hf a x n Ha Hx) as (a1 & n1 & E & Ha1). cbn [foldM].
    rewrite (bindM_Some _ _ s n a1 n1 E). exact (IH a1 n1 Ha1 Hf).
Qed.

Lemma mutate_individual_total cfg indpb ind s n :
  Forall (fun t => 0 <= t_duration t) (cfg_tasks cfg) ->
  Forall (fun t => Forall (fun d => In d (task_ids cfg)) (t_deps t)) (cfg_tasks cfg) ->
  length ind = length (cfg_tasks cfg) ->
  exists ind' n', mutate_individual cfg indpb ind s n = Some (ind', n') /\
                  length ind' = length ind.
Proof.
  intros Hdur Hdeps Hlen. unfold mutate_individual.
  apply (foldM_total (fun a => length a = length ind) (fun i => (i < length ind)%nat)).
  - apply List.Forall_forall. intros i Hi. apply in_seq in Hi. lia.
  - reflexivity.
  - intros a0 i n0 Ha Hi.
    destruct (mutate_gene_total cfg indpb a0 i s n0 Hdur Hdeps ltac:(lia) ltac:(lia))
      as (a1 & n1 & E & L). exists a1, n1. split; [exact E | lia].
Qed.

(** C7 (amended): nothing validates the configuration.  With
    [generations <= 0] the run performs no generation and returns the best
    of the evaluated initial population; with [population_size <= 0] it
    raises only through the statistics of the empty initial population
    (numpy's [ValueError]), before any generation; a mutation rate outside
    [0, 1] is accepted: below 0 the run is the run with rate 0, above 1 the
    run with rate 1 ([random() < rate] is then never, resp. always, true). *)
Theorem optimize_configuration_unchecked (cfg : ga_config) (select : selector)
    (s : nat -> Z) (n : nat) :
  (generations cfg <= 0 ->
   optimize cfg select s n =
   (pop <-- init_population cfg ;;
    pop' <-- evaluate_invalid cfg pop ;;
    _ <-- stats_compile pop' ;;
    best <-- lift (sel_best (cfg_mode cfg) pop') ;;
    lift (final_result cfg (genes best))) s n) /\
  (population_size cfg <= 0 -> optimize cfg select s n = None) /\
  ((mutation_rate cfg < 0)%Q ->
   optimize cfg select s n = optimize (with_mutation_rate cfg 0) select s n) /\
  ((1 < mutation_rate cfg)%Q ->
   optimize cfg select s n = optimize (with_mutation_rate cfg 1) select s n).
Proof.
  split; [apply optimize_zero_generations|].
  split; [apply optimize_empty_population|].
  split; intros H; apply optimize_same_test.
  - apply same_draw_test_neg. exact H.
  - apply same_draw_test_gt1. exact H.
Qed.

Lemma optimize_configuration_unchecked_witness :
  optimize Scenario.cfg_abc_gen0 Scenario.keep_select Scenario.all_zero_draws 0%nat =
  (pop <-- init_population Scenario.cfg_abc_gen0 ;;
   pop' <-- evaluate_invalid Scenario.cfg_abc_gen0 pop ;;
   _ <-- stats_compile pop' ;;
   best <-- lift (sel_best standard pop') ;;
   lift (final_result Scenario.cfg_abc_gen0 (genes best))) Scenario.all_zero_draws 0%nat /\
  optimize {| cfg_tasks := cfg_tasks Scenario.cfg_abc; population_size := 0;
              generations := 5; mutation_rate := 1 # 10; max_cost := None;
              cfg_mode := standard |}
    Scenario.keep_select Scenario.all_zero_draws 0%nat = None /\
  optimize (with_mutation_rate Scenario.cfg_abc 2) Scenario.keep_select
    Scenario.all_zero_draws 0%nat =
  optimize (with_mutation_rate (with_mutation_rate Scenario.cfg_abc 2) 1)
    Scenario.keep_select Scenario.all_zero_draws 0%nat /\
  is_Some (optimize (with_mutation_rate Scenario.cfg_abc 2) Scenario.keep_select
             Scenario.all_zero_draws 0%nat) /\
  optimize (with_mutation_rate Scenario.cfg_abc (-1)) Scenario.keep_select
    Scenario.all_zero_draws 0%nat =
  optimize (with_mutation_rate (with_mutation_rate Scenario.cfg_abc (-1)) 0)
    Scenario.keep_select Scenario.all_zero_draws 0%nat.
Proof.
  split.
  - apply (proj1 (optimize_configuration_unchecked Scenario.cfg_abc_gen0
                    Scenario.keep_select Scenario.all_zero_draws 0%nat)).
    simpl. lia.
  - split.
    + apply (proj1 (proj2 (optimize_configuration_unchecked _ Scenario.keep_select
                             Scenario.all_zero_draws 0%nat))).
      simpl. lia.
    + split; [|split].
      * apply (proj2 (proj2 (proj2 (optimize_configuration_unchecked
                 (with_mutation_rate Scenario.cfg_abc 2) Scenario.keep_select
                 Scenario.all_zero_draws 0%nat)))).
        reflexivity.
      * vm_compute. eexists. reflexivity.
      * apply (proj1 (proj2 (proj2 (optimize_configuration_unchecked
                 (with_mutation_rate Scenario.cfg_abc (-1)) Scenario.keep_select
                 Scenario.all_zero_draws 0%nat)))).
        reflexivity.
Defined.

(** C9 (amended): for task durations [>= 0] and a candidate of
    non-negative entries, a mutation that returns gives a candidate of the
    same length with non-negative entries; when moreover every dependency
    names a task and the candidate has one entry per task, the mutation
    always returns.  The two-point crossover of two candidates of the same
    length [>= 2] always returns two candidates of that length with
    non-negative entries. *)
Theorem mutation_crossover_closure (cfg : ga_config) (indpb : Q) (ind : list Z)
    (s : nat -> Z) (n : nat) :
  Forall (fun t => 0 <= t_duration t) (cfg_tasks cfg) ->
  Forall (Z.le 0) ind ->
  (forall ind' n', mutate_individual cfg indpb ind s n = Some (ind', n') ->
     length ind' = length ind /\ Forall (Z.le 0) ind') /\
  (Forall (fun t => Forall (fun d => In d (task_ids cfg)) (t_deps t)) (cfg_tasks cfg) ->
   length ind = length (cfg_tasks cfg) ->
   exists ind' n', mutate_individual cfg indpb ind s n = Some (ind', n') /\
     length ind' = length ind /\ Forall (Z.le 0) ind') /\
  (forall ind2, length ind2 = length ind -> (2 <= length ind)%nat ->
     Forall (Z.le 0) ind2 ->
     exists c d n', cx_two_point ind ind2 s n = Some ((c, d), n') /\
       length c = length ind /\ length d = length ind /\
       Forall (Z.le 0) c /\ Forall (Z.le 0) d).
Proof.
  intros Hd Hi. split; [|split].
  - intros ind' n' H.
    destruct (mutate_individual_nonneg _ _ _ _ _ _ _ Hd Hi H) as [H1 H2].
    split; assumption.
  - intros Hdeps Hlen.
    destruct (mutate_individual_total cfg indpb ind s n Hd Hdeps Hlen) as (ind' & n' & E & L).
    destruct (mutate_individual_nonneg _ _ _ _ _ _ _ Hd Hi E) as [H1 _].
    exists ind', n'. split; [exact E|]. split; assumption.
  - intros ind2 Hl H2 Hi2.
    destruct (cx_two_point_total ind ind2 s n Hl H2) as (c & d & n' & E & Lc & Ld).
    destruct (cx_two_point_Forall _ _ _ _ _ _ _ _ Hi Hi2 E) as [Fc Fd].
    exists c, d, n'. repeat split; assumption.
Qed.

Lemma mutation_crossover_closure_witness :
  (exists ind' n', mutate_individual Scenario.cfg_abc (1 # 10) [0; 0; 0]
                     Scenario.all_zero_draws 0%nat = Some (ind', n') /\
                   length ind' = 3%nat) /\
  (exists ind' n', mutate_individual Scenario.cfg_abc 1 [0; 0; 0]
                     Scenario.all_zero_draws 0%nat = Some (ind', n') /\
                   length ind' = 3%nat /\ Forall (Z.le 0) ind') /\
  (exists c d n', cx_two_point [0; 0; 0] [1; 1; 1] Scenario.all_zero_draws 0%nat
                    = Some ((c, d), n') /\ length c = 3%nat).
Proof.
  assert (Hd : Forall (fun t => 0 <= t_duration t) (cfg_tasks Scenario.cfg_abc))
    by (repeat constructor; simpl; lia).
  assert (Hi : Forall (Z.le 0) [0; 0; 0]) by (repeat constructor; lia).
  assert (Hdeps : Forall (fun t => Forall (fun d => In d (task_ids Scenario.cfg_abc)) (t_deps t))
                    (cfg_tasks Scenario.cfg_abc))
    by (vm_compute; repeat constructor; simpl; tauto).
  destruct (mutation_crossover_closure Scenario.cfg_abc (1 # 10) [0; 0; 0]
              Scenario.all_zero_draws 0%nat Hd Hi) as [M1 [_ M2]].
  split; [|split].
  - destruct (mutate_individual Scenario.cfg_abc (1 # 10) [0; 0; 0]
                Scenario.all_zero_draws 0%nat) as [[ind' n']|] eqn:E.
    + exists ind', n'. split; [reflexivity|]. exact (proj1 (M1 ind' n' eq_refl)).
    + vm_compute in E. discriminate.
  - destruct (proj1 (proj2 (mutation_crossover_closure Scenario.cfg_abc 1 [0; 0; 0]
              Scenario.all_zero_draws 0%nat Hd Hi)) Hdeps eq_refl)
      as (ind' & n' & E & L & F).
    exists ind', n'. split; [exact E|]. split; [exact L | exact F].
  - destruct (M2 [1; 1; 1] eq_refl ltac:(simpl; lia) ltac:(repeat constructor; lia))
      as (c & d & n' & E & Lc & _).
    exists c, d, n'. split; [exact E | exact Lc].
Defined.

(** C9 (counterexample): with a single task the candidates have length 1
    and [cxTwoPoint] raises ([randint(1, 0)]). *)
Theorem crossover_single_gene_raises :
  cx_two_point [0] [0] (fun _ => 0) 0%nat = None.
Proof. reflexivity. Qed.

(** C5 (code bug): the mutation's lower bound adds the dependency's raw
    duration, not its adjusted duration.  In eco mode with Pour (10 days)
    before Cure, candidate [0; 0], gene 1 is resampled from
    [randint(10, 12)] and can become 10, while the adjusted end of Pour is
    [0 + max(1, int(10 * 1.1)) = 11]. *)
Theorem mutation_lower_bound_uses_raw_duration :
  mutate_individual Mutation.cfg_pour (mutation_rate Mutation.cfg_pour) [0; 0]
    Mutation.draws 0%nat = Some ([0; 10], 3%nat) /\
  dep_end Mutation.cfg_pour [0; 0] "Pour" = Some 10 /\
  0 + adjusted_duration (adjustment_factors eco) (t_duration Mutation.tPour) = 11.
Proof. split; [|split]; vm_compute; reflexivity. Qed.

(** C4 (code bug): [ResourceOptimizer.optimize_schedule] divides by a
    [max_end_time] computed from raw durations while tasks occupy their
    adjusted durations: in eco mode, one 10-day task needing a crane gives
    the crane a utilization of 11 / 10 * 100 = 110. *)
Theorem resource_optimizer_utilization_exceeds_100 :
  exists r u, RO.optimize_schedule RO.eco_frame = Some r /\
    dict_get "Crane" (RO.ro_resource_utilization r) = Some u /\ (u == 110)%Q.
Proof.
  destruct (RO.optimize_schedule RO.eco_frame) as [r|] eqn:E.
  - exists r. vm_compute in E. injection E as <-. eexists.
    split; [reflexivity|]. split; [reflexivity|]. vm_compute. reflexivity.
  - vm_compute in E. discriminate.
Qed.

(** C8 (code bug): [order.reverse()] puts every task before its
    dependencies, so [earliest_start] reads a dependency's value before it
    is computed.  For A (2 days), B (3 days, after A), C (1 day, after A and
    B) in standard mode, C gets 3, not [max(0 + 2, 2 + 3) = 5]. *)
Theorem earliest_start_follows_reversed_order :
  RO.topological_order RO.abc = Some ["C"; "B"; "A"] /\
  RO.start_times RO.abc = Some [("C", 3); ("B", 2); ("A", 0)].
Proof. split; vm_compute; reflexivity. Qed.

(* ================================================================== *)
(** * Further properties of the code *)

Section GSum.
Context {K} `{Countable K} {A : Type} (f : A -> Q).

Lemma gsum_delete (m : gmap K A) i x :
  m !! i = Some x -> (gsum f m == gsum f (delete i m) + f x)%Q.
Proof.
  intros Hi. unfold gsum.
  apply (map_fold_delete Qeq (fun _ x acc => acc + f x)%Q 0%Q i x m); [| |exact Hi].
  - intros j z a b E. now rewrite E.
  - intros. ring.
Qed.

Lemma gsum_insert_new (m : gmap K A) i x :
  m !! i = None -> (gsum f (<[i := x]> m) == gsum f m + f x)%Q.
Proof.
  intros Hi. rewrite (gsum_delete (<[i:=x]> m) i x) by apply lookup_insert_eq.
  rewrite delete_insert_eq, delete_id by exact Hi. reflexivity.
Qed.

Lemma gsum_insert_over (m : gmap K A) i x y :
  m !! i = Some y -> (gsum f (<[i := x]> m) + f y == gsum f m + f x)%Q.
Proof.
  intros Hi. rewrite (gsum_delete (<[i:=x]> m) i x) by apply lookup_insert_eq.
  rewrite (gsum_delete m i y Hi), delete_insert_eq. ring.
Qed.

Lemma gsum_zero (m : gmap K A) :
  (forall i x, m !! i = Some x -> f x == 0)%Q -> (gsum f m == 0)%Q.
Proof.
  induction m as [|i x m Hi IH] using map_ind; intros Hz.
  - reflexivity.
  - rewrite gsum_insert_new by exact Hi.
    assert (E1 : (gsum f m == 0)%Q).
    { apply IH. intros j y Hj. apply (Hz j y).
      rewrite lookup_insert_ne; [exact Hj|]. intros ->. congruence. }
    assert (E2 : (f x == 0)%Q) by (apply (Hz i x); apply lookup_insert_eq).
    rewrite E1, E2. reflexivity.
Qed.
End GSum.

Lemma ledger_total_cost_gsum L :
  ledger_total_cost L = gsum (fun e => gsum (fun c => c) (de_cost e)) L.
Proof. reflexivity. Qed.

Lemma ledger_total_carbon_gsum L :
  ledger_total_carbon L = gsum (fun e => gsum (fun c => c) (de_carbon e)) L.
Proof. reflexivity. Qed.

Lemma gsum_bump (m : gmap string Q) k v x :
  m !! k = Some x -> (gsum (fun c => c) (bump Qplus k v m) == gsum (fun c => c) m + v)%Q.
Proof.
  intros Hk. unfold bump. rewrite Hk.
  pose proof (gsum_insert_over (fun c : Q => c) m k (x + v)%Q x Hk) as E.
  apply (Qplus_inj_r _ _ x). rewrite E. ring.
Qed.

Lemma bump_is_Some {A} (plus : A -> A -> A) k v (m : gmap string A) r :
  is_Some (m !! r) -> is_Some (bump plus k v m !! r).
Proof.
  intros [x Hx]. rewrite bump_lookup. destruct (String.eqb k r); rewrite Hx; simpl; eauto.
Qed.

Lemma zeros_lookup_inv {A} (z : A) rts r x : zeros z rts !! r = Some x -> x = z.
Proof.
  induction rts as [|rt rts IH]; simpl; intros H.
  - rewrite lookup_empty in H. discriminate.
  - destruct (decide (rt = r)) as [->|Hne].
    + rewrite lookup_insert_eq in H. congruence.
    + rewrite lookup_insert_ne in H by exact Hne. auto.
Qed.

Lemma gsum_zeros rts : (gsum (fun c => c) (zeros 0%Q rts) == 0)%Q.
Proof. apply gsum_zero. intros i x Hx. apply zeros_lookup_inv in Hx. subst. reflexivity. Qed.

Lemma add_resource_totals rts fa d L e rq :
  ledger_ok rts L -> L !! d = Some e ->
  let L' := add_resource rts fa d L rq in
  ledger_ok rts L' /\ is_Some (L' !! d) /\
  (ledger_total_cost L' == ledger_total_cost L +
     (if existsb (String.eqb (fst rq)) rts
      then inject_Z (snd rq * fst (base_rates (fst rq))) * f_cost fa else 0))%Q /\
  (ledger_total_carbon L' == ledger_total_carbon L +
     (if existsb (String.eqb (fst rq)) rts
      then inject_Z (snd rq * snd (base_rates (fst rq))) * f_carbon fa else 0))%Q.
Proof.
  intros Hok Hd. destruct rq as [rt q]. simpl.
  destruct (existsb (String.eqb rt) rts) eqn:Hin.
  2:{ split; [exact Hok|]. split; [rewrite Hd; eauto|]. split; ring. }
  rewrite Hd. destruct (base_rates rt) as [bc bcb] eqn:Hb. simpl.
  apply existsb_eqb_in in Hin.
  destruct (Hok d e Hd rt Hin) as [[c Hc] [cb Hcb]].
  set (e' := {| de_resources := bump Z.add rt q (de_resources e);
                de_cost := bump Qplus rt (inject_Z (q * bc) * f_cost fa)%Q (de_cost e);
                de_carbon := bump Qplus rt (inject_Z (q * bcb) * f_carbon fa)%Q
                               (de_carbon e) |}).
  split; [|split; [|split]].
  - intros d' e0 H0 r Hr. destruct (decide (d = d')) as [<-|Hne].
    + rewrite lookup_insert_eq in H0. injection H0 as <-. simpl.
      destruct (Hok d e Hd r Hr). split; apply bump_is_Some; assumption.
    + rewrite lookup_insert_ne in H0 by exact Hne. exact (Hok d' e0 H0 r Hr).
  - rewrite lookup_insert_eq. eauto.
  - rewrite !ledger_total_cost_gsum.
    pose proof (gsum_insert_over (fun e => gsum (fun c => c) (de_cost e)) L d e' e Hd) as E.
    pose proof (gsum_bump (de_cost e) rt (inject_Z (q * bc) * f_cost fa)%Q _ Hc) as E2.
    cbn beta in E. change (de_cost e') with (bump Qplus rt (inject_Z (q * bc) * f_cost fa)%Q (de_cost e)) in E.
    set (v := (inject_Z (q * bc) * f_cost fa)%Q) in *. rewrite (ledger_total_cost_gsum L). lra.
  - rewrite !ledger_total_carbon_gsum.
    pose proof (gsum_insert_over (fun e => gsum (fun c => c) (de_carbon e)) L d e' e Hd) as E.
    pose proof (gsum_bump (de_carbon e) rt (inject_Z (q * bcb) * f_carbon fa)%Q _ Hcb) as E2.
    cbn beta in E. change (de_carbon e') with (bump Qplus rt (inject_Z (q * bcb) * f_carbon fa)%Q (de_carbon e)) in E.
    set (v := (inject_Z (q * bcb) * f_carbon fa)%Q) in *. rewrite (ledger_total_carbon_gsum L). lra.
Qed.

Lemma add_resources_totals rts fa d res : forall L,
  ledger_ok rts L -> is_Some (L !! d) ->
  let L' := fold_left (add_resource rts fa d) res L in
  ledger_ok rts L' /\
  (ledger_total_cost L' == ledger_total_cost L + day_cost rts fa res)%Q /\
  (ledger_total_carbon L' == ledger_total_carbon L + day_carbon rts fa res)%Q.
Proof.
  induction res as [|rq res IH]; intros L Hok [e Hd]; simpl.
  - unfold day_cost, day_carbon. simpl. split; [exact Hok|]. split; ring.
  - destruct (add_resource_totals rts fa d L e rq Hok Hd) as (Hok' & Hs & Ec & Ecb).
    destruct (IH _ Hok' Hs) as (Hok'' & Ec' & Ecb').
    split; [exact Hok''|]. unfold day_cost, day_carbon in *. simpl.
    split; [rewrite Ec', Ec | rewrite Ecb', Ecb]; ring.
Qed.

Lemma touch_day_totals rts d L :
  ledger_ok rts L ->
  let L' := touch_day rts d L in
  ledger_ok rts L' /\ is_Some (L' !! d) /\
  (ledger_total_cost L' == ledger_total_cost L)%Q /\
  (ledger_total_carbon L' == ledger_total_carbon L)%Q.
Proof.
  intros Hok. unfold touch_day. destruct (L !! d) as [e|] eqn:Hd.
  - split; [exact Hok|]. split; [rewrite Hd; eauto|]. split; reflexivity.
  - split; [|split; [|split]].
    + intros d' e0 H0 r Hr. destruct (decide (d = d')) as [<-|Hne].
      * rewrite lookup_insert_eq in H0. injection H0 as <-. simpl.
        rewrite !zeros_lookup by exact Hr. split; eauto.
      * rewrite lookup_insert_ne in H0 by exact Hne. exact (Hok d' e0 H0 r Hr).
    + rewrite lookup_insert_eq. eauto.
    + rewrite (ledger_total_cost_gsum (<[d:=empty_entry rts]> L)), (ledger_total_cost_gsum L).
      rewrite gsum_insert_new by exact Hd. cbn beta. cbn [de_cost empty_entry].
      rewrite gsum_zeros. ring.
    + rewrite (ledger_total_carbon_gsum (<[d:=empty_entry rts]> L)), (ledger_total_carbon_gsum L).
      rewrite gsum_insert_new by exact Hd. cbn beta. cbn [de_carbon empty_entry].
      rewrite gsum_zeros. ring.
Qed.

Lemma blocks_totals rts fa bl : forall L,
  ledger_ok rts L ->
  let L' := fold_left (block_step rts fa) bl L in
  ledger_ok rts L' /\
  (ledger_total_cost L' == ledger_total_cost L +
     qsum (fun b => day_cost rts fa (snd b)) bl)%Q /\
  (ledger_total_carbon L' == ledger_total_carbon L +
     qsum (fun b => day_carbon rts fa (snd b)) bl)%Q.
Proof.
  induction bl as [|[d res] bl IH]; intros L Hok; simpl.
  - split; [exact Hok|]. split; ring.
  - unfold block_step at 2. simpl. unfold process_day.
    destruct (touch_day_totals rts d L Hok) as (Hok1 & Hs1 & Ec1 & Ecb1).
    destruct (add_resources_totals rts fa d res _ Hok1 Hs1) as (Hok2 & Ec2 & Ecb2).
    destruct (IH _ Hok2) as (Hok3 & Ec3 & Ecb3).
    split; [exact Hok3|].
    split; [rewrite Ec3, Ec2, Ec1 | rewrite Ecb3, Ecb2, Ecb1]; ring.
Qed.

Lemma qsum_const {A} (c : Q) (l : list A) :
  (qsum (fun _ => c) l == inject_Z (Z.of_nat (length l)) * c)%Q.
Proof.
  induction l as [|x l IH]; simpl.
  - ring.
  - rewrite IH, Nat2Z.inj_succ, <- Z.add_1_r, inject_Z_plus. ring.
Qed.

Lemma ledger_totals_sum rts sch fa :
  let L := calculate_daily_resource_usage rts sch fa in
  (ledger_total_cost L ==
     qsum (fun it => inject_Z (Z.max 0 (si_duration (snd it))) *
                     day_cost rts fa (si_resources (snd it))) sch)%Q /\
  (ledger_total_carbon L ==
     qsum (fun it => inject_Z (Z.max 0 (si_duration (snd it))) *
                     day_carbon rts fa (si_resources (snd it))) sch)%Q.
Proof.
  simpl. rewrite ledger_as_blocks.
  assert (Hok : ledger_ok rts ∅) by (intros d e H; rewrite lookup_empty in H; discriminate).
  destruct (blocks_totals rts fa (day_blocks sch) ∅ Hok) as (_ & Ec & Ecb).
  assert (Hlen : forall it : string * sched_info,
    inject_Z (Z.of_nat (length (zrange (si_start (snd it))
                       (si_start (snd it) + si_duration (snd it)))))
    = inject_Z (Z.max 0 (si_duration (snd it)))).
  { intros it. rewrite length_zrange. f_equal. lia. }
  unfold day_blocks in Ec, Ecb.
  rewrite qsum_flat_map in Ec, Ecb.
  split; [rewrite Ec | rewrite Ecb]; unfold ledger_total_cost, ledger_total_carbon;
    rewrite map_fold_empty, Qplus_0_l; apply qsum_ext; intros it _;
    rewrite qsum_map;
    [rewrite (qsum_ext _ (fun _ => day_cost rts fa (si_resources (snd it))))
       by (intros; reflexivity)
    |rewrite (qsum_ext _ (fun _ => day_carbon rts fa (si_resources (snd it))))
       by (intros; reflexivity)];
    rewrite qsum_const, Hlen; reflexivity.
Qed.

(** X2: The sum of all 'cost' cells of the ledger built by
    _calculate_daily_resource_usage equals the sum, over the schedule
    entries, of max(0, duration) times the cost one day of that entry adds;
    the same holds for the 'carbon' cells. *)
Theorem ledger_totals_per_task rts sch fa :
  let L := calculate_daily_resource_usage rts sch fa in
  (ledger_total_cost L ==
     qsum (fun it => inject_Z (Z.max 0 (si_duration (snd it))) *
                     day_cost rts fa (si_resources (snd it))) sch)%Q /\
  (ledger_total_carbon L ==
     qsum (fun it => inject_Z (Z.max 0 (si_duration (snd it))) *
                     day_carbon rts fa (si_resources (snd it))) sch)%Q.
Proof. exact (ledger_totals_sum rts sch fa). Qed.

Lemma dict_set_new {V} k (v : V) d : dict_get k d = None -> dict_set k v d = d ++ [(k, v)].
Proof.
  induction d as [|[k' v'] d IH]; simpl; intros H; [reflexivity|].
  destruct (String.eqb k k'); [discriminate|]. rewrite IH by exact H. reflexivity.
Qed.

Lemma dict_get_app {V} k (d1 d2 : pydict V) :
  dict_get k (d1 ++ d2) = match dict_get k d1 with Some v => Some v | None => dict_get k d2 end.
Proof.
  induction d1 as [|[k' v'] d1 IH]; simpl; [reflexivity|].
  destruct (String.eqb k k'); [reflexivity | exact IH].
Qed.

Lemma create_schedule_aux_shape fa tasks : forall ind acc,
  NoDup (map t_id tasks) -> (length tasks <= length ind)%nat ->
  (forall t, In t tasks -> dict_get (t_id t) acc = None) ->
  create_schedule_aux fa tasks ind acc
  = Some (acc ++ map (sched_entry fa) (combine tasks ind)).
Proof.
  induction tasks as [|t ts IH]; intros ind acc Hnd Hlen Hfresh; simpl.
  - rewrite app_nil_r. reflexivity.
  - destruct ind as [|g ind]; simpl in Hlen; [lia|].
    inversion Hnd as [|? ? Hnin Hnd']; subst.
    rewrite dict_set_new by (apply Hfresh; left; reflexivity).
    rewrite IH; [| exact Hnd' | lia |].
    + rewrite <- app_assoc. reflexivity.
    + intros t' Ht'. rewrite dict_get_app, Hfresh by (right; exact Ht'). simpl. destruct (String.eqb (t_id t') (t_id t)) eqn:E; [|reflexivity].
      apply String.eqb_eq in E. exfalso. apply Hnin. rewrite <- E. apply list_elem_of_In, in_map. exact Ht'.
Qed.

Lemma create_schedule_aux_length fa tasks : forall ind acc sch,
  create_schedule_aux fa tasks ind acc = Some sch -> (length tasks <= length ind)%nat.
Proof.
  induction tasks as [|t ts IH]; intros ind acc sch H; simpl; [lia|].
  destruct ind as [|g ind]; [discriminate|]. simpl in H. apply IH in H. simpl. lia.
Qed.

Lemma qsum_combine {A B} (h : A -> Q) (l1 : list A) : forall (l2 : list B),
  (length l1 <= length l2)%nat -> qsum (fun p => h (fst p)) (combine l1 l2) = qsum h l1.
Proof.
  induction l1 as [|x l1 IH]; intros [|y l2] Hl; simpl in *; try reflexivity; [lia|].
  rewrite IH by lia. reflexivity.
Qed.

Lemma adjusted_duration_pos fa d : 1 <= adjusted_duration fa d.
Proof. unfold adjusted_duration. lia. Qed.

Lemma schedule_totals cfg ind sch :
  NoDup (task_ids cfg) ->
  create_schedule_dict (cfg_mode cfg) (cfg_tasks cfg) ind = Some sch ->
  let fa := adjustment_factors (cfg_mode cfg) in
  let L := calculate_daily_resource_usage (resource_types cfg) sch fa in
  (ledger_total_cost L ==
     qsum (fun t => inject_Z (adjusted_duration fa (t_duration t)) * task_day_cost fa t)
       (cfg_tasks cfg))%Q /\
  (ledger_total_carbon L ==
     qsum (fun t => inject_Z (adjusted_duration fa (t_duration t)) * task_day_carbon fa t)
       (cfg_tasks cfg))%Q.
Proof.
  intros Hnd Hsch. cbv zeta.
  set (fa := adjustment_factors (cfg_mode cfg)) in *.
  pose proof (create_schedule_aux_length _ _ _ _ _ Hsch) as Hlen.
  unfold create_schedule_dict in Hsch.
  rewrite create_schedule_aux_shape in Hsch; [| exact Hnd | exact Hlen | reflexivity].
  injection Hsch as <-. cbn [app].
  destruct (ledger_totals_sum (resource_types cfg)
              (map (sched_entry fa) (combine (cfg_tasks cfg) ind)) fa) as [Ec Ecb].
  assert (Hrt : forall t rq, In t (cfg_tasks cfg) -> In rq (t_resources t) ->
            existsb (String.eqb (fst rq)) (resource_types cfg) = true).
  { intros t rq Ht Hrq. apply existsb_eqb_in.
    exact (extract_resource_types_complete _ _ _ Ht Hrq). }
  split; [eapply Qeq_trans; [exact Ec|] | eapply Qeq_trans; [exact Ecb|]];
    rewrite qsum_map.
  - set (h := fun t => (inject_Z (Z.max 0 (adjusted_duration fa (t_duration t))) *
                   day_cost (resource_types cfg) fa (t_resources t))%Q).
    transitivity (qsum (fun p => h (fst p)) (combine (cfg_tasks cfg) ind)).
    { apply qsum_ext. intros [t g] _. reflexivity. }
    rewrite (qsum_combine h _ _ Hlen).
    apply qsum_ext. intros t Ht. unfold h.
    unfold day_cost, task_day_cost.
    rewrite (qsum_ext _ (fun rq => inject_Z (snd rq * fst (base_rates (fst rq))) * f_cost fa)%Q);
      [| intros rq Hrq; rewrite (Hrt t rq Ht Hrq); reflexivity].
    pose proof (adjusted_duration_pos fa (t_duration t)).
    rewrite Z.max_r by lia. reflexivity.
  - set (h := fun t => (inject_Z (Z.max 0 (adjusted_duration fa (t_duration t))) *
                   day_carbon (resource_types cfg) fa (t_resources t))%Q).
    transitivity (qsum (fun p => h (fst p)) (combine (cfg_tasks cfg) ind)).
    { apply qsum_ext. intros [t g] _. reflexivity. }
    rewrite (qsum_combine h _ _ Hlen).
    apply qsum_ext. intros t Ht. unfold h.
    unfold day_carbon, task_day_carbon.
    rewrite (qsum_ext _ (fun rq => inject_Z (snd rq * snd (base_rates (fst rq))) * f_carbon fa)%Q);
      [| intros rq Hrq; rewrite (Hrt t rq Ht Hrq); reflexivity].
    pose proof (adjusted_duration_pos fa (t_duration t)).
    rewrite Z.max_r by lia. reflexivity.
Qed.

(** X3: When task ids are distinct, the total_cost and carbon_footprint
    returned by optimize are the sums over the tasks of the adjusted
    duration times the task's per-day cost or carbon, whatever the start
    times. The carbon returned by _evaluate_schedule is the same sum, and
    its cost is that cost sum or 1.5 times it. *)
Theorem totals_are_per_task_sums :
  (forall cfg best r,
     NoDup (task_ids cfg) -> final_result cfg best = Some r ->
     let fa := adjustment_factors (cfg_mode cfg) in
     (total_cost r ==
        qsum (fun t => inject_Z (adjusted_duration fa (t_duration t)) * task_day_cost fa t)
          (cfg_tasks cfg))%Q /\
     (carbon_footprint r ==
        qsum (fun t => inject_Z (adjusted_duration fa (t_duration t)) * task_day_carbon fa t)
          (cfg_tasks cfg))%Q) /\
  (forall cfg ind duration cost carbon,
     NoDup (task_ids cfg) -> evaluate_schedule cfg ind = Some (duration, cost, carbon) ->
     let fa := adjustment_factors (cfg_mode cfg) in
     let c := qsum (fun t => inject_Z (adjusted_duration fa (t_duration t)) * task_day_cost fa t)%Q
                (cfg_tasks cfg) in
     (carbon ==
        qsum (fun t => inject_Z (adjusted_duration fa (t_duration t)) * task_day_carbon fa t)
          (cfg_tasks cfg))%Q /\
     ((cost == c)%Q \/ (cost == (3 # 2) * c)%Q)).
Proof.
  split.
  - intros cfg best r Hnd H fa. unfold final_result in H.
    apply bind_Some in H as (sch & Hsch & H).
    apply bind_Some in H as (ends & _ & H).
    apply bind_Some in H as (td & _ & H).
    apply bind_Some in H as (items & _ & H).
    injection H as <-. simpl. exact (schedule_totals cfg best sch Hnd Hsch).
  - intros cfg ind duration cost carbon Hnd H fa c. unfold evaluate_schedule in H.
    apply bind_Some in H as (sch & Hsch & H).
    apply bind_Some in H as (mk & _ & H).
    injection H as H.
    destruct (schedule_totals cfg ind sch Hnd Hsch) as [Ec Ecb].
    unfold apply_cost_limit in H. unfold c, fa in *. clear c fa.
    destruct (max_cost cfg) as [m|].
    + destruct (negb (Qle_bool _ m)).
      * destruct (cfg_mode cfg); injection H as _ <- <-; (split; [exact Ecb|]);
          first [left; exact Ec | right; rewrite <- Ec; reflexivity].
      * injection H as _ <- <-. split; [exact Ecb | left; exact Ec].
    + injection H as _ <- <-. split; [exact Ecb | left; exact Ec].
Qed.

Lemma totals_are_per_task_sums_witness :
  NoDup (task_ids Sample.cfg_eco) /\
  exists r, final_result Sample.cfg_eco Sample.ind01 = Some r /\
    (total_cost r == 5040)%Q /\
    (total_cost r ==
       qsum (fun t => inject_Z (adjusted_duration (adjustment_factors eco) (t_duration t)) *
                      task_day_cost (adjustment_factors eco) t) (cfg_tasks Sample.cfg_eco))%Q.
Proof.
  assert (Hn : NoDup (task_ids Sample.cfg_eco))
    by (apply (bool_decide_unpack _); vm_compute; reflexivity).
  split; [exact Hn|].
  destruct (final_result Sample.cfg_eco Sample.ind01) as [r|] eqn:E.
  - exists r. split; [reflexivity|].
    split; [vm_compute in E; injection E as <-; vm_compute; reflexivity|].
    exact (proj1 (proj1 totals_are_per_task_sums _ _ _ Hn E)).
  - vm_compute in E. discriminate.
Defined.

Lemma qsum_le {A} (f g : A -> Q) l :
  (forall x, In x l -> f x <= g x)%Q -> (qsum f l <= qsum g l)%Q.
Proof.
  induction l as [|x l IH]; simpl; intros H; [apply Qle_refl|].
  apply Qplus_le_compat; [apply H; left; reflexivity | apply IH; intros; apply H; right; assumption].
Qed.

Lemma qsum_nonneg {A} (f : A -> Q) l :
  (forall x, In x l -> 0 <= f x)%Q -> (0 <= qsum f l)%Q.
Proof.
  intros H. apply (Qle_trans _ (qsum (fun _ => 0%Q) l)).
  - rewrite qsum_zero by (intros; reflexivity). apply Qle_refl.
  - apply qsum_le. exact H.
Qed.

Lemma qsum_member_le {A} (f : A -> Q) l y :
  (forall x, In x l -> 0 <= f x)%Q -> In y l -> (f y <= qsum f l)%Q.
Proof.
  induction l as [|x l IH]; simpl; intros H Hy; [destruct Hy|].
  destruct Hy as [<- | Hy].
  - assert (0 <= qsum f l)%Q by (apply qsum_nonneg; intros; apply H; right; assumption). lra.
  - assert (f y <= qsum f l)%Q by (apply IH; [intros; apply H; right|]; assumption).
    assert (0 <= f x)%Q by (apply H; left; reflexivity). lra.
Qed.

Lemma qsum_plus {A} (f g : A -> Q) l :
  (qsum (fun x => f x + g x) l == qsum f l + qsum g l)%Q.
Proof. induction l as [|x l IH]; simpl; [ring|]. rewrite IH. ring. Qed.

Lemma qsum_swap {A B} (F : A -> B -> Q) (l : list A) (k : list B) :
  (qsum (fun x => qsum (fun y => F x y) k) l == qsum (fun y => qsum (fun x => F x y) l) k)%Q.
Proof.
  induction l as [|x l IH]; simpl.
  - symmetry. apply qsum_zero. intros; reflexivity.
  - rewrite IH. symmetry. apply qsum_plus.
Qed.

Lemma qsum_scale {A} (c : Q) (f : A -> Q) l :
  (qsum (fun x => c * f x) l == c * qsum f l)%Q.
Proof. induction l as [|x l IH]; simpl; [ring|]. rewrite IH. ring. Qed.

Lemma qsum_insert_by {A} (key : A -> Z) (f : A -> Q) x l :
  (qsum f (insert_by key x l) == f x + qsum f l)%Q.
Proof.
  induction l as [|y l IH]; simpl; [reflexivity|].
  destruct (key x <=? key y); simpl; [reflexivity|]. rewrite IH. ring.
Qed.

Lemma qsum_sort_by {A} (key : A -> Z) (f : A -> Q) l :
  (qsum f (sort_by key l) == qsum f l)%Q.
Proof.
  induction l as [|x l IH]; simpl; [reflexivity|]. rewrite qsum_insert_by, IH. reflexivity.
Qed.

Lemma qsum_Forall2_le {A B} (R : A -> B -> Prop) (f : A -> Q) (g : B -> Q) l k :
  Forall2 R l k -> (forall x y, R x y -> f x <= g y)%Q -> (qsum f l <= qsum g k)%Q.
Proof.
  intros H Hfg. induction H as [|x y l k Hxy _ IH]; simpl; [apply Qle_refl|].
  apply Qplus_le_compat; [apply Hfg; exact Hxy | exact IH].
Qed.

Lemma dict_get_In {V} k (v : V) d : dict_get k d = Some v -> In (k, v) d.
Proof.
  induction d as [|[k' v'] d IH]; simpl; [discriminate|].
  destruct (String.eqb k k') eqn:E; intros H.
  - apply String.eqb_eq in E. subst. injection H as <-. left. reflexivity.
  - right. exact (IH H).
Qed.

Lemma factors_nonneg m :
  (0 <= f_cost (adjustment_factors m))%Q /\ (0 <= f_carbon (adjustment_factors m))%Q.
Proof. destruct m; simpl; split; unfold Qle; simpl; lia. Qed.

Lemma claimed_rates_base r : claimed_rates r = base_rates r.
Proof. reflexivity. Qed.

Lemma base_rates_pos r : 0 <= fst (base_rates r) /\ 0 <= snd (base_rates r).
Proof.
  unfold base_rates. destruct (contains _ _); [simpl; lia|].
  destruct (_ || _); simpl; lia.
Qed.

(** One task's own share of a cell: the cell reads at least it. *)
Lemma claimed_cost_ge_own fa sch d r it :
  (0 <= f_cost fa)%Q -> (0 <= f_carbon fa)%Q ->
  (forall it', In it' sch -> Forall (fun rq => 0 <= snd rq) (si_resources (snd it'))) ->
  In it sch -> task_active (snd it) d = true ->
  (qsum (fun rq => if String.eqb (fst rq) r then
          inject_Z (snd rq) * (inject_Z (fst (claimed_rates r)) * f_cost fa) else 0)%Q
     (si_resources (snd it)) <= claimed_day_cost fa sch d r)%Q /\
  (qsum (fun rq => if String.eqb (fst rq) r then
          inject_Z (snd rq) * (inject_Z (snd (claimed_rates r)) * f_carbon fa) else 0)%Q
     (si_resources (snd it)) <= claimed_day_carbon fa sch d r)%Q.
Proof.
  intros Hc Hcb Hq Hit Hact.
  assert (Hterm : forall it' rq, In it' sch -> In rq (si_resources (snd it')) ->
    (0 <= if String.eqb (fst rq) r then
          inject_Z (snd rq) * (inject_Z (fst (claimed_rates r)) * f_cost fa) else 0)%Q /\
    (0 <= if String.eqb (fst rq) r then
          inject_Z (snd rq) * (inject_Z (snd (claimed_rates r)) * f_carbon fa) else 0)%Q).
  { intros it' rq Hit' Hrq. pose proof (proj1 (List.Forall_forall _ _) (Hq it' Hit') rq Hrq) as H0.
    destruct (base_rates_pos r) as [B1 B2]. rewrite claimed_rates_base.
    destruct (String.eqb (fst rq) r); [|split; apply Qle_refl].
    assert (Q0 : (0 <= inject_Z (snd rq))%Q) by (change 0%Q with (inject_Z 0); rewrite <- Zle_Qle; exact H0).
    assert (Q1 : (0 <= inject_Z (fst (base_rates r)))%Q) by (change 0%Q with (inject_Z 0); rewrite <- Zle_Qle; exact B1).
    assert (Q2 : (0 <= inject_Z (snd (base_rates r)))%Q) by (change 0%Q with (inject_Z 0); rewrite <- Zle_Qle; exact B2).
    split; apply Qmult_le_0_compat; try apply Qmult_le_0_compat; assumption. }
  unfold claimed_day_cost, claimed_day_carbon. split.
  - set (F := fun it0 : string * sched_info => if task_active (snd it0) d then
           qsum (fun rq => if String.eqb (fst rq) r then
                   inject_Z (snd rq) * (inject_Z (fst (claimed_rates r)) * f_cost fa)
                 else 0)%Q (si_resources (snd it0)) else 0%Q).
    assert (E : (F it == qsum (fun rq => if String.eqb (fst rq) r then
          inject_Z (snd rq) * (inject_Z (fst (claimed_rates r)) * f_cost fa) else 0)%Q
          (si_resources (snd it)))%Q) by (unfold F; rewrite Hact; reflexivity).
    rewrite <- E. apply qsum_member_le; [|exact Hit].
    intros it' Hit'. unfold F. destruct (task_active (snd it') d); [|apply Qle_refl].
    apply qsum_nonneg. intros rq Hrq. exact (proj1 (Hterm it' rq Hit' Hrq)).
  - set (F := fun it0 : string * sched_info => if task_active (snd it0) d then
           qsum (fun rq => if String.eqb (fst rq) r then
                   inject_Z (snd rq) * (inject_Z (snd (claimed_rates r)) * f_carbon fa)
                 else 0)%Q (si_resources (snd it0)) else 0%Q).
    assert (E : (F it == qsum (fun rq => if String.eqb (fst rq) r then
          inject_Z (snd rq) * (inject_Z (snd (claimed_rates r)) * f_carbon fa) else 0)%Q
          (si_resources (snd it)))%Q) by (unfold F; rewrite Hact; reflexivity).
    rewrite <- E. apply qsum_member_le; [|exact Hit].
    intros it' Hit'. unfold F. destruct (task_active (snd it') d); [|apply Qle_refl].
    apply qsum_nonneg. intros rq Hrq. exact (proj2 (Hterm it' rq Hit' Hrq)).
Qed.

Lemma own_shares_cover fa (res : list (string * Z)) :
  (0 <= f_cost fa)%Q -> (0 <= f_carbon fa)%Q -> Forall (fun rq => 0 <= snd rq) res ->
  (qsum (fun rq => inject_Z (snd rq * fst (base_rates (fst rq))) * f_cost fa)%Q res <=
   qsum (fun rt => qsum (fun rq => if String.eqb (fst rq) rt then
          inject_Z (snd rq) * (inject_Z (fst (claimed_rates rt)) * f_cost fa) else 0)%Q res)
     (map fst res))%Q /\
  (qsum (fun rq => inject_Z (snd rq * snd (base_rates (fst rq))) * f_carbon fa)%Q res <=
   qsum (fun rt => qsum (fun rq => if String.eqb (fst rq) rt then
          inject_Z (snd rq) * (inject_Z (snd (claimed_rates rt)) * f_carbon fa) else 0)%Q res)
     (map fst res))%Q.
Proof.
  intros Hc Hcb Hq.
  assert (Hpos : forall rq, In rq res -> forall rt,
    (0 <= if String.eqb (fst rq) rt then
          inject_Z (snd rq) * (inject_Z (fst (claimed_rates rt)) * f_cost fa) else 0)%Q /\
    (0 <= if String.eqb (fst rq) rt then
          inject_Z (snd rq) * (inject_Z (snd (claimed_rates rt)) * f_carbon fa) else 0)%Q).
  { intros rq Hrq rt. pose proof (proj1 (List.Forall_forall _ _) Hq rq Hrq) as H0.
    destruct (base_rates_pos rt) as [B1 B2]. rewrite claimed_rates_base.
    destruct (String.eqb (fst rq) rt); [|split; apply Qle_refl].
    assert (Q0 : (0 <= inject_Z (snd rq))%Q) by (change 0%Q with (inject_Z 0); rewrite <- Zle_Qle; exact H0).
    assert (Q1 : (0 <= inject_Z (fst (base_rates rt)))%Q) by (change 0%Q with (inject_Z 0); rewrite <- Zle_Qle; exact B1).
    assert (Q2 : (0 <= inject_Z (snd (base_rates rt)))%Q) by (change 0%Q with (inject_Z 0); rewrite <- Zle_Qle; exact B2).
    split; apply Qmult_le_0_compat; try apply Qmult_le_0_compat; assumption. }
  split.
  - rewrite (qsum_swap (fun rt rq => if String.eqb (fst rq) rt then
          inject_Z (snd rq) * (inject_Z (fst (claimed_rates rt)) * f_cost fa) else 0)%Q).
    apply qsum_le. intros rq Hrq.
    eapply Qle_trans; [| apply (qsum_member_le (fun rt => if String.eqb (fst rq) rt then
          inject_Z (snd rq) * (inject_Z (fst (claimed_rates rt)) * f_cost fa) else 0)%Q
          (map fst res) (fst rq))].
    + rewrite String.eqb_refl, inject_Z_mult, Qmult_assoc. apply Qle_refl.
    + intros rt _. exact (proj1 (Hpos rq Hrq rt)).
    + apply in_map. exact Hrq.
  - rewrite (qsum_swap (fun rt rq => if String.eqb (fst rq) rt then
          inject_Z (snd rq) * (inject_Z (snd (claimed_rates rt)) * f_carbon fa) else 0)%Q).
    apply qsum_le. intros rq Hrq.
    eapply Qle_trans; [| apply (qsum_member_le (fun rt => if String.eqb (fst rq) rt then
          inject_Z (snd rq) * (inject_Z (snd (claimed_rates rt)) * f_carbon fa) else 0)%Q
          (map fst res) (fst rq))].
    + rewrite String.eqb_refl, inject_Z_mult, Qmult_assoc. apply Qle_refl.
    + intros rt _. exact (proj2 (Hpos rq Hrq rt)).
    + apply in_map. exact Hrq.
Qed.

Lemma item_cost_ge_own rts fa sch t info :
  (0 <= f_cost fa)%Q -> (0 <= f_carbon fa)%Q ->
  (forall it', In it' sch -> Forall (fun rq => 0 <= snd rq) (si_resources (snd it'))) ->
  In (t_id t, info) sch -> si_resources info = t_resources t ->
  (forall rt, In rt (map fst (t_resources t)) -> In rt rts) ->
  let it := schedule_item (calculate_daily_resource_usage rts sch fa) t info in
  (inject_Z (Z.max 0 (si_duration info)) * task_day_cost fa t <= item_cost it)%Q /\
  (inject_Z (Z.max 0 (si_duration info)) * task_day_carbon fa t <= item_carbon it)%Q.
Proof.
  intros Hc Hcb Hq Hin Hres Hrts it.
  assert (Hq0 : Forall (fun rq => 0 <= snd rq) (t_resources t))
    by (rewrite <- Hres; exact (Hq _ Hin)).
  destruct (own_shares_cover fa (t_resources t) Hc Hcb Hq0) as [O1 O2].
  set (days := zrange (si_start info) (si_start info + si_duration info)).
  assert (Hdays : inject_Z (Z.of_nat (length days)) = inject_Z (Z.max 0 (si_duration info))).
  { unfold days. rewrite length_zrange. f_equal. lia. }
  assert (Hact : forall d, In d days -> task_active (snd (t_id t, info)) d = true).
  { intros d Hd. apply zrange_In in Hd. unfold task_active. simpl. lia. }
  unfold it, schedule_item. cbn [item_cost item_carbon]. fold days.
  assert (Hz : (0 <= inject_Z (Z.max 0 (si_duration info)))%Q)
    by (change 0%Q with (inject_Z 0); rewrite <- Zle_Qle; lia).
  split.
  - apply Qle_trans with (qsum (fun rt => qsum (fun _ : Z => qsum (fun rq =>
        if String.eqb (fst rq) rt then
          inject_Z (snd rq) * (inject_Z (fst (claimed_rates rt)) * f_cost fa) else 0)%Q
        (t_resources t)) days) (map fst (t_resources t))).
    + rewrite (qsum_ext _ (fun rt => inject_Z (Z.of_nat (length days)) * qsum (fun rq =>
        if String.eqb (fst rq) rt then
          inject_Z (snd rq) * (inject_Z (fst (claimed_rates rt)) * f_cost fa) else 0)%Q
        (t_resources t))%Q) by (intros; apply qsum_const).
      rewrite qsum_scale, Hdays.
      rewrite !(Qmult_comm (inject_Z (Z.max 0 (si_duration info)))).
      apply Qmult_le_compat_r; [exact O1 | exact Hz].
    + apply qsum_le; intros rt Hrt; apply qsum_le; intros d Hd.
      eapply Qle_trans; [| rewrite (proj1 (cell_cost_aggregate rts fa sch d rt (Hrts rt Hrt))); apply Qle_refl].
      pose proof (proj1 (claimed_cost_ge_own fa sch d rt _ Hc Hcb Hq Hin (Hact d Hd))) as K.
      simpl snd in K. rewrite Hres in K. exact K.
  - apply Qle_trans with (qsum (fun rt => qsum (fun _ : Z => qsum (fun rq =>
        if String.eqb (fst rq) rt then
          inject_Z (snd rq) * (inject_Z (snd (claimed_rates rt)) * f_carbon fa) else 0)%Q
        (t_resources t)) days) (map fst (t_resources t))).
    + rewrite (qsum_ext _ (fun rt => inject_Z (Z.of_nat (length days)) * qsum (fun rq =>
        if String.eqb (fst rq) rt then
          inject_Z (snd rq) * (inject_Z (snd (claimed_rates rt)) * f_carbon fa) else 0)%Q
        (t_resources t))%Q) by (intros; apply qsum_const).
      rewrite qsum_scale, Hdays.
      rewrite !(Qmult_comm (inject_Z (Z.max 0 (si_duration info)))).
      apply Qmult_le_compat_r; [exact O2 | exact Hz].
    + apply qsum_le; intros rt Hrt; apply qsum_le; intros d Hd.
      eapply Qle_trans; [| rewrite (proj2 (cell_cost_aggregate rts fa sch d rt (Hrts rt Hrt))); apply Qle_refl].
      pose proof (proj2 (claimed_cost_ge_own fa sch d rt _ Hc Hcb Hq Hin (Hact d Hd))) as K.
      simpl snd in K. rewrite Hres in K. exact K.
Qed.

Lemma Forall2_with_l {A B} (P : A -> Prop) (R : A -> B -> Prop) l k :
  Forall2 R l k -> (forall x, In x l -> P x) -> Forall2 (fun x y => P x /\ R x y) l k.
Proof.
  intros H. induction H as [|x y l k Hxy _ IH]; intros HP; constructor.
  - split; [apply HP; left; reflexivity | exact Hxy].
  - apply IH. intros z Hz. apply HP. right. exact Hz.
Qed.

Lemma schedule_info_of_task cfg ind sch t info :
  NoDup (task_ids cfg) ->
  create_schedule_dict (cfg_mode cfg) (cfg_tasks cfg) ind = Some sch ->
  In t (cfg_tasks cfg) -> dict_get (t_id t) sch = Some info ->
  si_resources info = t_resources t /\
  si_duration info = adjusted_duration (adjustment_factors (cfg_mode cfg)) (t_duration t).
Proof.
  intros Hnd Hsch Ht Hget.
  destruct (create_schedule_aux_get _ _ _ _ _ _ _ Hsch Hget)
    as [Ha | (t' & g & Ht' & _ & Hid & ->)]; [discriminate|].
  assert (t' = t) as -> by exact (NoDup_map_inj t_id _ _ _ Hnd Ht' Ht Hid).
  split; reflexivity.
Qed.

Lemma schedule_quantities cfg ind sch :
  NoDup (task_ids cfg) ->
  Forall (fun t => Forall (fun rq => 0 <= snd rq) (t_resources t)) (cfg_tasks cfg) ->
  create_schedule_dict (cfg_mode cfg) (cfg_tasks cfg) ind = Some sch ->
  forall it, In it sch -> Forall (fun rq => 0 <= snd rq) (si_resources (snd it)).
Proof.
  intros Hnd Hq Hsch it Hit.
  pose proof (create_schedule_aux_length _ _ _ _ _ Hsch) as Hlen.
  unfold create_schedule_dict in Hsch.
  rewrite create_schedule_aux_shape in Hsch; [| exact Hnd | exact Hlen | reflexivity].
  injection Hsch as <-. cbn [app] in Hit.
  apply in_map_iff in Hit as ([t g] & <- & Hp).
  apply in_combine_l in Hp. simpl.
  exact (proj1 (List.Forall_forall _ _) Hq t Hp).
Qed.

Lemma task_costs_cover_total_facts cfg best r :
  NoDup (task_ids cfg) ->
  Forall (fun t => Forall (fun rq => 0 <= snd rq) (t_resources t)) (cfg_tasks cfg) ->
  final_result cfg best = Some r ->
  (total_cost r <= qsum item_cost (res_schedule r))%Q /\
  (carbon_footprint r <= qsum item_carbon (res_schedule r))%Q.
Proof.
  intros Hnd Hq H. unfold final_result in H.
  apply bind_Some in H as (sch & Hsch & H).
  apply bind_Some in H as (ends & _ & H).
  apply bind_Some in H as (td & _ & H).
  apply bind_Some in H as (items & Hitems & H).
  injection H as <-. cbn [total_cost carbon_footprint res_schedule].
  destruct (schedule_totals cfg best sch Hnd Hsch) as [Ec Ecb].
  set (fa := adjustment_factors (cfg_mode cfg)) in *.
  destruct (factors_nonneg (cfg_mode cfg)) as [Hc Hcb].
  pose proof (schedule_quantities cfg best sch Hnd Hq Hsch) as Hsq.
  apply mapM_Some_1 in Hitems.
  apply (Forall2_with_l (fun t => In t (cfg_tasks cfg))) in Hitems; [|tauto].
  rewrite !qsum_sort_by.
  split; [rewrite Ec | rewrite Ecb]; apply (qsum_Forall2_le _ _ _ _ _ Hitems);
    intros t it [Ht Hit]; apply bind_Some in Hit as (info & Hget & Hit);
    injection Hit as <-;
    destruct (schedule_info_of_task cfg best sch t info Hnd Hsch Ht Hget) as [Hres Hdur];
    assert (Hrts : forall rt, In rt (map fst (t_resources t)) -> In rt (resource_types cfg))
      by (intros rt Hrt; apply in_map_iff in Hrt as (rq & <- & Hrq);
          exact (extract_resource_types_complete _ _ _ Ht Hrq));
    destruct (item_cost_ge_own (resource_types cfg) fa sch t info Hc Hcb Hsq
                (dict_get_In _ _ _ Hget) Hres Hrts) as [I1 I2];
    rewrite Hdur, Z.max_r in I1, I2 by (eapply Z.le_trans; [|apply adjusted_duration_pos]; lia);
    assumption.
Qed.

(** X4: With distinct task ids and non-negative resource quantities, the sum
    of the per-task 'cost' values of the schedule returned by optimize is at
    least total_cost, and the sum of the per-task 'carbon' values is at
    least carbon_footprint. Overlapping tasks count each shared ledger cell
    more than once, so the inequality can be strict. *)
Theorem task_costs_cover_total cfg best r :
  NoDup (task_ids cfg) ->
  Forall (fun t => Forall (fun rq => 0 <= snd rq) (t_resources t)) (cfg_tasks cfg) ->
  final_result cfg best = Some r ->
  (total_cost r <= qsum item_cost (res_schedule r))%Q /\
  (carbon_footprint r <= qsum item_carbon (res_schedule r))%Q.
Proof. exact (task_costs_cover_total_facts cfg best r). Qed.

Lemma task_costs_cover_total_witness :
  NoDup (task_ids Overlap.cfg_pq) /\
  Forall (fun t => Forall (fun rq => 0 <= snd rq) (t_resources t)) (cfg_tasks Overlap.cfg_pq) /\
  exists r, final_result Overlap.cfg_pq Overlap.both_at_0 = Some r /\
    (total_cost r <= qsum item_cost (res_schedule r))%Q /\
    (total_cost r < qsum item_cost (res_schedule r))%Q.
Proof.
  assert (Hn : NoDup (task_ids Overlap.cfg_pq))
    by (apply (bool_decide_unpack _); vm_compute; reflexivity).
  assert (Hq : Forall (fun t => Forall (fun rq => 0 <= snd rq) (t_resources t))
                 (cfg_tasks Overlap.cfg_pq))
    by (vm_compute; repeat constructor; discriminate).
  split; [exact Hn|]. split; [exact Hq|].
  destruct (final_result Overlap.cfg_pq Overlap.both_at_0) as [r|] eqn:E.
  - exists r. split; [reflexivity|].
    split; [exact (proj1 (task_costs_cover_total _ _ _ Hn Hq E))|].
    vm_compute in E. injection E as <-. vm_compute. reflexivity.
  - vm_compute in E. discriminate.
Defined.

Lemma create_schedule_aux_firstn fa tasks : forall ind acc,
  create_schedule_aux fa tasks ind acc =
  create_schedule_aux fa tasks (firstn (length tasks) ind) acc.
Proof.
  induction tasks as [|t ts IH]; intros ind acc; [reflexivity|].
  destruct ind as [|g ind]; [reflexivity|]. simpl. apply IH.
Qed.

Lemma create_schedule_aux_some fa tasks : forall ind acc,
  (length tasks <= length ind)%nat -> is_Some (create_schedule_aux fa tasks ind acc).
Proof.
  induction tasks as [|t ts IH]; intros ind acc Hlen; [eexists; reflexivity|].
  destruct ind as [|g ind]; simpl in Hlen; [lia|]. simpl. apply IH. lia.
Qed.

Lemma dict_set_keeps {V} k k' (v : V) d :
  is_Some (dict_get k d) -> is_Some (dict_get k (dict_set k' v d)).
Proof.
  rewrite dict_get_set. destruct (String.eqb k k'); [eauto|tauto].
Qed.

Lemma create_schedule_aux_keys fa tasks : forall ind acc sch,
  create_schedule_aux fa tasks ind acc = Some sch ->
  (forall k, is_Some (dict_get k acc) -> is_Some (dict_get k sch)) /\
  (forall t, In t tasks -> is_Some (dict_get (t_id t) sch)).
Proof.
  induction tasks as [|t ts IH]; intros ind acc sch H.
  - simpl in H. injection H as <-. split; [tauto | intros _ []].
  - destruct ind as [|g ind]; [discriminate|]. simpl in H.
    destruct (IH _ _ _ H) as [Hacc Hts]. split.
    + intros k Hk. apply Hacc. apply dict_set_keeps. exact Hk.
    + intros t' [<-|Ht']; [|exact (Hts t' Ht')].
      apply Hacc. rewrite dict_get_set, String.eqb_refl. eexists; reflexivity.
Qed.

Lemma mapM_lookup_some {A} (f : task -> option A) (sch : schedule) tasks :
  (forall t, In t tasks -> is_Some (dict_get (t_id t) sch)) ->
  (forall t info, dict_get (t_id t) sch = Some info -> is_Some (f t)) ->
  is_Some (mapM f tasks).
Proof.
  intros Hk Hf. apply mapM_is_Some_2. apply List.Forall_forall. intros t Ht.
  destruct (Hk t Ht) as [info Hi]. exact (Hf t info Hi).
Qed.

Lemma end_times_max_some (l : list Z) :
  is_Some (match l with [] => Some 0 | _ => max_list l end).
Proof. destruct l; eexists; reflexivity. Qed.

Lemma schedule_makespan_some fa tasks sch :
  (forall t, In t tasks -> is_Some (dict_get (t_id t) sch)) ->
  is_Some (schedule_makespan fa tasks sch).
Proof.
  intros Hk. unfold schedule_makespan.
  destruct (mapM_lookup_some (fun t => info ← dict_get (t_id t) sch;
      Some (si_start info + adjusted_duration fa (t_duration t))) sch tasks Hk)
    as [ends Hends].
  { intros t info Hi. rewrite Hi. eexists; reflexivity. }
  rewrite Hends. simpl. apply end_times_max_some.
Qed.

(** ** Genes beyond the task count *)

(** X5: _evaluate_schedule and the result built by optimize depend only on
    the first len(tasks) genes of an individual; extra genes are ignored. *)
Theorem genes_beyond_tasks_ignored cfg ind :
  evaluate_schedule cfg ind =
    evaluate_schedule cfg (firstn (length (cfg_tasks cfg)) ind) /\
  final_result cfg ind = final_result cfg (firstn (length (cfg_tasks cfg)) ind).
Proof.
  unfold evaluate_schedule, final_result, create_schedule_dict.
  rewrite <- create_schedule_aux_firstn. split; reflexivity.
Qed.

(** X6: _evaluate_schedule, and the result construction of optimize, raise
    (IndexError in _create_schedule_dict) exactly when the individual has
    fewer genes than there are tasks. *)
Theorem short_individual_raises cfg ind :
  (evaluate_schedule cfg ind = None <-> (length ind < length (cfg_tasks cfg))%nat) /\
  (final_result cfg ind = None <-> (length ind < length (cfg_tasks cfg))%nat).
Proof.
  destruct (Nat.lt_ge_cases (length ind) (length (cfg_tasks cfg))) as [Hs|Hl].
  - assert (Hn : create_schedule_dict (cfg_mode cfg) (cfg_tasks cfg) ind = None).
    { destruct (create_schedule_dict _ _ _) as [sch|] eqn:E; [|reflexivity].
      pose proof (create_schedule_aux_length _ _ _ _ _ E). lia. }
    unfold evaluate_schedule, final_result. rewrite Hn. simpl. tauto.
  - destruct (create_schedule_aux_some (adjustment_factors (cfg_mode cfg))
                (cfg_tasks cfg) ind [] Hl) as [sch Hsch].
    destruct (create_schedule_aux_keys _ _ _ _ _ Hsch) as [_ Hk].
    assert (Hn : forall A (o : option A), is_Some o -> (o = None <-> (length ind < length (cfg_tasks cfg))%nat)).
    { intros A o [x ->]. split; [discriminate | lia]. }
    split; apply Hn.
    + unfold evaluate_schedule, create_schedule_dict. rewrite Hsch. simpl.
      destruct (schedule_makespan_some (adjustment_factors (cfg_mode cfg)) _ _ Hk) as [d Hd].
      rewrite Hd. simpl. eexists; reflexivity.
    + unfold final_result, create_schedule_dict. rewrite Hsch. simpl.
      destruct (mapM_lookup_some (fun t => info ← dict_get (t_id t) sch;
                  Some (si_start info + si_duration info)) sch _ Hk) as [ends He].
      { intros t info Hi. rewrite Hi. eexists; reflexivity. }
      rewrite He. simpl.
      destruct (end_times_max_some ends) as [td Htd]. rewrite Htd. simpl.
      destruct (mapM_lookup_some (fun t => info ← dict_get (t_id t) sch;
                  Some (schedule_item (calculate_daily_resource_usage (resource_types cfg) sch
                          (adjustment_factors (cfg_mode cfg))) t info)) sch _ Hk) as [items Hi].
      { intros t info Hi. rewrite Hi. eexists; reflexivity. }
      rewrite Hi. simpl. eexists; reflexivity.
Qed.

Lemma segment_lookup (l1 l2 : list Z) (a b i : nat) :
  (a <= b)%nat -> (b <= length l1)%nat -> length l2 = length l1 ->
  (firstn a l1 ++ slice l2 a b ++ skipn b l1) !! i =
  if (a <=? i)%nat && (i <? b)%nat then l2 !! i else l1 !! i.
Proof.
  intros Hab Hb Hl. unfold slice.
  assert (L1 : length (firstn a l1) = a) by (rewrite length_firstn; lia).
  assert (L2 : length (firstn (b - a) (skipn a l2)) = (b - a)%nat)
    by (rewrite length_firstn, length_skipn; lia).
  destruct (Nat.lt_ge_cases i a) as [Hia|Hia].
  - rewrite lookup_app_l by lia. rewrite lookup_take_lt by lia.
    replace ((a <=? i)%nat) with false by (symmetry; apply Nat.leb_gt; lia). reflexivity.
  - rewrite lookup_app_r by lia. rewrite L1.
    replace ((a <=? i)%nat) with true by (symmetry; apply Nat.leb_le; lia). simpl.
    destruct (Nat.lt_ge_cases i b) as [Hib|Hib].
    + rewrite lookup_app_l by lia. rewrite lookup_take_lt by lia. rewrite lookup_drop.
      replace ((i <? b)%nat) with true by (symmetry; apply Nat.ltb_lt; lia).
      f_equal. lia.
    + rewrite lookup_app_r by lia. rewrite L2, lookup_drop.
      replace ((i <? b)%nat) with false by (symmetry; apply Nat.ltb_ge; lia).
      f_equal. lia.
Qed.

(** X7: The registered mate operator (cxTwoPoint) on two parents of equal
    length picks 1 <= a < b <= length and swaps the genes at positions
    a..b-1 between the parents; both children keep the parents' length and
    every other gene. *)
Theorem cx_two_point_exchanges_segment ind1 ind2 s n c d n' :
  length ind2 = length ind1 ->
  cx_two_point ind1 ind2 s n = Some ((c, d), n') ->
  exists a b, (1 <= a < b)%nat /\ (b <= length ind1)%nat /\
    length c = length ind1 /\ length d = length ind1 /\
    forall i, if (a <=? i)%nat && (i <? b)%nat
              then c !! i = ind2 !! i /\ d !! i = ind1 !! i
              else c !! i = ind1 !! i /\ d !! i = ind2 !! i.
Proof.
  intros Hl H. unfold cx_two_point in H. rewrite Hl, Nat.min_id in H.
  set (size := Z.of_nat (length ind1)) in H.
  apply bindM_inv in H as (c1 & n1 & E1 & H).
  apply bindM_inv in H as (c2 & n2 & E2 & H).
  apply randint_ge in E1. apply randint_ge in E2.
  assert (Hp : exists p1 p2, (if c1 <=? c2 then (c1, c2 + 1) else (c2, c1)) = (p1, p2) /\
                 1 <= p1 < p2 /\ p2 <= size).
  { destruct (c1 <=? c2) eqn:E.
    - apply Z.leb_le in E. exists c1, (c2 + 1). split; [reflexivity | lia].
    - apply Z.leb_gt in E. exists c2, c1. split; [reflexivity | lia]. }
  destruct Hp as (p1 & p2 & Ep & Hp1 & Hp2). rewrite Ep in H.
  injection H as <- <- _.
  exists (Z.to_nat p1), (Z.to_nat p2).
  assert (Hb : (Z.to_nat p2 <= length ind1)%nat) by (unfold size in Hp2; lia).
  split; [lia|]. split; [exact Hb|].
  split; [unfold slice; rewrite !length_app, !length_firstn, !length_skipn, Hl; lia|].
  split; [unfold slice; rewrite !length_app, !length_firstn, !length_skipn, Hl; lia|].
  intros i.
  rewrite (segment_lookup ind1 ind2) by lia.
  rewrite (segment_lookup ind2 ind1) by lia.
  destruct ((Z.to_nat p1 <=? i)%nat && (i <? Z.to_nat p2)%nat); split; reflexivity.
Qed.

Lemma cx_two_point_exchanges_segment_witness :
  length [5; 6; 7] = length [1; 2; 3] /\
  cx_two_point [1; 2; 3] [5; 6; 7] (fun _ => 0) 0%nat = Some (([1; 6; 3], [5; 2; 7]), 2%nat) /\
  exists a b, (1 <= a < b)%nat /\ (b <= 3)%nat.
Proof.
  assert (Hl : length [5; 6; 7] = length [1; 2; 3]) by reflexivity.
  assert (Hc : cx_two_point [1; 2; 3] [5; 6; 7] (fun _ => 0) 0%nat =
               Some (([1; 6; 3], [5; 2; 7]), 2%nat)) by reflexivity.
  split; [exact Hl|]. split; [exact Hc|].
  destruct (cx_two_point_exchanges_segment _ _ _ _ _ _ _ Hl Hc) as (a & b & Hab & Hb & _).
  exists a, b. split; [exact Hab | exact Hb].
Defined.

Lemma unit_of_nonneg z : (0 <= unit_of z)%Q.
Proof.
  unfold unit_of, Qle. simpl. pose proof (Z.mod_pos_bound z (2 ^ 53) ltac:(lia)). lia.
Qed.

Lemma mutate_gene_inert cfg indpb ind i s n :
  (indpb <= 0)%Q -> mutate_gene cfg indpb ind i s n = Some (ind, S n).
Proof.
  intros Hp. unfold mutate_gene, random_unit, bindM, draw, ret.
  unfold Qltb. replace (Qle_bool indpb (unit_of (s n))) with true; [reflexivity|].
  symmetry. apply Qle_bool_iff. eapply Qle_trans; [exact Hp | apply unit_of_nonneg].
Qed.

(** X8: With indpb (mutation_rate) at most 0, _mutate_individual leaves
    every gene unchanged while drawing one random number per gene; likewise
    the varAnd mutation pass with mutpb at most 0 leaves the offspring list
    unchanged, drawing one number per individual. *)
Theorem mutation_rate_zero_keeps_individual cfg indpb ind offs s n :
  (indpb <= 0)%Q ->
  mutate_individual cfg indpb ind s n = Some (ind, (n + length ind)%nat) /\
  mut_all cfg indpb offs s n = Some (offs, (n + length offs)%nat).
Proof.
  intros Hp. split.
  - unfold mutate_individual.
    assert (G : forall l n, foldM (mutate_gene cfg indpb) l ind s n = Some (ind, (n + length l)%nat)).
    { induction l as [|i l IH]; intros n0; simpl.
      - unfold ret. rewrite Nat.add_0_r. reflexivity.
      - unfold bindM. rewrite mutate_gene_inert by exact Hp. rewrite IH. f_equal. f_equal. lia. }
    rewrite G, length_seq. reflexivity.
  - revert n. induction offs as [|x offs IH]; intros n0; simpl.
    + unfold ret. rewrite Nat.add_0_r. reflexivity.
    + unfold bindM at 1, random_unit, bindM at 1, draw, ret at 1.
      unfold Qltb. replace (Qle_bool indpb (unit_of (s n0))) with true;
        [| symmetry; apply Qle_bool_iff; eapply Qle_trans; [exact Hp | apply unit_of_nonneg]].
      simpl. unfold bindM, ret at 1. rewrite IH. unfold ret. f_equal. f_equal. lia.
Qed.

Lemma mutation_rate_zero_keeps_individual_witness :
  (0 <= 0)%Q /\
  mutate_individual Mutation.cfg_pour 0 [3; 4] Mutation.draws 0%nat = Some ([3; 4], 2%nat).
Proof.
  assert (H0 : (0 <= 0)%Q) by (unfold Qle; simpl; lia).
  split; [exact H0|].
  exact (proj1 (mutation_rate_zero_keeps_individual Mutation.cfg_pour 0 [3; 4] [] Mutation.draws 0%nat H0)).
Defined.

Lemma Qltb_iff x y : Qltb x y = true <-> (x < y)%Q.
Proof.
  unfold Qltb. rewrite negb_true_iff. split.
  - intros H. apply Qnot_le_lt. intros H'. apply Qle_bool_iff in H'. congruence.
  - intros H. destruct (Qle_bool y x) eqn:E; [|reflexivity].
    apply Qle_bool_iff in E. exfalso. exact (Qlt_not_le _ _ H E).
Qed.

Lemma lex_lt_cons x xs y ys :
  lex_lt (x :: xs) (y :: ys) = true <-> (x < y)%Q \/ ((x == y)%Q /\ lex_lt xs ys = true).
Proof.
  simpl. destruct (Qltb x y) eqn:E1.
  - apply Qltb_iff in E1. split; [left; exact E1 | intros _; reflexivity].
  - assert (N1 : ~ (x < y)%Q) by (intros H; apply Qltb_iff in H; congruence).
    destruct (Qltb y x) eqn:E2.
    + apply Qltb_iff in E2. split; [discriminate|].
      intros [H | [H _]]; [contradiction | rewrite H in E2; exact (False_ind _ (Qlt_irrefl _ E2))].
    + assert (N2 : ~ (y < x)%Q) by (intros H; apply Qltb_iff in H; congruence).
      assert (Exy : (x == y)%Q).
      { apply Qle_antisym; apply Qnot_lt_le; assumption. }
      split; [intros H; right; split; assumption | intros [H | [_ H]]; [contradiction | exact H]].
Qed.

Lemma lex_lt_irrefl xs : lex_lt xs xs = false.
Proof.
  induction xs as [|x xs IH]; [reflexivity|].
  destruct (lex_lt (x :: xs) (x :: xs)) eqn:E; [|reflexivity].
  apply lex_lt_cons in E as [E | [_ E]]; [exact (False_ind _ (Qlt_irrefl _ E)) | congruence].
Qed.

Lemma lex_lt_trans xs ys zs :
  lex_lt xs ys = true -> lex_lt ys zs = true -> lex_lt xs zs = true.
Proof.
  revert ys zs. induction xs as [|x xs IH]; intros ys zs H1 H2.
  - destruct ys as [|y ys]; [discriminate|]. destruct zs as [|z zs]; [discriminate|]. reflexivity.
  - destruct ys as [|y ys]; [discriminate|]. destruct zs as [|z zs]; [discriminate|].
    apply lex_lt_cons in H1. apply lex_lt_cons in H2. apply lex_lt_cons.
    destruct H1 as [H1 | [E1 H1]]; destruct H2 as [H2 | [E2 H2]].
    + left. exact (Qlt_trans _ _ _ H1 H2).
    + left. rewrite <- E2. exact H1.
    + left. rewrite E1. exact H2.
    + right. split; [rewrite E1; exact E2 | exact (IH _ _ H1 H2)].
Qed.

(** X9: The individual returned by selBest(pop, k=1) belongs to the
    population, and no member of the population has a strictly greater
    weighted fitness in lexicographic order. *)
Theorem sel_best_is_maximal m pop best :
  sel_best m pop = Some best ->
  In best pop /\ forall y, In y pop -> lex_lt (wvalues m best) (wvalues m y) = false.
Proof.
  intros H. split; [exact (sel_best_In _ _ _ H)|].
  destruct pop as [|x rest]; [discriminate|]. simpl in H. injection H as <-.
  assert (G : forall rest b seen,
    (forall y, In y seen -> lex_lt (wvalues m b) (wvalues m y) = false) ->
    forall y, In y seen \/ In y rest ->
      lex_lt (wvalues m (fold_left (fun best y => if lex_lt (wvalues m best) (wvalues m y)
                                     then y else best) rest b)) (wvalues m y) = false).
  { clear. induction rest as [|z rest IH]; intros b seen Hseen y Hy.
    - destruct Hy as [Hy | []]. exact (Hseen y Hy).
    - assert (Hy' : In y (z :: seen) \/ In y rest)
        by (destruct Hy as [Hy | [<- | Hy]]; [left; right | left; left | right]; auto).
      simpl. destruct (lex_lt (wvalues m b) (wvalues m z)) eqn:Ebz.
      + apply (IH z (z :: seen)); [| exact Hy'].
        intros w [<- | Hw]; [apply lex_lt_irrefl|].
        destruct (lex_lt (wvalues m z) (wvalues m w)) eqn:Ezw; [|reflexivity].
        pose proof (Hseen w Hw) as Hbw.
        rewrite (lex_lt_trans _ _ _ Ebz Ezw) in Hbw. discriminate.
      + apply (IH b (z :: seen)); [| exact Hy'].
        intros w [<- | Hw]; [exact Ebz | exact (Hseen w Hw)]. }
  intros y Hy. apply (G rest x [x]).
  - intros w [<- | []]. apply lex_lt_irrefl.
  - destruct Hy as [<- | Hy]; [left; left; reflexivity | right; exact Hy].
Qed.

Lemma sel_best_is_maximal_witness :
  let x1 := {| genes := [0]; fitness := Some (5, 10, 3)%Q |} in
  let x2 := {| genes := [1]; fitness := Some (4, 10, 3)%Q |} in
  sel_best standard [x1; x2] = Some x2 /\
  lex_lt (wvalues standard x2) (wvalues standard x1) = false.
Proof.
  intros x1 x2.
  assert (H : sel_best standard [x1; x2] = Some x2) by reflexivity.
  split; [exact H|].
  apply (proj2 (sel_best_is_maximal _ _ _ H)). left. reflexivity.
Defined.

Lemma repeatM_total {A} (m : M A) k s n :
  (forall n0, exists v n1, m s n0 = Some (v, n1)) ->
  exists l n', repeatM k m s n = Some (l, n').
Proof.
  intros Hm. revert n. induction k as [|k IH]; intros n0.
  - exists [], n0. reflexivity.
  - destruct (Hm n0) as (v & n1 & E). destruct (IH n1) as (l & n' & E').
    exists (v :: l), n'. simpl. unfold bindM. rewrite E, E'. reflexivity.
Qed.

(** X10: toolbox.population(n=population_size) succeeds when the summed task
    duration is non-negative, raises (randint with an empty range) when it
    is negative and at least one gene is drawn, and on success yields
    population_size individuals without fitness, each with len(tasks) genes
    in [0, max_duration]. *)
Theorem init_population_shape cfg s n :
  (0 <= max_duration cfg -> exists pop n', init_population cfg s n = Some (pop, n')) /\
  (max_duration cfg < 0 -> 0 < population_size cfg -> cfg_tasks cfg <> [] ->
     init_population cfg s n = None) /\
  (forall pop n', init_population cfg s n = Some (pop, n') ->
     length pop = Z.to_nat (population_size cfg) /\
     Forall (fun x => fitness x = None /\ length (genes x) = length (cfg_tasks cfg) /\
                      Forall (fun g => 0 <= g <= max_duration cfg) (genes x)) pop).
Proof.
  split; [|split].
  - intros Hd. unfold init_population. apply repeatM_total. intros n0.
    destruct (repeatM_total (randint 0 (max_duration cfg)) (length (cfg_tasks cfg)) s n0)
      as (g & n1 & E).
    { intros n2. destruct (randint_some 0 (max_duration cfg) s n2 Hd) as [n3 E]. eauto. }
    exists (fresh g), n1. unfold bindM. rewrite E. reflexivity.
  - intros Hd Hp Ht. unfold init_population.
    destruct (Z.to_nat (population_size cfg)) as [|k] eqn:Ek; [lia|]. simpl.
    destruct (cfg_tasks cfg) as [|t ts]; [congruence|]. simpl.
    unfold bindM at 1 2 3. rewrite randint_empty by exact Hd. reflexivity.
  - intros pop n' H. split; [exact (repeatM_length _ _ _ _ _ _ H)|].
    unfold init_population in H.
    refine (repeatM_Forall (fun x => fitness x = None /\ length (genes x) = length (cfg_tasks cfg) /\
                      Forall (fun g => 0 <= g <= max_duration cfg) (genes x)) _ _ _ _ _ _ _ H).
    intros n0 v n1 Hv. apply bindM_inv in Hv as (g & n2 & Hg & Hv).
    injection Hv as <- _. simpl. split; [reflexivity|].
    split; [exact (repeatM_length _ _ _ _ _ _ Hg)|].
    exact (repeatM_Forall _ _ _ _ _ _ _ (fun n0 v n1 H => randint_ge _ _ _ _ _ _ H) Hg).
Qed.

Lemma init_population_shape_witness :
  let neg := {| cfg_tasks := [{| t_id := "N"; t_duration := -1; t_resources := [];
                                 t_deps := [] |}];
                population_size := 1; generations := 1; mutation_rate := 0;
                max_cost := None; cfg_mode := standard |} in
  (0 <= max_duration Scenario.cfg_abc /\
   exists pop n', init_population Scenario.cfg_abc (fun _ => 0) 0%nat = Some (pop, n')) /\
  (max_duration neg < 0 /\ 0 < population_size neg /\ cfg_tasks neg <> [] /\
   init_population neg (fun _ => 0) 0%nat = None).
Proof.
  intros neg.
  assert (Hd : 0 <= max_duration Scenario.cfg_abc) by (vm_compute; discriminate).
  assert (Hn : max_duration neg < 0) by reflexivity.
  assert (Hp : 0 < population_size neg) by reflexivity.
  assert (Ht : cfg_tasks neg <> []) by discriminate.
  split.
  - split; [exact Hd|].
    exact (proj1 (init_population_shape Scenario.cfg_abc (fun _ => 0) 0%nat) Hd).
  - split; [exact Hn|]. split; [exact Hp|]. split; [exact Ht|].
    exact (proj1 (proj2 (init_population_shape neg (fun _ => 0) 0%nat)) Hn Hp Ht).
Defined.

Lemma max_list_In xs m : max_list xs = Some m -> In m xs.
Proof.
  destruct xs as [|x xs]; [discriminate|]. simpl. intros H. injection H as <-.
  assert (G : forall l a, fold_left Z.max l a = a \/ In (fold_left Z.max l a) l).
  { induction l as [|y l IH]; intros a; simpl; [left; reflexivity|].
    destruct (IH (Z.max a y)) as [E | E]; [|right; right; exact E].
    rewrite E. destruct (Z.max_spec a y) as [[_ ->] | [_ ->]]; [right; left; reflexivity | left; reflexivity]. }
  destruct (G xs x) as [E | E]; [left; symmetry; exact E | right; exact E].
Qed.

Lemma Sorted_insert_by {A} (key : A -> Z) x l :
  Sorted (fun a b => key a <= key b) l ->
  Sorted (fun a b => key a <= key b) (insert_by key x l).
Proof.
  induction l as [|y l IH]; simpl; intros H; [repeat constructor|].
  destruct (key x <=? key y) eqn:E.
  - apply Z.leb_le in E. constructor; [exact H | constructor; exact E].
  - apply Z.leb_gt in E. apply Sorted_inv in H as [H Hhd].
    constructor; [exact (IH H)|].
    destruct l as [|z l]; simpl; [constructor; lia|].
    destruct (key x <=? key z); constructor; [lia|].
    inversion Hhd; assumption.
Qed.

Lemma Sorted_sort_by {A} (key : A -> Z) l :
  Sorted (fun a b => key a <= key b) (sort_by key l).
Proof. induction l as [|x l IH]; simpl; [constructor | apply Sorted_insert_by; exact IH]. Qed.

Lemma Permutation_insert_by {A} (key : A -> Z) x l :
  Permutation (insert_by key x l) (x :: l).
Proof.
  induction l as [|y l IH]; simpl; [reflexivity|].
  destruct (key x <=? key y); [reflexivity|].
  rewrite IH. apply perm_swap.
Qed.

Lemma Permutation_sort_by {A} (key : A -> Z) l : Permutation (sort_by key l) l.
Proof.
  induction l as [|x l IH]; simpl; [reflexivity|].
  rewrite Permutation_insert_by. constructor. exact IH.
Qed.

Lemma Forall2_map_eq {A B C} (R : A -> B -> Prop) (f : A -> C) (g : B -> C) l k :
  Forall2 R l k -> (forall x y, R x y -> f x = g y) -> map f l = map g k.
Proof.
  intros H Hfg. induction H as [|x y l k Hxy _ IH]; simpl; [reflexivity|].
  rewrite (Hfg _ _ Hxy), IH. reflexivity.
Qed.

Lemma final_result_shape_facts cfg best r :
  final_result cfg best = Some r ->
  Sorted (fun a b => item_start a <= item_start b) (res_schedule r) /\
  Permutation (map item_task (res_schedule r)) (task_ids cfg) /\
  (forall it, In it (res_schedule r) ->
     1 <= item_duration it /\ item_end it = item_start it + item_duration it /\
     item_end it <= total_duration r) /\
  (res_schedule r = [] -> total_duration r = 0) /\
  (res_schedule r <> [] -> exists it, In it (res_schedule r) /\ item_end it = total_duration r).
Proof.
  intros H. unfold final_result in H.
  apply bind_Some in H as (sch & Hsch & H).
  apply bind_Some in H as (ends & Hends & H).
  apply bind_Some in H as (td & Htd & H).
  apply bind_Some in H as (items & Hitems & H).
  injection H as <-. cbn [res_schedule total_duration].
  set (L := calculate_daily_resource_usage (resource_types cfg) sch
              (adjustment_factors (cfg_mode cfg))) in *.
  apply mapM_Some_1 in Hends. apply mapM_Some_1 in Hitems.
  assert (Hmap : map item_task items = task_ids cfg).
  { symmetry. unfold task_ids. apply (Forall2_map_eq _ _ _ _ _ Hitems).
    intros t it Hit. apply bind_Some in Hit as (info & _ & Hit). injection Hit as <-. reflexivity. }
  assert (Hends' : ends = map item_end items).
  { transitivity (map (fun t => match dict_get (t_id t) sch with
                                | Some info => si_start info + si_duration info
                                | None => 0 end) (cfg_tasks cfg)).
    - clear - Hends. induction Hends as [|t e ts es He _ IH]; [reflexivity|].
      simpl. rewrite <- IH. apply bind_Some in He as (info & Hi & He).
      injection He as <-. rewrite Hi. reflexivity.
    - apply (Forall2_map_eq _ _ _ _ _ Hitems).
      intros t it Hit. apply bind_Some in Hit as (info & Hi & Hit). injection Hit as <-.
      rewrite Hi. reflexivity. }
  assert (Hdur : forall it, In it items -> 1 <= item_duration it).
  { intros it Hit. destruct (Forall2_In_r _ _ _ _ Hitems Hit) as (t & _ & Ht).
    apply bind_Some in Ht as (info & Hi & Ht). injection Ht as <-.
    destruct (create_schedule_aux_get _ _ _ _ _ _ _ Hsch Hi)
      as [Ha | (t' & g & _ & _ & _ & ->)]; [discriminate|].
    apply adjusted_duration_pos. }
  assert (Hendi : forall it, In it items -> item_end it = item_start it + item_duration it).
  { intros it Hit. destruct (Forall2_In_r _ _ _ _ Hitems Hit) as (t & _ & Ht).
    apply bind_Some in Ht as (info & Hi & Ht). injection Ht as <-. reflexivity. }
  subst ends.
  split; [apply Sorted_sort_by|].
  split; [rewrite <- Hmap; apply Permutation_map, Permutation_sort_by|].
  split; [|split].
  - intros it Hit. apply In_sort_by in Hit.
    split; [exact (Hdur it Hit)|]. split; [exact (Hendi it Hit)|].
    destruct items as [|i0 items]; [destruct Hit|].
    apply (max_list_ge _ _ _ Htd). apply in_map. exact Hit.
  - intros He. destruct items as [|i0 items]; [injection Htd as <-; reflexivity|].
    apply (f_equal (@length _)) in He.
    rewrite (Permutation_length (Permutation_sort_by _ _)) in He. discriminate.
  - intros Hne. destruct items as [|i0 items]; [contradiction|].
    apply max_list_In in Htd. apply in_map_iff in Htd as (it & Heq & Hit).
    exists it. split; [apply In_sort_by; exact Hit | exact Heq].
Qed.

(** X11: The schedule returned by optimize is sorted by start and lists each
    task id once (a permutation of task_ids); every item has duration >= 1,
    end = start + duration and end <= total_duration; total_duration is 0
    for an empty schedule and otherwise the end of some item. *)
Theorem final_result_schedule_shape cfg best r :
  final_result cfg best = Some r ->
  Sorted (fun a b => item_start a <= item_start b) (res_schedule r) /\
  Permutation (map item_task (res_schedule r)) (task_ids cfg) /\
  (forall it, In it (res_schedule r) ->
     1 <= item_duration it /\ item_end it = item_start it + item_duration it /\
     item_end it <= total_duration r) /\
  (res_schedule r = [] -> total_duration r = 0) /\
  (res_schedule r <> [] -> exists it, In it (res_schedule r) /\ item_end it = total_duration r).
Proof. exact (final_result_shape_facts cfg best r). Qed.

Lemma final_result_schedule_shape_witness :
  exists r, final_result Sample.cfg_eco Sample.ind01 = Some r /\
    Sorted (fun a b => item_start a <= item_start b) (res_schedule r) /\
    total_duration r = 4.
Proof.
  destruct (final_result Sample.cfg_eco Sample.ind01) as [r|] eqn:E.
  - exists r. split; [reflexivity|].
    split; [exact (proj1 (final_result_schedule_shape _ _ _ E))|].
    vm_compute in E. injection E as <-. reflexivity.
  - vm_compute in E. discriminate.
Defined.

Module ROFacts.
Import RO.

Lemma fold_opt_inv {A B} (P : A -> Prop) (f : A -> B -> option A) l a a' :
  (forall x y x', P x -> In y l -> f x y = Some x' -> P x') ->
  P a -> fold_opt f l a = Some a' -> P a'.
Proof.
  revert a. induction l as [|y l IH]; intros a Hf Ha H; simpl in H.
  - injection H as <-. exact Ha.
  - apply bind_Some in H as (a1 & H1 & H).
    apply (IH a1); [intros x y' x' Hx Hy; apply Hf; [exact Hx | right; exact Hy] | | exact H].
    apply (Hf a y a1 Ha); [left; reflexivity | exact H1].
Qed.

Lemma schedule_task_totals o es ps name ps' :
  schedule_task o es ps name = Some ps' ->
  (ps_cost ps == qsum ri_cost (ps_schedule ps))%Q ->
  (ps_carbon ps == qsum ri_carbon (ps_schedule ps))%Q ->
  (ps_cost ps' == qsum ri_cost (ps_schedule ps'))%Q /\
  (ps_carbon ps' == qsum ri_carbon (ps_schedule ps'))%Q /\
  map ri_task (ps_schedule ps') = map ri_task (ps_schedule ps) ++ [name].
Proof.
  intros H Hc Hcb. unfold schedule_task in H.
  apply bind_Some in H as (task & _ & H).
  apply bind_Some in H as (st & _ & H).
  apply bind_Some in H as (tc & _ & H).
  apply bind_Some in H as (tcb & _ & H).
  apply bind_Some in H as (tl & _ & H).
  injection H as <-. cbn [ps_cost ps_carbon ps_schedule].
  rewrite !qsum_app, map_app. simpl. rewrite Hc, Hcb.
  split; [ring|]. split; [ring | reflexivity].
Qed.

Lemma ro_totals_facts o r :
  optimize_schedule o = Some r ->
  (ro_total_cost r == qsum ri_cost (ro_schedule r))%Q /\
  (ro_carbon_footprint r == qsum ri_carbon (ro_schedule r))%Q.
Proof.
  intros H. unfold optimize_schedule in H.
  apply bind_Some in H as (ord & _ & H).
  apply bind_Some in H as (es & _ & H).
  apply bind_Some in H as (ends & _ & H).
  apply bind_Some in H as (mx & _ & H).
  apply bind_Some in H as (ps & Hps & H).
  apply bind_Some in H as (util & _ & H).
  apply bind_Some in H as (td & _ & H).
  injection H as <-. cbn [ro_total_cost ro_carbon_footprint ro_schedule].
  rewrite !qsum_sort_by.
  refine (fold_opt_inv (fun ps => (ps_cost ps == qsum ri_cost (ps_schedule ps))%Q /\
                                  (ps_carbon ps == qsum ri_carbon (ps_schedule ps))%Q)
            _ _ _ _ _ _ Hps).
  - intros x y x' [Hc Hcb] _ Hx.
    destruct (schedule_task_totals _ _ _ _ _ Hx Hc Hcb) as (A1 & A2 & _). split; assumption.
  - simpl. split; reflexivity.
Qed.

(** X12: When ResourceOptimizer.optimize_schedule returns, its total_cost is
    the sum of the schedule items' 'cost' values and its carbon_footprint
    the sum of their 'carbon' values. *)
Theorem ro_totals_are_item_sums o r :
  optimize_schedule o = Some r ->
  (ro_total_cost r == qsum ri_cost (ro_schedule r))%Q /\
  (ro_carbon_footprint r == qsum ri_carbon (ro_schedule r))%Q.
Proof. exact (ro_totals_facts o r). Qed.

Lemma ro_totals_are_item_sums_witness :
  exists r, optimize_schedule eco_frame = Some r /\
    (ro_total_cost r == qsum ri_cost (ro_schedule r))%Q /\ (ro_total_cost r == 9900)%Q.
Proof.
  destruct (optimize_schedule eco_frame) as [r|] eqn:E.
  - exists r. split; [reflexivity|].
    split; [exact (proj1 (ro_totals_are_item_sums _ _ E))|].
    vm_compute in E. injection E as <-. reflexivity.
  - vm_compute in E. discriminate.
Defined.

(** X13: ResourceOptimizer.optimize_schedule raises when there are no tasks:
    max() of the empty list of end times fails. *)
Theorem ro_no_tasks_raises o :
  ro_tasks o = [] -> optimize_schedule o = None.
Proof.
  intros H. unfold optimize_schedule, topological_order. rewrite H. reflexivity.
Qed.

Lemma ro_no_tasks_raises_witness :
  let o := {| ro_tasks := []; ro_resources := ["Crane"]; ro_dependencies := [];
              ro_resource_costs := [("Crane", 1000%Q)]; ro_resource_carbon := [("Crane", 50%Q)];
              ro_mode := standard |} in
  ro_tasks o = [] /\ optimize_schedule o = None.
Proof.
  intros o. assert (H : ro_tasks o = []) by reflexivity.
  split; [exact H | exact (ro_no_tasks_raises o H)].
Defined.

Lemma mem_In x l : mem x l = true -> In x l.
Proof. unfold mem. intros H. apply existsb_eqb_in. exact H. Qed.

Lemma fold_visit_None o fuel l :
  fold_left (fun acc d => acc ≫= visit o fuel d) l None = None.
Proof. induction l as [|d l IH]; [reflexivity | exact IH]. Qed.

Lemma visit_grows o fuel : forall name st st',
  visit o fuel name st = Some st' ->
  dfs_ok st -> dfs_ok st' /\ In name (visited st') /\
  (forall x, In x (visited st) -> In x (visited st')).
Proof.
  induction fuel as [|fuel IH]; intros name st st' H Hok; [discriminate|].
  simpl in H. destruct (mem name (temp_visited st)); [discriminate|].
  destruct (mem name (visited st)) eqn:Ev.
  - injection H as <-. split; [exact Hok|]. split; [exact (mem_In _ _ Ev) | tauto].
  - apply bind_Some in H as (st1 & H1 & H). injection H as <-.
    assert (G : forall l st0 st1,
      fold_left (fun acc d => acc ≫= visit o fuel d) l (Some st0) = Some st1 ->
      dfs_ok st0 -> dfs_ok st1 /\ (forall x, In x (visited st0) -> In x (visited st1))).
    { induction l as [|d l IHl]; intros st0 st2 Hf Hok0; simpl in Hf.
      - injection Hf as <-. split; [exact Hok0 | tauto].
      - destruct (visit o fuel d st0) as [st3|] eqn:E3; simpl in Hf;
          [|rewrite fold_visit_None in Hf; discriminate].
        destruct (IH _ _ _ E3 Hok0) as (Ok3 & _ & Sub3).
        destruct (IHl _ _ Hf Ok3) as (Ok2 & Sub2).
        split; [exact Ok2 | intros x Hx; exact (Sub2 x (Sub3 x Hx))]. }
    destruct (G _ _ _ H1 Hok) as (Ok1 & Sub1).
    unfold dfs_ok in *. cbn [visited order] in *.
    split; [|split; [left; reflexivity | intros x Hx; right; exact (Sub1 x Hx)]].
    intros x [<- | Hx]; apply in_or_app; [right; left; reflexivity | left; exact (Ok1 x Hx)].
Qed.

Lemma topological_order_complete o ord :
  topological_order o = Some ord -> forall t, In t (ro_tasks o) -> In (ro_name t) ord.
Proof.
  unfold topological_order. intros H.
  apply bind_Some in H as (st & Hst & H). injection H as <-.
  assert (G : forall l acc st,
    fold_left (fun acc t => acc ≫= fun st =>
        if mem (ro_name t) (visited st) then Some st
        else visit o (search_fuel o) (ro_name t) st) l acc = Some st ->
    forall st0, acc = Some st0 -> dfs_ok st0 ->
    dfs_ok st /\ (forall x, In x (visited st0) -> In x (visited st)) /\
    (forall t, In t l -> In (ro_name t) (visited st))).
  { induction l as [|t l IHl]; intros acc st1 Hf st0 -> Hok0; cbn [fold_left] in Hf.
    1: { injection Hf as <-. split; [exact Hok0|]. split; [tauto | intros _ []]. }
    replace (Some st0 ≫= _) with (if mem (ro_name t) (visited st0) then Some st0
                                  else visit o (search_fuel o) (ro_name t) st0) in Hf
      by reflexivity.
    destruct (mem (ro_name t) (visited st0)) eqn:Em.
      + destruct (IHl _ _ Hf st0 eq_refl Hok0) as (Ok1 & Sub1 & All1).
        split; [exact Ok1|]. split; [exact Sub1|].
        intros t' [<- | Ht']; [exact (Sub1 _ (mem_In _ _ Em)) | exact (All1 t' Ht')].
      + destruct (visit o (search_fuel o) (ro_name t) st0) as [st2|] eqn:E2.
        * destruct (visit_grows _ _ _ _ _ E2 Hok0) as (Ok2 & In2 & Sub2).
          destruct (IHl _ _ Hf st2 eq_refl Ok2) as (Ok1 & Sub1 & All1).
          split; [exact Ok1|]. split; [intros x Hx; exact (Sub1 x (Sub2 x Hx))|].
          intros t' [<- | Ht']; [exact (Sub1 _ In2) | exact (All1 t' Ht')].
        * exfalso. clear -Hf. induction l as [|t' l IHl']; simpl in Hf; [discriminate | exact (IHl' Hf)]. }
  destruct (G _ _ _ Hst _ eq_refl) as (Ok & _ & All); [intros x []|].
  intros t Ht. apply in_rev. rewrite rev_involutive. exact (Ok _ (All t Ht)).
Qed.

(** X14: When ResourceOptimizer.optimize_schedule returns, its schedule is
    sorted by start and contains an item for the name of every task. *)
Theorem ro_schedule_lists_every_task o r :
  optimize_schedule o = Some r ->
  Sorted (fun a b => ri_start a <= ri_start b) (ro_schedule r) /\
  forall t, In t (ro_tasks o) -> In (ro_name t) (map ri_task (ro_schedule r)).
Proof.
  intros H. unfold optimize_schedule in H.
  apply bind_Some in H as (ord & Hord & H).
  apply bind_Some in H as (es & _ & H).
  apply bind_Some in H as (ends & _ & H).
  apply bind_Some in H as (mx & _ & H).
  apply bind_Some in H as (ps & Hps & H).
  apply bind_Some in H as (util & _ & H).
  apply bind_Some in H as (td & _ & H).
  injection H as <-. cbn [ro_schedule].
  split; [apply Sorted_sort_by|].
  assert (Hmap : forall l ps0 ps1, fold_opt (schedule_task o es) l ps0 = Some ps1 ->
            map ri_task (ps_schedule ps1) = map ri_task (ps_schedule ps0) ++ l).
  { induction l as [|y l IHl]; intros ps0 ps1 Hf; simpl in Hf.
    - injection Hf as <-. rewrite app_nil_r. reflexivity.
    - apply bind_Some in Hf as (ps2 & H2 & Hf). rewrite (IHl _ _ Hf).
      unfold schedule_task in H2.
      apply bind_Some in H2 as (task & _ & H2).
      apply bind_Some in H2 as (st & _ & H2).
      apply bind_Some in H2 as (tc & _ & H2).
      apply bind_Some in H2 as (tcb & _ & H2).
      apply bind_Some in H2 as (tl & _ & H2).
      injection H2 as <-. cbn [ps_schedule]. rewrite map_app, <- app_assoc. reflexivity. }
  intros t Ht.
  apply (Permutation_in _ (Permutation_sym (Permutation_map ri_task (Permutation_sort_by ri_start _)))).
  rewrite (Hmap _ _ _ Hps). exact (topological_order_complete _ _ Hord t Ht).
Qed.

Lemma ro_schedule_lists_every_task_witness :
  exists r, optimize_schedule abc = Some r /\
    map ri_task (ro_schedule r) = ["A"; "B"; "C"] /\
    In "A" (map ri_task (ro_schedule r)).
Proof.
  destruct (optimize_schedule abc) as [r|] eqn:E.
  - exists r. split; [reflexivity|].
    split; [vm_compute in E; injection E as <-; reflexivity|].
    exact (proj2 (ro_schedule_lists_every_task _ _ E)
             {| ro_name := "A"; ro_duration := 2; ro_required := [] |} (or_introl eq_refl)).
  - vm_compute in E. discriminate.
Defined.

End ROFacts.

Lemma int_of_Q_nonneg n p : 0 <= n -> int_of_Q (n # p) = n / Z.pos p.
Proof.
  intros Hn. unfold int_of_Q.
  replace (Qle_bool 0 (n # p)) with true; [reflexivity|].
  symmetry. apply Qle_bool_iff. unfold Qle. simpl. lia.
Qed.

Lemma int_of_Q_nonpos n p : n <= 0 -> int_of_Q (n # p) <= 0.
Proof.
  intros Hn. unfold int_of_Q.
  destruct (Qle_bool 0 (n # p)) eqn:E.
  - apply Qle_bool_iff in E. unfold Qle in E. simpl in E.
    assert (n = 0) as -> by lia. reflexivity.
  - unfold Qopp, Qfloor. simpl.
    pose proof (Z.div_pos (- n) (Z.pos p) ltac:(lia) ltac:(lia)). lia.
Qed.

(** X15: The adjusted duration max(1, int(d * factor)) is 1 for every mode
    when d <= 0; for d >= 0 it is max(1, d) in standard, max(1,
    floor(11d/10)) in eco and max(1, floor(4d/5)) in performance, so
    performance <= standard <= eco. *)
Theorem adjusted_duration_by_mode d :
  (d <= 0 -> forall m, adjusted_duration (adjustment_factors m) d = 1) /\
  (0 <= d ->
     adjusted_duration (adjustment_factors standard) d = Z.max 1 d /\
     adjusted_duration (adjustment_factors eco) d = Z.max 1 (11 * d / 10) /\
     adjusted_duration (adjustment_factors performance) d = Z.max 1 (4 * d / 5) /\
     adjusted_duration (adjustment_factors performance) d <=
       adjusted_duration (adjustment_factors standard) d <=
       adjusted_duration (adjustment_factors eco) d).
Proof.
  split.
  - intros Hd m. unfold adjusted_duration.
    destruct m; cbn [adjustment_factors f_duration]; unfold inject_Z, Qmult; simpl;
      match goal with |- Z.max 1 (int_of_Q (?n # ?p)) = 1 =>
        pose proof (int_of_Q_nonpos n p ltac:(lia)); lia end.
  - intros Hd. unfold adjusted_duration. cbn [adjustment_factors f_duration].
    unfold inject_Z, Qmult. simpl.
    rewrite !int_of_Q_nonneg by lia.
    change (Z.pos (1 * 5)) with 5. change (Z.pos (1 * 10)) with 10.
    replace (d * 1) with d by ring. rewrite Z.div_1_r.
    replace (d * 11) with (11 * d) by ring. replace (d * 4) with (4 * d) by ring.
    split; [reflexivity|]. split; [reflexivity|]. split; [reflexivity|].
    pose proof (Z.div_le_upper_bound (4 * d) 5 d ltac:(lia) ltac:(lia)).
    pose proof (Z.div_le_lower_bound (11 * d) 10 d ltac:(lia) ltac:(lia)).
    lia.
Qed.

Lemma adjusted_duration_by_mode_witness :
  (0 <= 10 /\ adjusted_duration (adjustment_factors eco) 10 = 11) /\
  (-3 <= 0 /\ adjusted_duration (adjustment_factors performance) (-3) = 1).
Proof.
  split.
  - split; [lia|].
    rewrite (proj1 (proj2 (proj2 (adjusted_duration_by_mode 10) ltac:(lia)))). reflexivity.
  - split; [lia|]. exact (proj1 (adjusted_duration_by_mode (-3)) ltac:(lia) performance).
Defined.

Lemma add_unique_spec acc r :
  (NoDup acc -> NoDup (add_unique acc r)) /\
  (forall x, In x (add_unique acc r) <-> In x acc \/ x = r).
Proof.
  unfold add_unique. destruct (existsb (String.eqb r) acc) eqn:E.
  - apply existsb_eqb_in in E. split; [tauto|].
    intros x. split; [tauto|]. intros [H | ->]; assumption.
  - split.
    + intros Hn. apply NoDup_app. split; [exact Hn|]. split; [|apply NoDup_singleton].
      intros x Hx Hy. apply list_elem_of_In in Hx. apply list_elem_of_In in Hy.
      destruct Hy as [<- | []]. apply existsb_eqb_in in Hx. congruence.
    + intros x. rewrite in_app_iff. simpl. split; intros [H | H]; try tauto.
      destruct H as [<- | []]; tauto.
      subst x. right; left; reflexivity.
Qed.

Lemma fold_add_unique_spec names : forall acc,
  (NoDup acc -> NoDup (fold_left add_unique names acc)) /\
  (forall x, In x (fold_left add_unique names acc) <-> In x acc \/ In x names).
Proof.
  induction names as [|r names IH]; intros acc; simpl.
  - split; [tauto | intros x; simpl; tauto].
  - destruct (add_unique_spec acc r) as [N1 I1].
    destruct (IH (add_unique acc r)) as [N2 I2].
    split; [intros Hn; exact (N2 (N1 Hn))|].
    intros x. rewrite I2, I1. split; intros H; decompose [or] H; subst; simpl; tauto.
Qed.

(** X16: _extract_resource_types returns a list without duplicates whose
    members are exactly the resource names that occur in some task's
    resources. *)
Theorem resource_types_exact tasks :
  NoDup (extract_resource_types tasks) /\
  forall r, In r (extract_resource_types tasks) <->
            exists t q, In t tasks /\ In (r, q) (t_resources t).
Proof.
  unfold extract_resource_types.
  assert (G : forall acc, NoDup acc ->
    NoDup (fold_left (fun acc t => fold_left add_unique (map fst (t_resources t)) acc) tasks acc) /\
    forall r, In r (fold_left (fun acc t => fold_left add_unique (map fst (t_resources t)) acc) tasks acc)
              <-> In r acc \/ exists t q, In t tasks /\ In (r, q) (t_resources t)).
  { induction tasks as [|t ts IH]; intros acc Hn; simpl.
    - split; [exact Hn|]. intros r. split; [tauto|]. intros [H | (t & q & [] & _)]; exact H.
    - destruct (fold_add_unique_spec (map fst (t_resources t)) acc) as [N1 I1].
      destruct (IH _ (N1 Hn)) as [N2 I2].
      split; [exact N2|]. intros r. rewrite I2, I1. split.
      + intros [[H | H] | (t' & q & Ht' & Hq)].
        * left. exact H.
        * right. apply in_map_iff in H as ([r' q] & Er & Hq). simpl in Er. subst r'.
          exists t, q. split; [left; reflexivity | exact Hq].
        * right. exists t', q. split; [right; exact Ht' | exact Hq].
      + intros [H | (t' & q & [<- | Ht'] & Hq)].
        * left; left; exact H.
        * left; right. apply in_map_iff. exists (r, q). split; [reflexivity | exact Hq].
        * right. exists t', q. split; assumption. }
  destruct (G [] (NoDup_nil_2)) as [N I].
  split; [exact N|]. intros r. rewrite I. split; [intros [[] | H]; exact H | tauto].
Qed.

Lemma util_critical_path_finisher sched it :
  In it sched ->
  (forall y, In y sched -> item_start y < item_end y <= item_end it) ->
  In (item_task it) (util_critical_path sched).
Proof.
  induction sched as [|a rest IH]; intros Hin Hy; [destruct Hin|]. simpl.
  destruct Hin as [<- | Hin].
  - replace (forallb _ rest) with true; [left; reflexivity|].
    symmetry. apply forallb_forall. intros y Hyr.
    pose proof (Hy y (or_intror Hyr)). apply negb_true_iff, Z.ltb_ge. lia.
  - assert (IH' : In (item_task it) (util_critical_path rest))
      by (apply IH; [exact Hin | intros y Hyr; apply Hy; right; exact Hyr]).
    destruct (forallb _ rest); [right|]; exact IH'.
Qed.

Lemma ro_critical_path_finisher o sched it :
  In it sched ->
  (forall y, In y sched -> RO.ri_start y < RO.ri_end y <= RO.ri_end it) ->
  In (RO.ri_task it) (ro_critical_path o sched).
Proof.
  induction sched as [|a rest IH]; intros Hin Hy; [destruct Hin|]. simpl.
  destruct Hin as [<- | Hin].
  - replace (forallb _ rest) with true; [left; reflexivity|].
    symmetry. apply forallb_forall. intros y Hyr.
    pose proof (Hy y (or_intror Hyr)).
    destruct (forallb _ _); [reflexivity|]. apply negb_true_iff. rewrite Z.gtb_ltb. apply Z.ltb_ge. lia.
  - assert (IH' : In (RO.ri_task it) (ro_critical_path o rest))
      by (apply IH; [exact Hin | intros y Hyr; apply Hy; right; exact Hyr]).
    destruct (forallb _ rest); [right|]; exact IH'.
Qed.

Module ROCrit.
Import RO.

Lemma ro_result_ends o r :
  optimize_schedule o = Some r ->
  (forall it, In it (ro_schedule r) -> ri_start it < ri_end it <= ro_total_duration r) /\
  (ro_schedule r <> [] -> exists it, In it (ro_schedule r) /\ ri_end it = ro_total_duration r).
Proof.
  intros H. unfold optimize_schedule in H.
  apply bind_Some in H as (ord & _ & H).
  apply bind_Some in H as (es & _ & H).
  apply bind_Some in H as (ends & _ & H).
  apply bind_Some in H as (mx & _ & H).
  apply bind_Some in H as (ps & Hps & H).
  apply bind_Some in H as (util & _ & H).
  apply bind_Some in H as (td & Htd & H).
  injection H as <-. cbn [ro_schedule ro_total_duration].
  assert (Hse : forall it, In it (ps_schedule ps) -> ri_start it < ri_end it).
  { refine (ROFacts.fold_opt_inv (fun ps => forall it, In it (ps_schedule ps) -> ri_start it < ri_end it)
              _ _ _ _ _ _ Hps); [|intros _ []].
    intros x y x' Hx _ Hs. unfold schedule_task in Hs.
    apply bind_Some in Hs as (task & _ & Hs).
    apply bind_Some in Hs as (st & _ & Hs).
    apply bind_Some in Hs as (tc & _ & Hs).
    apply bind_Some in Hs as (tcb & _ & Hs).
    apply bind_Some in Hs as (tl & _ & Hs).
    injection Hs as <-. cbn [ps_schedule]. intros it Hit.
    apply in_app_or in Hit as [Hit | [<- | []]]; [exact (Hx it Hit)|].
    cbn [ri_start ri_end]. pose proof (adjusted_duration_pos (adjustment_factors (ro_mode o)) (ro_duration task)). lia. }
  destruct (sort_by ri_start (ps_schedule ps)) as [|i0 rest] eqn:Es.
  - split; [intros _ []|]. intros Hne. contradiction.
  - split.
    + intros it Hit. split.
      * apply Hse. apply (In_sort_by ri_start). rewrite Es. exact Hit.
      * apply (max_list_ge _ _ _ Htd). apply in_map. exact Hit.
    + intros _. apply max_list_In in Htd. apply in_map_iff in Htd as (it & Heq & Hit).
      exists it. split; [exact Hit | exact Heq].
Qed.

End ROCrit.

(** X17: In the critical-path section of utils.generate_report on a result
    of optimize, and of ResourceOptimizer.generate_report on a result of
    optimize_schedule, every task whose end equals total_duration is listed;
    hence the listed critical path is never empty for a non-empty schedule.
    *)
Theorem report_critical_path_flags_finishers :
  (forall cfg best r it,
     final_result cfg best = Some r -> In it (res_schedule r) ->
     item_end it = total_duration r ->
     In (item_task it) (util_critical_path (res_schedule r))) /\
  (forall cfg best r,
     final_result cfg best = Some r -> res_schedule r <> [] ->
     util_critical_path (res_schedule r) <> []) /\
  (forall o r it,
     RO.optimize_schedule o = Some r -> In it (RO.ro_schedule r) ->
     RO.ri_end it = RO.ro_total_duration r ->
     In (RO.ri_task it) (ro_critical_path o (RO.ro_schedule r))) /\
  (forall o r,
     RO.optimize_schedule o = Some r -> RO.ro_schedule r <> [] ->
     ro_critical_path o (RO.ro_schedule r) <> []).
Proof.
  assert (GA : forall cfg best r it,
     final_result cfg best = Some r -> In it (res_schedule r) ->
     item_end it = total_duration r ->
     In (item_task it) (util_critical_path (res_schedule r))).
  { intros cfg best r it H Hit He.
    destruct (final_result_shape_facts _ _ _ H) as (_ & _ & Hall & _ & _).
    apply util_critical_path_finisher; [exact Hit|].
    intros y Hy. destruct (Hall y Hy) as (H1 & H2 & H3). lia. }
  assert (RR : forall o r it,
     RO.optimize_schedule o = Some r -> In it (RO.ro_schedule r) ->
     RO.ri_end it = RO.ro_total_duration r ->
     In (RO.ri_task it) (ro_critical_path o (RO.ro_schedule r))).
  { intros o r it H Hit He.
    destruct (ROCrit.ro_result_ends _ _ H) as [Hall _].
    apply ro_critical_path_finisher; [exact Hit|].
    intros y Hy. destruct (Hall y Hy). lia. }
  split; [exact GA|]. split; [|split; [exact RR|]].
  - intros cfg best r H Hne.
    destruct (final_result_shape_facts _ _ _ H) as (_ & _ & _ & _ & Hex).
    destruct (Hex Hne) as (it & Hit & He).
    pose proof (GA _ _ _ _ H Hit He) as Hc. destruct (util_critical_path _); [destruct Hc | discriminate].
  - intros o r H Hne.
    destruct (ROCrit.ro_result_ends _ _ H) as [_ Hex].
    destruct (Hex Hne) as (it & Hit & He).
    pose proof (RR _ _ _ H Hit He) as Hc. destruct (ro_critical_path _ _); [destruct Hc | discriminate].
Qed.

Lemma report_critical_path_flags_finishers_witness :
  (exists r, final_result Sample.cfg_eco Sample.ind01 = Some r /\
     util_critical_path (res_schedule r) = ["A"%string; "B"%string] /\
     util_critical_path (res_schedule r) <> []) /\
  (exists r, RO.optimize_schedule RO.abc = Some r /\
     ro_critical_path RO.abc (RO.ro_schedule r) = ["B"%string; "C"%string] /\
     ro_critical_path RO.abc (RO.ro_schedule r) <> []).
Proof.
  destruct report_critical_path_flags_finishers as (_ & G & _ & R).
  split.
  - destruct (final_result Sample.cfg_eco Sample.ind01) as [r|] eqn:E.
    + exists r. split; [reflexivity|]. split.
      * vm_compute in E. injection E as <-. reflexivity.
      * apply (G _ _ _ E). vm_compute in E. injection E as <-. discriminate.
    + vm_compute in E. discriminate.
  - destruct (RO.optimize_schedule RO.abc) as [r|] eqn:E.
    + exists r. split; [reflexivity|]. split.
      * vm_compute in E. injection E as <-. reflexivity.
      * apply (R _ _ E). vm_compute in E. injection E as <-. discriminate.
    + vm_compute in E. discriminate.
Defined.

Lemma fold_left_Qplus {A} (f : A -> Q) l a :
  (fold_left (fun acc x => acc + f x) l a == a + qsum f l)%Q.
Proof.
  revert a. induction l as [|x l IH]; intros a; simpl.
  - ring.
  - rewrite IH. ring.
Qed.

Lemma calculate_carbon_footprint_qsum {A} (f : A -> Q) l rc :
  (calculate_carbon_footprint f l rc == qsum f l)%Q.
Proof. unfold calculate_carbon_footprint. rewrite fold_left_Qplus. ring. Qed.

(** X18: utils.calculate_carbon_footprint, the sum of the items' 'carbon'
    values, equals carbon_footprint for a result of
    ResourceOptimizer.optimize_schedule, and is at least carbon_footprint
    for a result of GeneticAlgorithmScheduler.optimize (with distinct task
    ids and non-negative quantities), where it can be strictly larger. *)
Theorem carbon_helper_vs_results :
  (forall cfg best r rc,
     NoDup (task_ids cfg) ->
     Forall (fun t => Forall (fun rq => 0 <= snd rq) (t_resources t)) (cfg_tasks cfg) ->
     final_result cfg best = Some r ->
     (carbon_footprint r <= calculate_carbon_footprint item_carbon (res_schedule r) rc)%Q) /\
  (forall o r rc,
     RO.optimize_schedule o = Some r ->
     (calculate_carbon_footprint RO.ri_carbon (RO.ro_schedule r) rc == RO.ro_carbon_footprint r)%Q).
Proof.
  split.
  - intros cfg best r rc Hn Hq H. rewrite calculate_carbon_footprint_qsum.
    exact (proj2 (task_costs_cover_total_facts _ _ _ Hn Hq H)).
  - intros o r rc H. rewrite calculate_carbon_footprint_qsum.
    symmetry. exact (proj2 (ROFacts.ro_totals_facts _ _ H)).
Qed.

Lemma carbon_helper_vs_results_witness :
  (exists r, final_result Overlap.cfg_pq Overlap.both_at_0 = Some r /\
     (carbon_footprint r <= calculate_carbon_footprint item_carbon (res_schedule r) [])%Q /\
     (carbon_footprint r < calculate_carbon_footprint item_carbon (res_schedule r) [])%Q) /\
  (exists r, RO.optimize_schedule RO.eco_frame = Some r /\
     (calculate_carbon_footprint RO.ri_carbon (RO.ro_schedule r) [] == RO.ro_carbon_footprint r)%Q).
Proof.
  destruct carbon_helper_vs_results as [G R]. split.
  - assert (Hn : NoDup (task_ids Overlap.cfg_pq))
      by (apply (bool_decide_unpack _); vm_compute; reflexivity).
    assert (Hq : Forall (fun t => Forall (fun rq => 0 <= snd rq) (t_resources t))
                   (cfg_tasks Overlap.cfg_pq))
      by (vm_compute; repeat constructor; discriminate).
    destruct (final_result Overlap.cfg_pq Overlap.both_at_0) as [r|] eqn:E.
    + exists r. split; [reflexivity|]. split; [exact (G _ _ _ [] Hn Hq E)|].
      vm_compute in E. injection E as <-. reflexivity.
    + vm_compute in E. discriminate.
  - destruct (RO.optimize_schedule RO.eco_frame) as [r|] eqn:E.
    + exists r. split; [reflexivity|]. exact (R _ _ [] E).
    + vm_compute in E. discriminate.
Defined.
